(** * tasawwur-rtc (Android SDK, native layer): embedding and verification

    The development follows the native sources under
    [sdk-android/src/main/cpp]:

    - [Jni]            the handle table of [jni_interface.cpp];
    - [WebRTCWrapper]  the negotiator [WebRTCWrapper::Impl] of
                       [webrtc_wrapper.cpp];
    - [RtcEngineImpl]  the session orchestrator of [rtc_engine_impl.cpp];
    - [Json]           the parser and accessors of [utils/json_helper.cpp];
    - [Config]         [RtcEngineImpl::Config::FromJson].

    The definitions come first, the theorems about them after. *)

From Stdlib Require Import ZArith String Ascii List Bool Lia Sorted.
From stdpp Require Import gmap.
Import ListNotations.

(** ** Machine integers *)

(** [jlong] is a signed 64-bit integer; [jlong_wrap] is the two's-complement
    value an increment leaves in the register. *)
Definition jlong_min : Z := - 2 ^ 63.
Definition jlong_max : Z := 2 ^ 63 - 1.
Definition jlong_wrap (z : Z) : Z := ((z + 2 ^ 63) mod 2 ^ 64 - 2 ^ 63)%Z.

(** ** jni_interface.cpp: the handle table *)

Module Jni.
Section HandleTable.
(** The orchestrator a handle stands for ([std::shared_ptr<RtcEngineImpl>]). *)
Context {Engine : Type}.

(** [g_engines] and [g_next_handle]. *)
Record globals : Type := Globals {
  g_engines : gmap Z Engine;
  g_next_handle : Z
}.

(** The state the library is loaded with: an empty map,
    [g_next_handle = 1]. *)
Definition loaded : globals :=
  {| g_engines := ∅; g_next_handle := 1 |}.

(** [get_engine]: [find], and [nullptr] ([None]) when the key is absent. *)
Definition get_engine (handle : Z) (g : globals) : option Engine :=
  g_engines g !! handle.

(** [nativeCreateEngine].  [built] is the orchestrator the constructor
    produced, [None] when construction threw: the [catch] then returns 0
    and the table is not touched.  Otherwise
    [handle = g_next_handle++; g_engines[handle] = engine]. *)
Definition nativeCreateEngine (built : option Engine) (g : globals)
  : Z * globals :=
  match built with
  | None => (0%Z, g)
  | Some engine =>
      let handle := g_next_handle g in
      (handle,
       {| g_engines := <[handle := engine]> (g_engines g);
          g_next_handle := jlong_wrap (handle + 1) |})
  end.

(** [nativeDestroyEngine]: erase the entry when it is found, otherwise only
    a warning is logged. *)
Definition nativeDestroyEngine (handle : Z) (g : globals) : globals :=
  match g_engines g !! handle with
  | Some _ => {| g_engines := delete handle (g_engines g);
                 g_next_handle := g_next_handle g |}
  | None => g
  end.

(** The commands a host can issue against the table. *)
Inductive command : Type :=
| Create (built : option Engine)
| Destroy (handle : Z)
| Resolve (handle : Z).

Definition step (c : command) (g : globals) : globals :=
  match c with
  | Create built => snd (nativeCreateEngine built g)
  | Destroy handle => nativeDestroyEngine handle g
  | Resolve _ => g
  end.

Definition run (cs : list command) (g : globals) : globals :=
  fold_left (fun g c => step c g) cs g.

(** The handles [nativeCreateEngine] returned to the host for the
    successful creations of [cs], oldest first, when the commands are run
    from [g]. *)
Fixpoint issued (cs : list command) (g : globals) : list Z :=
  match cs with
  | [] => []
  | c :: cs' =>
      match c with
      | Create (Some engine) =>
          fst (nativeCreateEngine (Some engine) g) :: issued cs' (step c g)
      | _ => issued cs' (step c g)
      end
  end.

(** How many creations of [cs] succeed. *)
Fixpoint creations (cs : list command) : nat :=
  match cs with
  | [] => O
  | Create (Some _) :: cs' => S (creations cs')
  | _ :: cs' => creations cs'
  end.

(** [handle] was given out and its entry destroyed afterwards. *)
Definition destroyed (handle : Z) (cs : list command) (g : globals) : Prop :=
  exists before after,
    cs = before ++ Destroy handle :: after /\ In handle (issued before g).
End HandleTable.

(** The [n] consecutive integers from [first] on. *)
Fixpoint consecutive (first : Z) (n : nat) : list Z :=
  match n with
  | O => []
  | S n' => first :: consecutive (first + 1) n'
  end.
Arguments globals : clear implicits.
Arguments command : clear implicits.
End Jni.

(** ** webrtc_wrapper.cpp: the negotiator *)

Module WebRTCWrapper.

(** The private state of [WebRTCWrapper::Impl].  [observer_] records
    whether an observer is registered; [config_] and
    [remote_video_streams_], which no lifecycle method reads or writes, are
    left out. *)
Record Impl : Type := mkImpl {
  is_initialized_ : bool;
  peer_connection_created_ : bool;
  local_streams_added_ : bool;
  local_video_setup_ : bool;
  local_audio_muted_ : bool;
  local_video_enabled_ : bool;
  observer_ : bool
}.

(** A freshly constructed [Impl] (the member initialisers). *)
Definition fresh : Impl :=
  {| is_initialized_ := false; peer_connection_created_ := false;
     local_streams_added_ := false; local_video_setup_ := false;
     local_audio_muted_ := false; local_video_enabled_ := true;
     observer_ := false |}.

(** The three lifecycle flags, and one assignment to one of them. *)
Inductive flag : Type :=
| initialized | peer_connection_created | local_streams_added.

Definition store : Type := (flag * bool)%type.

Definition write (s : store) (w : Impl) : Impl :=
  match fst s with
  | initialized =>
      mkImpl (snd s) (peer_connection_created_ w) (local_streams_added_ w)
        (local_video_setup_ w) (local_audio_muted_ w)
        (local_video_enabled_ w) (observer_ w)
  | peer_connection_created =>
      mkImpl (is_initialized_ w) (snd s) (local_streams_added_ w)
        (local_video_setup_ w) (local_audio_muted_ w)
        (local_video_enabled_ w) (observer_ w)
  | local_streams_added =>
      mkImpl (is_initialized_ w) (peer_connection_created_ w) (snd s)
        (local_video_setup_ w) (local_audio_muted_ w)
        (local_video_enabled_ w) (observer_ w)
  end.

(** Running the assignments of a method body in program order. *)
Definition exec (ss : list store) (w : Impl) : Impl :=
  fold_left (fun w s => write s w) ss w.

(** The assignments each method performs, in the order of its
    statements. *)
Definition Initialize_stores (w : Impl) : list store :=
  [(initialized, true)].

Definition CreatePeerConnection_stores (w : Impl) : list store :=
  if is_initialized_ w then [(peer_connection_created, true)] else [].

Definition ClosePeerConnection_stores (w : Impl) : list store :=
  if peer_connection_created_ w
  then [(peer_connection_created, false); (local_streams_added, false)]
  else [].

Definition AddLocalStreams_stores (w : Impl) : list store :=
  if peer_connection_created_ w then [(local_streams_added, true)] else [].

Definition RemoveLocalStreams_stores (w : Impl) : list store :=
  if local_streams_added_ w then [(local_streams_added, false)] else [].

(** [Cleanup] calls [ClosePeerConnection] when a peer connection exists
    and then clears [is_initialized_].  The destructor of [WebRTCWrapper]
    calls [Cleanup] too. *)
Definition Cleanup_stores (w : Impl) : list store :=
  (if peer_connection_created_ w then ClosePeerConnection_stores w else [])
  ++ [(initialized, false)].

(** The methods themselves. *)
Definition Initialize (w : Impl) : bool * Impl :=
  (true, exec (Initialize_stores w) w).

Definition Cleanup (w : Impl) : Impl := exec (Cleanup_stores w) w.

Definition CreatePeerConnection (w : Impl) : bool * Impl :=
  (is_initialized_ w, exec (CreatePeerConnection_stores w) w).

Definition ClosePeerConnection (w : Impl) : Impl :=
  exec (ClosePeerConnection_stores w) w.

(** What a method hands to a callback, and when: [Immediate] is a call made
    before the method returns, [Detached ms] a call made by a detached
    thread after sleeping [ms] milliseconds. *)
Inductive completion : Type :=
| sdp_result (sdp : string) (success : bool)
| set_result (success : bool)
| local_stream_added.

Inductive dispatch : Type :=
| Immediate (c : completion)
| Detached (ms : Z) (c : completion).

(** [AddLocalStreams] also schedules [OnLocalStreamAdded] when an observer
    is registered. *)
Definition AddLocalStreams (w : Impl) : bool * list dispatch * Impl :=
  (peer_connection_created_ w,
   if peer_connection_created_ w && observer_ w
   then [Detached 100 local_stream_added] else [],
   exec (AddLocalStreams_stores w) w).

Definition RemoveLocalStreams (w : Impl) : Impl :=
  exec (RemoveLocalStreams_stores w) w.

Definition offer_sdp : string :=
  "v=0" ++ String "013" (String "010"
    ("o=- 123456789 2 IN IP4 127.0.0.1" ++ String "013" (String "010"
    ("s=-" ++ String "013" (String "010"
    ("t=0 0" ++ String "013" (String "010" EmptyString))))))).

Definition answer_sdp : string :=
  "v=0" ++ String "013" (String "010"
    ("o=- 987654321 2 IN IP4 127.0.0.1" ++ String "013" (String "010"
    ("s=-" ++ String "013" (String "010"
    ("t=0 0" ++ String "013" (String "010" EmptyString))))))).

Definition CreateOffer (w : Impl) : dispatch * Impl :=
  (if peer_connection_created_ w
   then Detached 50 (sdp_result offer_sdp true)
   else Immediate (sdp_result "" false),
   w).

Definition CreateAnswer (w : Impl) : dispatch * Impl :=
  (if peer_connection_created_ w
   then Detached 50 (sdp_result answer_sdp true)
   else Immediate (sdp_result "" false),
   w).

Definition SetLocalDescription (type sdp : string) (w : Impl)
  : dispatch * Impl :=
  (Detached 10 (set_result true), w).

Definition SetRemoteDescription (type sdp : string) (w : Impl)
  : dispatch * Impl :=
  (Detached 10 (set_result true), w).

Definition IsConnected (w : Impl) : bool :=
  peer_connection_created_ w && local_streams_added_ w.

(** The lifecycle methods as commands, for sequences of calls. *)
Inductive command : Type :=
| DoInitialize | DoCreatePeerConnection | DoAddLocalStreams
| DoRemoveLocalStreams | DoClosePeerConnection | DoCleanup.

Definition step (c : command) (w : Impl) : Impl :=
  match c with
  | DoInitialize => snd (Initialize w)
  | DoCreatePeerConnection => snd (CreatePeerConnection w)
  | DoAddLocalStreams => snd (AddLocalStreams w)
  | DoRemoveLocalStreams => RemoveLocalStreams w
  | DoClosePeerConnection => ClosePeerConnection w
  | DoCleanup => Cleanup w
  end.

Definition run (cs : list command) (w : Impl) : Impl :=
  fold_left (fun w c => step c w) cs w.

(** local-streams-added implies peer-connection-created, which implies
    initialized. *)
Definition ordered (w : Impl) : bool :=
  implb (local_streams_added_ w) (peer_connection_created_ w)
  && implb (peer_connection_created_ w) (is_initialized_ w).

End WebRTCWrapper.

(** ** rtc_engine_impl.cpp: the session orchestrator *)

Module RtcEngineImpl.

(** [enum class ConnectionState], with the integer each value has. *)
Inductive ConnectionState : Type :=
| DISCONNECTED | CONNECTING | CONNECTED | RECONNECTING | FAILED.

Definition static_cast_int (s : ConnectionState) : Z :=
  match s with
  | DISCONNECTED => 1 | CONNECTING => 2 | CONNECTED => 3
  | RECONNECTING => 4 | FAILED => 5
  end.

Definition ConnectionState_eqb (a b : ConnectionState) : bool :=
  Z.eqb (static_cast_int a) (static_cast_int b).

(** One call on the [Callback] interface. *)
Inductive Event : Type :=
| OnUserJoined (user_id : string)
| OnUserOffline (user_id : string) (reason : Z)
| OnConnectionStateChanged (state reason : Z)
| OnError (error_code : Z) (message : string)
| OnJoinChannelSuccess (channel user_id : string) (elapsed : Z)
| OnLeaveChannel
| OnFirstRemoteVideoDecoded (user_id : string) (width height elapsed : Z)
| OnFirstLocalVideoFrame (width height elapsed : Z)
| OnRtcStats (stats_json : string).

(** A registered sink ([std::shared_ptr<Callback>]), by identity. *)
Definition Callback : Type := nat.

(** What the orchestrator uses of its negotiator: the two calls whose
    result [JoinChannel] tests and the one [LeaveChannel] makes. *)
Class Negotiator (W : Type) : Type := {
  CreatePeerConnection : W -> bool * W;
  AddLocalStreams : W -> bool * W;
  ClosePeerConnection : W -> W
}.

(** The negotiator of this repository. *)
#[export] Instance WebRTC : Negotiator WebRTCWrapper.Impl := {|
  CreatePeerConnection := WebRTCWrapper.CreatePeerConnection;
  AddLocalStreams := fun w =>
    (fst (fst (WebRTCWrapper.AddLocalStreams w)),
     snd (WebRTCWrapper.AddLocalStreams w));
  ClosePeerConnection := WebRTCWrapper.ClosePeerConnection
|}.

(** A negotiator that creates its peer connection and then cannot attach
    the local streams, to exercise the second failure branch of
    [JoinChannel]. *)
Definition streams_fail : Negotiator unit := {|
  CreatePeerConnection := fun w => (true, w);
  AddLocalStreams := fun w => (false, w);
  ClosePeerConnection := fun w => w
|}.

(** [state_mutex_] is a [std::mutex].  Locking it on the thread that
    already owns it is undefined in C++; what happens is the platform's
    business.  With the pthread mutex behind it on Android the thread waits
    for itself and the call never returns ([relock_blocks]);
    [relock_proceeds] stands for a platform that lets the owner through. *)
Inductive relock : Type := relock_blocks | relock_proceeds.

(** The statements of the [try] block of [JoinChannel] that can throw a
    [std::exception]: the three string copies ([std::bad_alloc]), the
    construction of the worker thread ([std::system_error]), and the
    closure handed to [InvokeCallback] for the success notification, which
    copies the channel name and the user id by value and is wrapped in a
    [std::function] ([std::bad_alloc]). *)
Inductive throw_point : Type :=
| store_channel | store_user_id | store_token | start_thread
| capture_success.

Definition throw_point_eqb (a b : throw_point) : bool :=
  match a, b with
  | store_channel, store_channel | store_user_id, store_user_id
  | store_token, store_token | start_thread, start_thread
  | capture_success, capture_success => true
  | _, _ => false
  end.

Definition throws_at (fault : option throw_point) (p : throw_point) : bool :=
  match fault with Some q => throw_point_eqb q p | None => false end.

(** One of the three string copies throws. *)
Definition copy_throws (fault : option throw_point) : bool :=
  throws_at fault store_channel || throws_at fault store_user_id
  || throws_at fault store_token.

Definition empty (s : string) : bool :=
  match s with EmptyString => true | String _ _ => false end.

Section Engine.
Context {W : Type} `{Negotiator W}.

(** The members of [RtcEngineImpl] the methods below read or write.
    [state_mutex_] is [true] while the calling thread owns the mutex,
    [worker_thread_] while the thread is joinable, and [received] lists
    the calls made on registered sinks, oldest first. *)
Record engine : Type := mkEngine {
  webrtc_wrapper_ : option W;
  connection_state_ : ConnectionState;
  current_channel_ : string;
  current_user_id_ : string;
  current_token_ : string;
  worker_thread_ : bool;
  should_stop_ : bool;
  state_mutex_ : bool;
  callback_ : option Callback;
  received : list (Callback * Event)
}.

Definition set_webrtc_wrapper_ (w : option W) (e : engine) : engine :=
  mkEngine w (connection_state_ e) (current_channel_ e)
    (current_user_id_ e) (current_token_ e) (worker_thread_ e)
    (should_stop_ e) (state_mutex_ e) (callback_ e) (received e).
Definition set_connection_state_ (s : ConnectionState) (e : engine)
  : engine :=
  mkEngine (webrtc_wrapper_ e) s (current_channel_ e)
    (current_user_id_ e) (current_token_ e) (worker_thread_ e)
    (should_stop_ e) (state_mutex_ e) (callback_ e) (received e).
Definition set_current_channel_ (s : string) (e : engine) : engine :=
  mkEngine (webrtc_wrapper_ e) (connection_state_ e) s
    (current_user_id_ e) (current_token_ e) (worker_thread_ e)
    (should_stop_ e) (state_mutex_ e) (callback_ e) (received e).
Definition set_current_user_id_ (s : string) (e : engine) : engine :=
  mkEngine (webrtc_wrapper_ e) (connection_state_ e) (current_channel_ e)
    s (current_token_ e) (worker_thread_ e)
    (should_stop_ e) (state_mutex_ e) (callback_ e) (received e).
Definition set_current_token_ (s : string) (e : engine) : engine :=
  mkEngine (webrtc_wrapper_ e) (connection_state_ e) (current_channel_ e)
    (current_user_id_ e) s (worker_thread_ e)
    (should_stop_ e) (state_mutex_ e) (callback_ e) (received e).
Definition set_worker_thread_ (b : bool) (e : engine) : engine :=
  mkEngine (webrtc_wrapper_ e) (connection_state_ e) (current_channel_ e)
    (current_user_id_ e) (current_token_ e) b
    (should_stop_ e) (state_mutex_ e) (callback_ e) (received e).
Definition set_should_stop_ (b : bool) (e : engine) : engine :=
  mkEngine (webrtc_wrapper_ e) (connection_state_ e) (current_channel_ e)
    (current_user_id_ e) (current_token_ e) (worker_thread_ e)
    b (state_mutex_ e) (callback_ e) (received e).
Definition set_state_mutex_ (b : bool) (e : engine) : engine :=
  mkEngine (webrtc_wrapper_ e) (connection_state_ e) (current_channel_ e)
    (current_user_id_ e) (current_token_ e) (worker_thread_ e)
    (should_stop_ e) b (callback_ e) (received e).
Definition set_callback_ (c : option Callback) (e : engine) : engine :=
  mkEngine (webrtc_wrapper_ e) (connection_state_ e) (current_channel_ e)
    (current_user_id_ e) (current_token_ e) (worker_thread_ e)
    (should_stop_ e) (state_mutex_ e) c (received e).
Definition deliver (c : Callback) (ev : Event) (e : engine) : engine :=
  mkEngine (webrtc_wrapper_ e) (connection_state_ e) (current_channel_ e)
    (current_user_id_ e) (current_token_ e) (worker_thread_ e)
    (should_stop_ e) (state_mutex_ e) (callback_ e)
    (received e ++ [(c, ev)]).

(** How a call ends: it returns a value, it never returns because the
    thread waits on the mutex, or the process is ended by
    [std::terminate]. *)
Inductive outcome (A : Type) : Type :=
| Returns (a : A) (e : engine)
| Blocks (e : engine)
| Terminates (e : engine).
Arguments Returns {A}.
Arguments Blocks {A}.
Arguments Terminates {A}.

Definition method (A : Type) : Type := engine -> outcome A.

Definition ret {A} (a : A) : method A := fun e => Returns a e.

Definition bind {A B} (m : method A) (k : A -> method B) : method B :=
  fun e =>
    match m e with
    | Returns a e' => k a e'
    | Blocks e' => Blocks e'
    | Terminates e' => Terminates e'
    end.

Definition get {A} (field : engine -> A) : method A :=
  fun e => Returns (field e) e.

Definition put (update : engine -> engine) : method unit :=
  fun e => Returns tt (update e).

Notation "x <- m ;; k" := (bind m (fun x => k))
  (at level 100, m at next level, right associativity).
Notation "m ;; k" := (bind m (fun _ => k))
  (at level 100, right associativity).

(** [std::lock_guard<std::mutex> lock(state_mutex_)] around [body]: the
    mutex is taken on entry and released when the scope is left. *)
Definition lock_guard {A} (platform : relock) (body : method A)
  : method A :=
  fun e =>
    if state_mutex_ e
    then match platform with
         | relock_blocks => Blocks e
         | relock_proceeds => (a <- body ;; put (set_state_mutex_ false) ;; ret a) e
         end
    else (put (set_state_mutex_ true) ;; a <- body ;;
          put (set_state_mutex_ false) ;; ret a) e.

(** [SetCallback]. *)
Definition SetCallback (platform : relock) (c : option Callback)
  : method unit :=
  lock_guard platform (put (set_callback_ c)).

(** [InvokeCallback]: the call is made when a sink is registered.  A
    [std::exception] the sink throws is caught here, so the caller goes
    on either way. *)
Definition InvokeCallback (ev : Event) : method unit :=
  c <- get callback_ ;;
  match c with
  | Some cb => put (deliver cb ev)
  | None => ret tt
  end.

(** [SetConnectionState]: [exchange], then the notification when the
    value changed. *)
Definition SetConnectionState (new_state : ConnectionState) (reason : Z)
  : method unit :=
  old_state <- get connection_state_ ;;
  put (set_connection_state_ new_state) ;;
  if negb (ConnectionState_eqb old_state new_state)
  then InvokeCallback
         (OnConnectionStateChanged (static_cast_int new_state) reason)
  else ret tt.

Definition GetConnectionState : method ConnectionState :=
  get connection_state_.

Definition GetCurrentChannel (platform : relock) : method string :=
  lock_guard platform (get current_channel_).

Definition GetCurrentUserId (platform : relock) : method string :=
  lock_guard platform (get current_user_id_).

Definition IsInChannel (platform : relock) : method bool :=
  lock_guard platform
    (channel <- get current_channel_ ;; ret (negb (empty channel))).

(** The [catch] clause of [JoinChannel]. *)
Definition JoinChannel_catch : method Z :=
  SetConnectionState FAILED 5 ;;
  put (set_current_channel_ "") ;;
  put (set_current_user_id_ "") ;;
  put (set_current_token_ "") ;;
  ret (-6)%Z.

(** [worker_thread_ = std::thread(...)]: the construction can throw;
    assigning to a thread that is still joinable ends the process. *)
Definition start_worker : method unit :=
  joinable <- get worker_thread_ ;;
  if joinable then (fun e => Terminates e)
  else put (set_worker_thread_ true).

(** The [try] block of [JoinChannel] (with its [catch]), entered with
    the negotiator [w].  [fault] is the statement that throws, if one
    does.  The 100 ms sleep before the transition to [CONNECTED] leaves no
    trace in the state; what the worker thread does once started
    ([OnRtcStats] every fifty polls) is not part of this sequential
    model. *)
Definition JoinChannel_try (fault : option throw_point) (w : W)
    (token channel_name user_id : string) : method Z :=
  SetConnectionState CONNECTING 1 ;;
  if throws_at fault store_channel then JoinChannel_catch else
  put (set_current_channel_ channel_name) ;;
  if throws_at fault store_user_id then JoinChannel_catch else
  put (set_current_user_id_ user_id) ;;
  if throws_at fault store_token then JoinChannel_catch else
  put (set_current_token_ token) ;;
  let created := CreatePeerConnection w in
  put (set_webrtc_wrapper_ (Some (snd created))) ;;
  if negb (fst created)
  then SetConnectionState FAILED 5 ;; ret (-4)%Z
  else
    let added := AddLocalStreams (snd created) in
    put (set_webrtc_wrapper_ (Some (snd added))) ;;
    if negb (fst added)
    then SetConnectionState FAILED 5 ;; ret (-5)%Z
    else
      put (set_should_stop_ false) ;;
      if throws_at fault start_thread then JoinChannel_catch else
      start_worker ;;
      SetConnectionState CONNECTED 2 ;;
      if throws_at fault capture_success then JoinChannel_catch else
      InvokeCallback (OnJoinChannelSuccess channel_name user_id 100) ;;
      ret 0%Z.

(** [JoinChannel]. *)
Definition JoinChannel (platform : relock) (fault : option throw_point)
    (token channel_name user_id : string) : method Z :=
  lock_guard platform
    (joined <- IsInChannel platform ;;
     if joined then ret (-1)%Z
     else
       wrapper <- get webrtc_wrapper_ ;;
       match wrapper with
       | None => ret (-2)%Z
       | Some w =>
           if empty token || empty channel_name || empty user_id
           then ret (-3)%Z
           else JoinChannel_try fault w token channel_name user_id
       end).

(** [LeaveChannel].  None of the statements of its [try] block throws in
    this model, so its [catch] (which returns -1) is not entered. *)
Definition LeaveChannel (platform : relock) : method Z :=
  lock_guard platform
    (joined <- IsInChannel platform ;;
     if negb joined then ret 0%Z
     else
       put (set_should_stop_ true) ;;
       put (set_worker_thread_ false) ;;
       wrapper <- get webrtc_wrapper_ ;;
       match wrapper with
       | Some w => put (set_webrtc_wrapper_ (Some (ClosePeerConnection w)))
       | None => ret tt
       end ;;
       put (set_current_channel_ "") ;;
       put (set_current_user_id_ "") ;;
       put (set_current_token_ "") ;;
       SetConnectionState DISCONNECTED 6 ;;
       InvokeCallback OnLeaveChannel ;;
       ret 0%Z).

(** The three membership fields. *)
Definition membership (e : engine) : string * string * string :=
  (current_channel_ e, current_user_id_ e, current_token_ e).
End Engine.
Arguments engine : clear implicits.
Arguments outcome : clear implicits.
Arguments Returns {W A}.
Arguments Blocks {W A}.
Arguments Terminates {W A}.

(** The orchestrator the constructor builds around an initialised
    negotiator [w], with the sink [nativeCreateEngine] registers next. *)
Definition constructed {W} (w : W) (sink : option Callback) : engine W :=
  {| webrtc_wrapper_ := Some w; connection_state_ := DISCONNECTED;
     current_channel_ := ""; current_user_id_ := ""; current_token_ := "";
     worker_thread_ := false; should_stop_ := false;
     state_mutex_ := false; callback_ := sink; received := [] |}.

(** The orchestrator [nativeCreateEngine] puts in the table: the
    constructor has run [Initialize] on a new negotiator, and a
    [JniCallback] is registered. *)
Definition created_engine : engine WebRTCWrapper.Impl :=
  constructed (snd (WebRTCWrapper.Initialize WebRTCWrapper.fresh))
    (Some 1%nat).

(** The same orchestrator in channel ["c"] as user ["u"]. *)
Definition joined_engine : engine WebRTCWrapper.Impl :=
  {| webrtc_wrapper_ :=
       Some (WebRTCWrapper.mkImpl true true true false false true false);
     connection_state_ := CONNECTED;
     current_channel_ := "c"; current_user_id_ := "u";
     current_token_ := "t";
     worker_thread_ := true; should_stop_ := false;
     state_mutex_ := false; callback_ := Some 1%nat;
     received :=
       [(1%nat, OnConnectionStateChanged 2 1);
        (1%nat, OnConnectionStateChanged 3 2);
        (1%nat, OnJoinChannelSuccess "c" "u" 100)] |}.

End RtcEngineImpl.

(** ** std::string, as far as the parser uses it *)

Module StdString.
Local Open Scope char_scope.

(** [size_t] is 64 bits wide: a difference wraps around. *)
Definition size_t_sub (a b : nat) : N :=
  Z.to_N ((Z.of_nat a - Z.of_nat b) mod 2 ^ 64).

(** [s[i]]. *)
Definition at_ (s : string) (i : nat) : option ascii := String.get i s.

(** The characters of [s] from position [pos] on. *)
Fixpoint from (pos : nat) (s : string) : string :=
  match pos, s with
  | O, _ => s
  | S pos', String _ s' => from pos' s'
  | S _, EmptyString => EmptyString
  end.

(** [s.substr(pos, count)] for [pos <= s.length()], the only way the
    parser calls it: [count] is cut down to what is left of [s]. *)
Definition substr (pos : nat) (count : N) (s : string) : string :=
  String.substring pos
    (N.to_nat (N.min count (N.of_nat (String.length s - pos)))) s.

Fixpoint find_in (c : ascii) (s : string) (pos : nat) : option nat :=
  match s with
  | EmptyString => None
  | String d s' => if Ascii.eqb d c then Some pos else find_in c s' (S pos)
  end.

(** [s.find(c, pos)]; [None] is [npos]. *)
Definition find (c : ascii) (pos : nat) (s : string) : option nat :=
  find_in c (from pos s) pos.

(** The set [" \t\n\r"] that [Trim] strips. *)
Definition trimmed_char (c : ascii) : bool :=
  Ascii.eqb c " " || Ascii.eqb c "009" || Ascii.eqb c "010"
  || Ascii.eqb c "013".

(** [std::isspace] in the "C" locale. *)
Definition isspace (c : ascii) : bool :=
  Ascii.eqb c " " || Ascii.eqb c "009" || Ascii.eqb c "010"
  || Ascii.eqb c "011" || Ascii.eqb c "012" || Ascii.eqb c "013".

(** [s.find_first_not_of(" \t\n\r")]. *)
Fixpoint find_first_not_of_in (s : string) (pos : nat) : option nat :=
  match s with
  | EmptyString => None
  | String c s' =>
      if trimmed_char c then find_first_not_of_in s' (S pos) else Some pos
  end.
Definition find_first_not_of (s : string) : option nat :=
  find_first_not_of_in s 0.

(** [s.find_last_not_of(" \t\n\r")]. *)
Fixpoint find_last_not_of_in (s : string) (pos : nat) : option nat :=
  match s with
  | EmptyString => None
  | String c s' =>
      match find_last_not_of_in s' (S pos) with
      | Some i => Some i
      | None => if trimmed_char c then None else Some pos
      end
  end.
Definition find_last_not_of (s : string) : option nat :=
  find_last_not_of_in s 0.

(** [s.back()]. *)
Fixpoint back (s : string) : option ascii :=
  match s with
  | EmptyString => None
  | String c EmptyString => Some c
  | String _ s' => back s'
  end.

Definition empty_string (s : string) : bool :=
  match s with EmptyString => true | String _ _ => false end.

Definition starts_with (c : ascii) (s : string) : bool :=
  match s with
  | String d _ => Ascii.eqb d c
  | EmptyString => false
  end.

(** [std::stoi]: leading white space, an optional sign, decimal digits;
    [None] when it throws ([std::invalid_argument] without a digit,
    [std::out_of_range] outside [int]).  What follows the digits is
    ignored. *)
Definition digit (c : ascii) : option Z :=
  let n := nat_of_ascii c in
  if (48 <=? n)%nat && (n <=? 57)%nat then Some (Z.of_nat (n - 48)) else None.

Fixpoint digits (s : string) (acc : Z) : Z :=
  match s with
  | EmptyString => acc
  | String c s' =>
      match digit c with
      | Some d => digits s' (10 * acc + d)
      | None => acc
      end
  end.

Fixpoint skip_isspace (s : string) : string :=
  match s with
  | String c s' => if isspace c then skip_isspace s' else s
  | EmptyString => s
  end.

Definition has_digit (s : string) : bool :=
  match s with
  | String c _ => match digit c with Some _ => true | None => false end
  | EmptyString => false
  end.

Definition in_int (z : Z) : option Z :=
  if (- 2 ^ 31 <=? z)%Z && (z <=? 2 ^ 31 - 1)%Z then Some z else None.

Definition stoi (s : string) : option Z :=
  match skip_isspace s with
  | String "-" s' =>
      if has_digit s' then in_int (- digits s' 0) else None
  | String "+" s' =>
      if has_digit s' then in_int (digits s' 0) else None
  | s' => if has_digit s' then in_int (digits s' 0) else None
  end.
End StdString.

(** ** utils/json_helper.cpp *)

Module Json.
Import StdString.

(** [double] and the three library conversions the parser and the
    accessors use; [stod] is [None] when [std::stod] throws. *)
Class Floating : Type := {
  double : Type;
  double_of_int : Z -> double;
  int_of_double : double -> Z;
  stod : string -> option double
}.

(** A model of [double] that holds whole numbers only and in which
    [std::stod] rejects every text: enough to run the parser on texts
    without a decimal point. *)
Definition whole_numbers : Floating := {|
  double := Z;
  double_of_int := fun z => z;
  int_of_double := fun z => z;
  stod := fun _ => None
|}.

Inductive Type_ : Type :=
| NULL_VALUE | BOOLEAN | NUMBER | STRING | ARRAY | OBJECT.

Definition Type_eqb (a b : Type_) : bool :=
  match a, b with
  | NULL_VALUE, NULL_VALUE | BOOLEAN, BOOLEAN | NUMBER, NUMBER
  | STRING, STRING | ARRAY, ARRAY | OBJECT, OBJECT => true
  | _, _ => false
  end.

Section Parser.
Context `{Floating}.

(** [struct JsonValue].  [object_value] holds one entry per key. *)
#[local] Unset Elimination Schemes.
Inductive JsonValue : Type := mkJsonValue {
  type : Type_;
  bool_value : bool;
  number_value : double;
  string_value : string;
  array_value : list JsonValue;
  object_value : list (string * JsonValue)
}.
#[local] Set Elimination Schemes.

(** A default-constructed [JsonValue]. *)
Definition null : JsonValue :=
  mkJsonValue NULL_VALUE false (double_of_int 0) "" [] [].

(** [m.find(key)]. *)
Fixpoint lookup (key : string) (m : list (string * JsonValue))
  : option JsonValue :=
  match m with
  | [] => None
  | (k, v) :: m' => if String.eqb k key then Some v else lookup key m'
  end.

(** [m[key] = value]. *)
Fixpoint assign (key : string) (value : JsonValue)
    (m : list (string * JsonValue)) : list (string * JsonValue) :=
  match m with
  | [] => [(key, value)]
  | (k, v) :: m' =>
      if String.eqb k key then (k, value) :: m'
      else (k, v) :: assign key value m'
  end.

(** [JsonParser::Trim]. *)
Definition Trim (str : string) : string :=
  match find_first_not_of str with
  | None => ""
  | Some start =>
      match find_last_not_of str with
      | None => ""
      | Some end_ => substr start (size_t_sub end_ start + 1) str
      end
  end.

(** [JsonParser::ParseString]. *)
Definition ParseString (json : string) : string :=
  if (String.length json <? 2)%nat
     || negb (starts_with "034" json)
     || negb (match back json with
              | Some c => Ascii.eqb c "034"
              | None => false
              end)
  then ""
  else substr 1 (size_t_sub (String.length json) 2) json.

(** The counting loops of [FindValueEnd]: [s] is what is left of the
    text at position [pos]. *)
Fixpoint matching (open close : ascii) (count : Z) (s : string)
    (pos : nat) : nat :=
  match s with
  | EmptyString => pos
  | String c s' =>
      if (count >? 0)%Z
      then matching open close
             (if Ascii.eqb c open then count + 1
              else if Ascii.eqb c close then count - 1
              else count)%Z
             s' (S pos)
      else pos
  end.

Fixpoint primitive_end (s : string) (pos : nat) : nat :=
  match s with
  | EmptyString => pos
  | String c s' =>
      if Ascii.eqb c "," || Ascii.eqb c "}" || Ascii.eqb c "]"
      then pos
      else primitive_end s' (S pos)
  end.

(** [JsonParser::FindValueEnd]. *)
Definition FindValueEnd (str : string) (start : nat) : nat :=
  match at_ str start with
  | None => start
  | Some first_char =>
      if Ascii.eqb first_char "034" then
        match find "034" (S start) str with
        | Some end_ => S end_
        | None => String.length str
        end
      else if Ascii.eqb first_char "{" then
        matching "{" "}" 1 (from (S start) str) (S start)
      else if Ascii.eqb first_char "[" then
        matching "[" "]" 1 (from (S start) str) (S start)
      else primitive_end (from start str) start
  end.

(** [while (pos < content.length() && std::isspace(content[pos])) pos++]. *)
Fixpoint skip_spaces_in (s : string) (pos : nat) : nat :=
  match s with
  | String c s' => if isspace c then skip_spaces_in s' (S pos) else pos
  | EmptyString => pos
  end.
Definition skip_spaces (content : string) (pos : nat) : nat :=
  skip_spaces_in (from pos content) pos.

(** The text between the first and the last character of [json]. *)
Definition inside (json : string) : string :=
  Trim (substr 1 (size_t_sub (String.length json) 2) json).

(** The number branch of [Parse]: [stod] with a dot, [stoi] without;
    a throw leaves a null value. *)
Definition ParseNumber (trimmed : string) : JsonValue :=
  match find "." 0 trimmed with
  | Some _ =>
      match stod trimmed with
      | Some d => mkJsonValue NUMBER false d "" [] []
      | None => null
      end
  | None =>
      match stoi trimmed with
      | Some i => mkJsonValue NUMBER false (double_of_int i) "" [] []
      | None => null
      end
  end.

Section Loops.
(** [Parse] on a nested value; [None] when the nested call did not
    return. *)
Variable Parse : string -> option JsonValue.

(** The [while] loop of [ParseObject], entered at [pos] with the
    entries read so far; [budget] bounds the iterations, and the loop is
    entered with a budget it never spends, since [pos] grows with every
    iteration. *)
Fixpoint ParseObject_loop (budget : nat) (content : string) (pos : nat)
    (entries : list (string * JsonValue))
  : option (list (string * JsonValue)) :=
  match budget with
  | O => None
  | S budget' =>
      if negb (pos <? String.length content)%nat then Some entries else
      match find "034" pos content with
      | None => Some entries
      | Some key_start =>
      match find "034" (S key_start) content with
      | None => Some entries
      | Some key_end =>
      let key :=
        substr (S key_start) (size_t_sub key_end key_start - 1) content in
      match find ":" key_end content with
      | None => Some entries
      | Some colon =>
      let pos := skip_spaces content (S colon) in
      let value_end := FindValueEnd content pos in
      let value_str :=
        Trim (substr pos (size_t_sub value_end pos) content) in
      match Parse value_str with
      | None => None
      | Some value =>
      let entries := assign key value entries in
      match find "," value_end content with
      | Some comma => ParseObject_loop budget' content (S comma) entries
      | None => Some entries
      end end end end end
  end.

(** [JsonParser::ParseObject]. *)
Definition ParseObject (json : string) : option JsonValue :=
  let content := inside json in
  if empty_string content
  then Some (mkJsonValue OBJECT false (double_of_int 0) "" [] [])
  else
    match ParseObject_loop (S (String.length content)) content 0 [] with
    | Some entries =>
        Some (mkJsonValue OBJECT false (double_of_int 0) "" [] entries)
    | None => None
    end.

(** The [while] loop of [ParseArray]. *)
Fixpoint ParseArray_loop (budget : nat) (content : string) (pos : nat)
    (items : list JsonValue) : option (list JsonValue) :=
  match budget with
  | O => None
  | S budget' =>
      if negb (pos <? String.length content)%nat then Some items else
      let pos := skip_spaces content pos in
      let value_end := FindValueEnd content pos in
      let value_str :=
        Trim (substr pos (size_t_sub value_end pos) content) in
      match Parse value_str with
      | None => None
      | Some value =>
      let items := items ++ [value] in
      match find "," value_end content with
      | Some comma => ParseArray_loop budget' content (S comma) items
      | None => Some items
      end end
  end.

(** [JsonParser::ParseArray]. *)
Definition ParseArray (json : string) : option JsonValue :=
  let content := inside json in
  if empty_string content
  then Some (mkJsonValue ARRAY false (double_of_int 0) "" [] [])
  else
    match ParseArray_loop (S (String.length content)) content 0 [] with
    | Some items =>
        Some (mkJsonValue ARRAY false (double_of_int 0) "" items [])
    | None => None
    end.
End Loops.

(** [JsonParser::Parse] with room for [depth] nested calls of itself.  The
    source recurses through [ParseObject] and [ParseArray] once for every
    level of nesting and checks no depth, so a call that finds no room left
    has run over the end of the stack: it does not return ([None]). *)
Fixpoint Parse_depth (depth : nat) (json : string) : option JsonValue :=
  match depth with
  | O => None
  | S depth' =>
      let trimmed := Trim json in
      if empty_string trimmed then Some null
      else if starts_with "{" trimmed
      then ParseObject (Parse_depth depth') trimmed
      else if starts_with "[" trimmed
      then ParseArray (Parse_depth depth') trimmed
      else if starts_with "034" trimmed
      then Some (mkJsonValue STRING false (double_of_int 0)
                   (ParseString trimmed) [] [])
      else if String.eqb trimmed "true" || String.eqb trimmed "false"
      then Some (mkJsonValue BOOLEAN (String.eqb trimmed "true")
                   (double_of_int 0) "" [] [])
      else if String.eqb trimmed "null" then Some null
      else Some (ParseNumber trimmed)
  end.

(** [JsonParser::Parse] on a thread whose stack holds [stack] nested
    calls.  [None]: the nesting of the text went deeper and the process was
    killed. *)
Definition Parse (stack : nat) (json : string) : option JsonValue :=
  Parse_depth stack json.

(** The opening brackets of a text.  [Parse] recurses only on a text that
    starts with one and only into what follows it, so their number bounds
    the nested calls a text can cause. *)
Definition is_opening (c : ascii) : bool :=
  Ascii.eqb c "{" || Ascii.eqb c "[".

Fixpoint opening_brackets (s : string) : nat :=
  match s with
  | EmptyString => O
  | String c s' => ((if is_opening c then 1 else 0) + opening_brackets s')%nat
  end.

(** The accessors of [JsonValue]. *)
Definition GetString (key default_value : string) (v : JsonValue)
  : string :=
  if negb (Type_eqb (type v) OBJECT) then default_value
  else match lookup key (object_value v) with
       | Some x =>
           if Type_eqb (type x) STRING then string_value x
           else default_value
       | None => default_value
       end.

Definition GetInt (key : string) (default_value : Z) (v : JsonValue) : Z :=
  if negb (Type_eqb (type v) OBJECT) then default_value
  else match lookup key (object_value v) with
       | Some x =>
           if Type_eqb (type x) NUMBER then int_of_double (number_value x)
           else default_value
       | None => default_value
       end.

Definition GetBool (key : string) (default_value : bool) (v : JsonValue)
  : bool :=
  if negb (Type_eqb (type v) OBJECT) then default_value
  else match lookup key (object_value v) with
       | Some x =>
           if Type_eqb (type x) BOOLEAN then bool_value x
           else default_value
       | None => default_value
       end.

Definition GetStringArray (key : string) (v : JsonValue) : list string :=
  if negb (Type_eqb (type v) OBJECT) then []
  else match lookup key (object_value v) with
       | Some x =>
           if Type_eqb (type x) ARRAY
           then map string_value
                  (filter (fun item => Type_eqb (type item) STRING)
                     (array_value x))
           else []
       | None => []
       end.
End Parser.
End Json.

(** ** RtcEngineImpl::Config *)

Module Config.
Import Json.

(** [struct Config]. *)
Record Config : Type := mkConfig {
  app_id : string;
  environment : string;
  signaling_url : string;
  stun_servers : list string;
  turn_servers : list string;
  audio_codec : string;
  video_codec : string;
  enable_hardware_acceleration : bool;
  enable_audio_processing : bool;
  connection_timeout_ms : Z;
  enable_stats : bool;
  log_level : Z
}.

Definition production_url : string := "wss://signaling.tasawwur-rtc.com/ws".
Definition development_url : string :=
  "wss://dev-signaling.tasawwur-rtc.com/ws".

Definition default_stun_servers : list string :=
  [ "stun:stun.l.google.com:19302";
    "stun:stun1.l.google.com:19302";
    "stun:stun2.l.google.com:19302" ]%string.

(** The body of the [try] block of [FromJson], given the parsed root. *)
Definition from_root `{Floating} (root : JsonValue) : Config :=
  let environment := GetString "environment" "PRODUCTION" root in
  let signaling_url := GetString "signalingServerUrl" "" root in
  let stun_servers := GetStringArray "stunServers" root in
  {| app_id := GetString "appId" "" root;
     environment := environment;
     signaling_url :=
       if StdString.empty_string signaling_url
       then if String.eqb environment "DEVELOPMENT"
            then development_url else production_url
       else signaling_url;
     stun_servers :=
       match stun_servers with
       | [] => default_stun_servers
       | _ :: _ => stun_servers
       end;
     turn_servers := [];
     audio_codec := GetString "audioCodec" "opus" root;
     video_codec := GetString "videoCodec" "H264" root;
     enable_hardware_acceleration :=
       GetBool "enableHardwareAcceleration" true root;
     enable_audio_processing := GetBool "enableAudioProcessing" true root;
     connection_timeout_ms := GetInt "connectionTimeoutMs" 10000 root;
     enable_stats := GetBool "enableStats" false root;
     log_level := GetInt "logLevel" 2 root |}.

(** [Config::FromJson] on a thread whose stack holds [stack] nested calls
    of the parser.  [JsonParser::Parse] throws nothing (its own
    [catch (...)] takes what [stoi] and [stod] throw), so the [catch] of
    [FromJson] is not entered.  [None]: the parser ran over the end of the
    stack and the process was killed; no [catch] sees that. *)
Definition FromJson `{Floating} (stack : nat) (json : string)
  : option Config :=
  match Parse stack json with
  | Some root => Some (from_root root)
  | None => None
  end.

(** The configuration with every field at its default. *)
Definition all_defaults : Config :=
  {| app_id := "";
     environment := "PRODUCTION";
     signaling_url := production_url;
     stun_servers := default_stun_servers;
     turn_servers := [];
     audio_codec := "opus";
     video_codec := "H264";
     enable_hardware_acceleration := true;
     enable_audio_processing := true;
     connection_timeout_ms := 10000;
     enable_stats := false;
     log_level := 2 |}.

(** A configuration text cut off after its first entry:
    [{"audioCodec": "pcm",] (character 34 is the double quote). *)
Definition quote : string := String "034" EmptyString.


End Config.

(** ** rtc_engine_impl.cpp: sessions, construction and destruction *)

Module EngineSession.
Import RtcEngineImpl.

Section Session.
Context {W : Type} `{Negotiator W}.

(** The calls a host makes on one orchestrator. *)
Inductive command : Type :=
| Join (fault : option throw_point) (token channel_name user_id : string)
| Leave
| SetSink (sink : option Callback).

(** One call; [SetCallback] returns nothing, recorded as 0. *)
Definition step (platform : relock) (c : command) : method (W := W) Z :=
  match c with
  | Join fault token channel_name user_id =>
      JoinChannel platform fault token channel_name user_id
  | Leave => LeaveChannel platform
  | SetSink sink => bind (SetCallback platform sink) (fun _ => ret 0%Z)
  end.

(** The calls of [cs] one after the other, with the codes they return; a
    call that does not return ends the run. *)
Fixpoint run (platform : relock) (cs : list command)
  : method (W := W) (list Z) :=
  match cs with
  | [] => ret []
  | c :: cs' =>
      bind (step platform c) (fun code =>
      bind (run platform cs') (fun codes => ret (code :: codes)))
  end.

(** A join told to throw at the closure of its success notification, the
    one throwing statement that comes after the start of the worker. *)
Definition throws_after_start (c : command) : bool :=
  match c with
  | Join (Some capture_success) _ _ _ => true
  | _ => false
  end.

(** What holds of an orchestrator between calls. *)
Definition at_rest (e : engine W) : bool :=
  negb (state_mutex_ e)
  && match webrtc_wrapper_ e with Some _ => true | None => false end
  && (if empty (current_channel_ e)
      then empty (current_user_id_ e) && empty (current_token_ e)
           && negb (worker_thread_ e)
           && (ConnectionState_eqb (connection_state_ e) DISCONNECTED
               || ConnectionState_eqb (connection_state_ e) FAILED)
      else negb (empty (current_user_id_ e))
           && negb (empty (current_token_ e))
           && (if worker_thread_ e
               then ConnectionState_eqb (connection_state_ e) CONNECTED
               else ConnectionState_eqb (connection_state_ e) FAILED)).
End Session.

(** [~RtcEngineImpl], on the negotiator of this repository: stop and join
    the worker, leave the channel if one is joined, clean up the
    negotiator. *)
Definition destructor (platform : relock)
  : method (W := WebRTCWrapper.Impl) unit :=
  bind (put (set_should_stop_ true)) (fun _ =>
  bind (put (set_worker_thread_ false)) (fun _ =>
  bind (IsInChannel platform) (fun joined =>
  bind (if joined
        then bind (LeaveChannel (H := WebRTC) platform) (fun _ => ret tt)
        else ret tt) (fun _ =>
  bind (get webrtc_wrapper_) (fun wrapper =>
  match wrapper with
  | Some w => put (set_webrtc_wrapper_ (Some (WebRTCWrapper.Cleanup w)))
  | None => ret tt
  end))))).

(** [WebRTCWrapper::IceServer] and [WebRTCWrapper::Config]. *)
Record IceServer : Type := mkIceServer {
  urls : list string;
  username : string;
  password : string
}.

Record WebRTCConfig : Type := mkWebRTCConfig {
  ice_servers : list IceServer;
  audio_codec : string;
  video_codec : string;
  enable_hardware_acceleration : bool;
  enable_audio_processing : bool
}.

(** The body of the two loops of the constructor: a new [IceServer] gets
    the URL pushed on its empty list and is pushed on the servers. *)
Definition push_server (servers : list IceServer) (url : string)
  : list IceServer :=
  servers ++ [mkIceServer ([] ++ [url]) "" ""].

(** The [WebRTCWrapper::Config] the constructor derives from the engine
    configuration: the STUN entries first, then the TURN entries. *)
Definition webrtc_config (config : Config.Config) : WebRTCConfig :=
  {| ice_servers :=
       fold_left push_server (Config.turn_servers config)
         (fold_left push_server (Config.stun_servers config) []);
     audio_codec := Config.audio_codec config;
     video_codec := Config.video_codec config;
     enable_hardware_acceleration :=
       Config.enable_hardware_acceleration config;
     enable_audio_processing := Config.enable_audio_processing config |}.

End EngineSession.

(** ** webrtc_wrapper.cpp: the methods outside the lifecycle *)

Module WebRTCMedia.
Import WebRTCWrapper.

(** [SetObserver]. *)
Definition SetObserver (observer : bool) (w : Impl) : Impl :=
  mkImpl (is_initialized_ w) (peer_connection_created_ w)
    (local_streams_added_ w) (local_video_setup_ w) (local_audio_muted_ w)
    (local_video_enabled_ w) observer.

(** [SetupLocalVideo]; the surface is not kept. *)
Definition SetupLocalVideo (w : Impl) : Impl :=
  mkImpl (is_initialized_ w) (peer_connection_created_ w)
    (local_streams_added_ w) true (local_audio_muted_ w)
    (local_video_enabled_ w) (observer_ w).

(** [MuteLocalAudio]. *)
Definition MuteLocalAudio (muted : bool) (w : Impl) : Impl :=
  mkImpl (is_initialized_ w) (peer_connection_created_ w)
    (local_streams_added_ w) (local_video_setup_ w) muted
    (local_video_enabled_ w) (observer_ w).

(** [EnableLocalVideo]. *)
Definition EnableLocalVideo (enabled : bool) (w : Impl) : Impl :=
  mkImpl (is_initialized_ w) (peer_connection_created_ w)
    (local_streams_added_ w) (local_video_setup_ w) (local_audio_muted_ w)
    enabled (observer_ w).

(** [AddIceCandidate]: logs the candidate and returns true. *)
Definition AddIceCandidate (candidate sdp_mid : string) (sdp_mline_index : Z)
    (w : Impl) : bool * Impl :=
  (true, w).

(** The calls that set a media option or the observer. *)
Inductive setting : Type :=
| DoSetObserver (observer : bool)
| DoSetupLocalVideo
| DoMuteLocalAudio (muted : bool)
| DoEnableLocalVideo (enabled : bool).

Definition apply (s : setting) (w : Impl) : Impl :=
  match s with
  | DoSetObserver observer => SetObserver observer w
  | DoSetupLocalVideo => SetupLocalVideo w
  | DoMuteLocalAudio muted => MuteLocalAudio muted w
  | DoEnableLocalVideo enabled => EnableLocalVideo enabled w
  end.

(** Lifecycle commands and settings in one sequence. *)
Definition call : Type := (command + setting)%type.

Definition perform (c : call) (w : Impl) : Impl :=
  match c with
  | inl c => step c w
  | inr s => apply s w
  end.

Definition perform_all (cs : list call) (w : Impl) : Impl :=
  fold_left (fun w c => perform c w) cs w.

(** The three lifecycle flags and the three media options of a
    negotiator. *)
Definition lifecycle (w : Impl) : bool * bool * bool :=
  (is_initialized_ w, peer_connection_created_ w, local_streams_added_ w).

Definition options (w : Impl) : bool * bool * bool :=
  (local_video_setup_ w, local_audio_muted_ w, local_video_enabled_ w).

(** The settings among the calls, and the lifecycle commands among them. *)
Fixpoint settings_of (cs : list call) : list setting :=
  match cs with
  | [] => []
  | inr s :: cs' => s :: settings_of cs'
  | inl _ :: cs' => settings_of cs'
  end.

Fixpoint commands_of (cs : list call) : list command :=
  match cs with
  | [] => []
  | inl c :: cs' => c :: commands_of cs'
  | inr _ :: cs' => commands_of cs'
  end.
End WebRTCMedia.

(** ** media_manager.cpp *)

Module MediaManager.

Record state : Type := mkState {
  audio_capture_initialized_ : bool;
  video_capture_initialized_ : bool;
  audio_capture_active_ : bool;
  video_capture_active_ : bool;
  audio_muted_ : bool;
  video_enabled_ : bool
}.

(** The member initialisers. *)
Definition fresh : state := mkState false false false false false true.

Definition InitializeAudioCapture (m : state) : bool * state :=
  (true,
   mkState true (video_capture_initialized_ m) (audio_capture_active_ m)
     (video_capture_active_ m) (audio_muted_ m) (video_enabled_ m)).

Definition InitializeVideoCapture (m : state) : bool * state :=
  (true,
   mkState (audio_capture_initialized_ m) true (audio_capture_active_ m)
     (video_capture_active_ m) (audio_muted_ m) (video_enabled_ m)).

Definition StartAudioCapture (m : state) : state :=
  if negb (audio_capture_initialized_ m) then m
  else mkState (audio_capture_initialized_ m) (video_capture_initialized_ m)
         true (video_capture_active_ m) (audio_muted_ m) (video_enabled_ m).

Definition StopAudioCapture (m : state) : state :=
  if negb (audio_capture_active_ m) then m
  else mkState (audio_capture_initialized_ m) (video_capture_initialized_ m)
         false (video_capture_active_ m) (audio_muted_ m) (video_enabled_ m).

Definition StartVideoCapture (m : state) : state :=
  if negb (video_capture_initialized_ m) then m
  else mkState (audio_capture_initialized_ m) (video_capture_initialized_ m)
         (audio_capture_active_ m) true (audio_muted_ m) (video_enabled_ m).

Definition StopVideoCapture (m : state) : state :=
  if negb (video_capture_active_ m) then m
  else mkState (audio_capture_initialized_ m) (video_capture_initialized_ m)
         (audio_capture_active_ m) false (audio_muted_ m) (video_enabled_ m).

Definition MuteAudio (muted : bool) (m : state) : state :=
  mkState (audio_capture_initialized_ m) (video_capture_initialized_ m)
    (audio_capture_active_ m) (video_capture_active_ m) muted
    (video_enabled_ m).

(** [EnableVideo]: the flag is stored, then capture is started or stopped
    to match it. *)
Definition EnableVideo (enabled : bool) (m : state) : state :=
  let m1 :=
    mkState (audio_capture_initialized_ m) (video_capture_initialized_ m)
      (audio_capture_active_ m) (video_capture_active_ m) (audio_muted_ m)
      enabled in
  if enabled && negb (video_capture_active_ m1) then StartVideoCapture m1
  else if negb enabled && video_capture_active_ m1 then StopVideoCapture m1
  else m1.

Inductive command : Type :=
| DoInitializeAudioCapture | DoInitializeVideoCapture
| DoStartAudioCapture | DoStopAudioCapture
| DoStartVideoCapture | DoStopVideoCapture
| DoSetupVideoRenderer
| DoMuteAudio (muted : bool)
| DoEnableVideo (enabled : bool).

Definition step (c : command) (m : state) : state :=
  match c with
  | DoInitializeAudioCapture => snd (InitializeAudioCapture m)
  | DoInitializeVideoCapture => snd (InitializeVideoCapture m)
  | DoStartAudioCapture => StartAudioCapture m
  | DoStopAudioCapture => StopAudioCapture m
  | DoStartVideoCapture => StartVideoCapture m
  | DoStopVideoCapture => StopVideoCapture m
  | DoSetupVideoRenderer => m
  | DoMuteAudio muted => MuteAudio muted m
  | DoEnableVideo enabled => EnableVideo enabled m
  end.

Definition run (cs : list command) (m : state) : state :=
  fold_left (fun m c => step c m) cs m.

(** Capture runs only on an initialised device. *)
Definition capture_initialized (m : state) : bool :=
  implb (audio_capture_active_ m) (audio_capture_initialized_ m)
  && implb (video_capture_active_ m) (video_capture_initialized_ m).
End MediaManager.

(** ** signaling_client.cpp *)

Module SignalingClient.

(** [connected_]; the URL is only logged. *)
Definition state : Type := bool.

Definition fresh : state := false.

Definition Connect (s : state) : bool * state := (true, true).

Definition Disconnect (s : state) : state := false.

Definition SendMessage (message : string) (s : state) : bool * state :=
  (s, s).

Definition IsConnected (s : state) : bool := s.

Inductive command : Type :=
| DoConnect | DoDisconnect | DoSendMessage (message : string).

Definition step (c : command) (s : state) : state :=
  match c with
  | DoConnect => snd (Connect s)
  | DoDisconnect => Disconnect s
  | DoSendMessage message => snd (SendMessage message s)
  end.

Definition run (cs : list command) (s : state) : state :=
  fold_left (fun s c => step c s) cs s.

Definition is_disconnect (c : command) : bool :=
  match c with DoDisconnect => true | _ => false end.
End SignalingClient.

(** ** jni_interface.cpp: the entry points *)

Module JniEntry.
Import RtcEngineImpl.

(** A [jstring] argument; [None] is a null reference. *)
Definition jstring : Type := option string.

(** [jstring_to_string]: a null reference reads as the empty string. *)
Definition jstring_to_string (jstr : jstring) : string :=
  match jstr with
  | None => ""
  | Some s => s
  end.

(** The table of this library: handles of orchestrators that own the
    negotiator of this repository. *)
Definition table : Type := Jni.globals (engine WebRTCWrapper.Impl).

(** How an entry point ends, with the table it leaves. *)
Inductive result (A : Type) : Type :=
| Returned (a : A) (g : table)
| Blocked (g : table)
| Terminated (g : table).
Arguments Returned {A}.
Arguments Blocked {A}.
Arguments Terminated {A}.

(** The orchestrator behind a handle is one shared object: what a method
    does to it shows in the table. *)
Definition update (handle : Z) (e : engine WebRTCWrapper.Impl) (g : table)
  : table :=
  {| Jni.g_engines := <[handle := e]> (Jni.g_engines g);
     Jni.g_next_handle := Jni.g_next_handle g |}.

(** The shape of every handle-scoped entry point: [get_engine], the value
    [absent] for an invalid handle, the method otherwise. *)
Definition on_engine {A : Type} (handle : Z) (absent : A)
    (m : method (W := WebRTCWrapper.Impl) A) (g : table) : result A :=
  match Jni.get_engine handle g with
  | None => Returned absent g
  | Some e =>
      match m e with
      | Returns a e' => Returned a (update handle e' g)
      | Blocks e' => Blocked (update handle e' g)
      | Terminates e' => Terminated (update handle e' g)
      end
  end.

(** [nativeJoinChannel] and [nativeLeaveChannel]. *)
Definition nativeJoinChannel (platform : relock)
    (fault : option throw_point) (handle : Z)
    (token channel_name user_id : jstring) : table -> result Z :=
  on_engine handle (-1)%Z
    (JoinChannel (H := WebRTC) platform fault (jstring_to_string token)
       (jstring_to_string channel_name) (jstring_to_string user_id)).

Definition nativeLeaveChannel (platform : relock) (handle : Z)
  : table -> result Z :=
  on_engine handle (-1)%Z (LeaveChannel (H := WebRTC) platform).

(** [RtcEngineImpl::MuteLocalAudio] and [RtcEngineImpl::EnableLocalVideo]:
    passed on to the negotiator when there is one; [state_mutex_] is not
    taken. *)
Definition MuteLocalAudio (muted : bool)
  : method (W := WebRTCWrapper.Impl) unit :=
  bind (get webrtc_wrapper_) (fun wrapper =>
  match wrapper with
  | None => ret tt
  | Some w =>
      put (set_webrtc_wrapper_ (Some (WebRTCMedia.MuteLocalAudio muted w)))
  end).

Definition EnableLocalVideo (enabled : bool)
  : method (W := WebRTCWrapper.Impl) unit :=
  bind (get webrtc_wrapper_) (fun wrapper =>
  match wrapper with
  | None => ret tt
  | Some w =>
      put (set_webrtc_wrapper_
             (Some (WebRTCMedia.EnableLocalVideo enabled w)))
  end).

(** [nativeMuteLocalAudio] and [nativeEnableLocalVideo]. *)
Definition nativeMuteLocalAudio (handle : Z) (muted : bool)
  : table -> result unit :=
  on_engine handle tt (MuteLocalAudio muted).

Definition nativeEnableLocalVideo (handle : Z) (enabled : bool)
  : table -> result unit :=
  on_engine handle tt (EnableLocalVideo enabled).

(** [g_jvm] beside the table: [true] while it holds the VM. *)
Record library (Engine : Type) : Type := mkLibrary {
  globals_ : Jni.globals Engine;
  g_jvm : bool
}.
Arguments mkLibrary {Engine}.
Arguments globals_ {Engine}.
Arguments g_jvm {Engine}.

(** [JNI_OnLoad] stores the VM; the table is as its initialisers left
    it. *)
Definition JNI_OnLoad {Engine : Type} : library Engine :=
  mkLibrary Jni.loaded true.

(** [JNI_OnUnload]: the map is cleared, [g_next_handle] is not reset, and
    [g_jvm = nullptr]. *)
Definition JNI_OnUnload {Engine : Type} (l : library Engine)
  : library Engine :=
  mkLibrary
    {| Jni.g_engines := ∅;
       Jni.g_next_handle := Jni.g_next_handle (globals_ l) |}
    false.

(** Table commands and unloads in one sequence. *)
Inductive host_call (Engine : Type) : Type :=
| Table (c : Jni.command Engine)
| Unload.
Arguments Table {Engine}.
Arguments Unload {Engine}.

(** One call of the host; [None]: the process died.  Once the orchestrator
    is constructed, [nativeCreateEngine] hands [g_jvm] to the constructor
    of [JniCallback], which calls [GetEnv] through it: with [g_jvm] cleared
    that is a call through a null pointer, which no [catch] sees.  A
    creation whose construction threw has returned 0 before. *)
Definition host_step {Engine : Type} (c : host_call Engine)
    (l : library Engine) : option (library Engine) :=
  match c with
  | Table (Jni.Create (Some engine)) =>
      if g_jvm l
      then Some (mkLibrary
                   (snd (Jni.nativeCreateEngine (Some engine) (globals_ l)))
                   (g_jvm l))
      else None
  | Table c => Some (mkLibrary (Jni.step c (globals_ l)) (g_jvm l))
  | Unload => Some (JNI_OnUnload l)
  end.

Fixpoint host_run {Engine : Type} (cs : list (host_call Engine))
    (l : library Engine) : option (library Engine) :=
  match cs with
  | [] => Some l
  | c :: cs' =>
      match host_step c l with
      | Some l' => host_run cs' l'
      | None => None
      end
  end.

(** No handle resolves. *)
Definition empty_table {Engine : Type} (l : library Engine) : Prop :=
  forall handle, Jni.get_engine handle (globals_ l) = None.
End JniEntry.

(** ** Configuration texts *)

Module ConfigText.
Import Config.

(** [s] between double quotes. *)
Definition quoted (s : string) : string :=
  (quote ++ s ++ quote)%string.

(** The entry ["appId": "<s>"] and the object [{"appId": "<s>"}]. *)
Definition app_id_entry (s : string) : string :=
  (quoted "appId" ++ ": " ++ quoted s)%string.

Definition app_id_object (s : string) : string :=
  ("{" ++ app_id_entry s ++ "}")%string.

(** The all-defaults configuration with the application id [s]. *)
Definition defaults_with_app_id (s : string) : Config :=
  {| app_id := s;
     environment := environment all_defaults;
     signaling_url := signaling_url all_defaults;
     stun_servers := stun_servers all_defaults;
     turn_servers := turn_servers all_defaults;
     audio_codec := audio_codec all_defaults;
     video_codec := video_codec all_defaults;
     enable_hardware_acceleration :=
       enable_hardware_acceleration all_defaults;
     enable_audio_processing := enable_audio_processing all_defaults;
     connection_timeout_ms := connection_timeout_ms all_defaults;
     enable_stats := enable_stats all_defaults;
     log_level := log_level all_defaults |}.

(** Arrays inside one another, [n + 1] of them: [[]], [[[]]], ... *)
Fixpoint opens (n : nat) : string :=
  match n with
  | O => EmptyString
  | S n' => String "[" (opens n')
  end.

Fixpoint closes (n : nat) : string :=
  match n with
  | O => EmptyString
  | S n' => String "]" (closes n')
  end.

Definition nested_arrays (n : nat) : string :=
  (opens (S n) ++ closes (S n))%string.

(** [std::string::max_size()] keeps a length within [size_t]. *)
Definition fits_size_t (s : string) : Prop :=
  (Z.of_nat (String.length s) < 2 ^ 64)%Z.
End ConfigText.

(** ** jni_interface.cpp: JniCallback *)

Module JniCallback.
Import RtcEngineImpl.

(** A [CallVoidMethod] on the Java engine object. *)
Inductive java_call : Type :=
| onNativeUserJoined (user_id : string)
| onNativeUserOffline (user_id : string) (reason : Z)
| onNativeConnectionStateChanged (state reason : Z)
| onNativeError (error_code : Z) (message : string).

(** The calling thread as the VM knows it: whether it is attached, whether
    a Java exception is pending on it, how many local references the
    callbacks hold, and the calls made on the Java object, oldest first. *)
Record thread : Type := mkThread {
  attached : bool;
  exception_pending : bool;
  local_refs : nat;
  calls : list java_call
}.

(** What the other side does during one callback: whether
    [AttachCurrentThread] succeeds, and whether the Java method throws. *)
Record host : Type := mkHost {
  attach_ok : bool;
  java_throws : bool
}.

(** The members of [JniCallback]; [true] is a non-null pointer or id. *)
Record callback : Type := mkCallback {
  jvm_ : bool;
  java_engine_obj_ : bool;
  on_user_joined_method_ : bool;
  on_user_offline_method_ : bool;
  on_connection_state_changed_method_ : bool;
  on_error_method_ : bool
}.

Definition set_attached (b : bool) (t : thread) : thread :=
  mkThread b (exception_pending t) (local_refs t) (calls t).

(** [NewStringUTF] and [DeleteLocalRef]. *)
Definition NewStringUTF (t : thread) : thread :=
  mkThread (attached t) (exception_pending t) (S (local_refs t)) (calls t).

Definition DeleteLocalRef (t : thread) : thread :=
  mkThread (attached t) (exception_pending t) (Nat.pred (local_refs t))
    (calls t).

(** [CallVoidMethod]: the call is made; the exception the Java method
    throws stays pending on the thread. *)
Definition CallVoidMethod (h : host) (c : java_call) (t : thread) : thread :=
  mkThread (attached t) (exception_pending t || java_throws h)
    (local_refs t) (calls t ++ [c]).

(** [ExceptionDescribe] followed by [ExceptionClear]. *)
Definition ExceptionClear (t : thread) : thread :=
  mkThread (attached t) false (local_refs t) (calls t).

(** [CallJavaMethod].  [GetEnv] answers [JNI_OK] on an attached thread
    and [JNI_EDETACHED] otherwise. *)
Definition CallJavaMethod (cb : callback) (h : host)
    (method_call : thread -> thread) (t : thread) : thread :=
  if negb (jvm_ cb) || negb (java_engine_obj_ cb) then t
  else
    let status_ok := attached t || attach_ok h in
    let attached_here := negb (attached t) && attach_ok h in
    if status_ok then
      let t := if attached_here then set_attached true t else t in
      let t := method_call t in
      let t := if exception_pending t then ExceptionClear t else t in
      if attached_here then set_attached false t else t
    else t.

(** The nine methods of the [Callback] interface as [JniCallback]
    overrides them: four call Java, five write a log line. *)
Definition forward (cb : callback) (h : host) (ev : Event) (t : thread)
  : thread :=
  match ev with
  | OnUserJoined user_id =>
      CallJavaMethod cb h (fun t =>
        if on_user_joined_method_ cb
        then DeleteLocalRef
               (CallVoidMethod h (onNativeUserJoined user_id)
                  (NewStringUTF t))
        else t) t
  | OnUserOffline user_id reason =>
      CallJavaMethod cb h (fun t =>
        if on_user_offline_method_ cb
        then DeleteLocalRef
               (CallVoidMethod h (onNativeUserOffline user_id reason)
                  (NewStringUTF t))
        else t) t
  | OnConnectionStateChanged state reason =>
      CallJavaMethod cb h (fun t =>
        if on_connection_state_changed_method_ cb
        then CallVoidMethod h (onNativeConnectionStateChanged state reason) t
        else t) t
  | OnError error_code message =>
      CallJavaMethod cb h (fun t =>
        if on_error_method_ cb
        then DeleteLocalRef
               (CallVoidMethod h (onNativeError error_code message)
                  (NewStringUTF t))
        else t) t
  | OnJoinChannelSuccess _ _ _ | OnLeaveChannel
  | OnFirstRemoteVideoDecoded _ _ _ _ | OnFirstLocalVideoFrame _ _ _
  | OnRtcStats _ => t
  end.

(** The events an orchestrator delivered, passed on one after the other. *)
Fixpoint forward_all (cb : callback) (deliveries : list (host * Event))
    (t : thread) : thread :=
  match deliveries with
  | [] => t
  | (h, ev) :: rest => forward_all cb rest (forward cb h ev t)
  end.

(** A callback whose constructor found the VM, the object and the four
    methods. *)
Definition resolved : callback := mkCallback true true true true true true.
End JniCallback.

(** ** utils/logging.cpp *)

Module Logging.
Local Open Scope char_scope.

(** [enum class LogLevel] by its integers. *)
Definition VERBOSE : Z := 0.
Definition DEBUG : Z := 1.
Definition INFO : Z := 2.
Definition WARN : Z := 3.
Definition ERROR : Z := 4.

Inductive android_LogPriority : Type :=
| ANDROID_LOG_VERBOSE | ANDROID_LOG_DEBUG | ANDROID_LOG_INFO
| ANDROID_LOG_WARN | ANDROID_LOG_ERROR.

(** The [switch] of [LogMessage]. *)
Definition priority_of (level : Z) : android_LogPriority :=
  if (level =? VERBOSE)%Z then ANDROID_LOG_VERBOSE
  else if (level =? DEBUG)%Z then ANDROID_LOG_DEBUG
  else if (level =? INFO)%Z then ANDROID_LOG_INFO
  else if (level =? WARN)%Z then ANDROID_LOG_WARN
  else if (level =? ERROR)%Z then ANDROID_LOG_ERROR
  else ANDROID_LOG_INFO.

(** [strrchr(file, '/')] followed by [filename++]: what comes after the
    last slash, [None] when there is no slash. *)
Fixpoint after_last_slash (file : string) : option string :=
  match file with
  | EmptyString => None
  | String c rest =>
      match after_last_slash rest with
      | Some name => Some name
      | None => if Ascii.eqb c "/" then Some rest else None
      end
  end.

Definition filename (file : string) : string :=
  match after_last_slash file with
  | Some name => name
  | None => file
  end.

(** [vsnprintf(buffer, size, ...)]: of the formatted text the first
    [size - 1] characters are kept. *)
Definition vsnprintf (size : nat) (formatted : string) : string :=
  String.substring 0 (size - 1) formatted.

(** The arguments of the final [__android_log_print]. *)
Record line : Type := mkLine {
  priority : android_LogPriority;
  source_file : string;
  source_line : Z;
  buffer : string
}.

(** [LogMessage] under the threshold [g_log_level]; [formatted] is the
    text the format and its arguments expand to.  [None]: nothing is
    printed. *)
Definition LogMessage (g_log_level level : Z) (file : string)
    (line_number : Z) (formatted : string) : option line :=
  if (level <? g_log_level)%Z then None
  else Some {| priority := priority_of level;
               source_file := filename file;
               source_line := line_number;
               buffer := vsnprintf 1024 formatted |}.
End Logging.

(** * Theorems *)

(** ** The handle table *)

Lemma jlong_wrap_in_range (z : Z) :
  (jlong_min <= z <= jlong_max)%Z -> jlong_wrap z = z.
Proof.
  unfold jlong_min, jlong_max, jlong_wrap. intros Hz.
  rewrite Z.mod_small; lia.
Qed.

Section HandleTableFacts.
Context {Engine : Type}.
Implicit Types (g : Jni.globals Engine) (cs : list (Jni.command Engine)).
Import Jni.

Lemma run_cons c cs g : run (c :: cs) g = run cs (step c g).
Proof. reflexivity. Qed.

Lemma run_app cs1 cs2 g : run (cs1 ++ cs2) g = run cs2 (run cs1 g).
Proof. unfold run. apply fold_left_app. Qed.

Lemma issued_app cs1 cs2 g :
  issued (cs1 ++ cs2) g = issued cs1 g ++ issued cs2 (run cs1 g).
Proof.
  revert g. induction cs1 as [|c cs1 IH]; intros g; [reflexivity|].
  rewrite run_cons. simpl. destruct c as [[e|]|h|h]; simpl; rewrite IH;
    reflexivity.
Qed.

Lemma creations_app cs1 cs2 :
  creations (cs1 ++ cs2) = (creations cs1 + creations cs2)%nat.
Proof.
  induction cs1 as [|c cs1 IH]; [reflexivity|].
  destruct c as [[e|]|h|h]; simpl; rewrite IH; reflexivity.
Qed.

Lemma next_handle_destroy h g :
  g_next_handle (nativeDestroyEngine h g) = g_next_handle g.
Proof. unfold nativeDestroyEngine. destruct (g_engines g !! h); reflexivity. Qed.

Lemma get_engine_destroyed h g : get_engine h (nativeDestroyEngine h g) = None.
Proof.
  unfold get_engine, nativeDestroyEngine.
  destruct (g_engines g !! h) eqn:E; simpl; [apply lookup_delete_eq | exact E].
Qed.

Lemma get_engine_destroy_other h h' g :
  get_engine h g = None -> get_engine h (nativeDestroyEngine h' g) = None.
Proof.
  unfold get_engine, nativeDestroyEngine. intros E.
  destruct (g_engines g !! h'); simpl; [|exact E].
  rewrite lookup_delete_None. right. exact E.
Qed.

(** While the counter stays below the largest [jlong], the handles given
    out are consecutive and the counter is one past the last of them. *)
Lemma issued_consecutive cs : forall g,
  (jlong_min <= g_next_handle g)%Z ->
  (g_next_handle g + Z.of_nat (creations cs) <= jlong_max)%Z ->
  issued cs g = consecutive (g_next_handle g) (creations cs)
  /\ g_next_handle (run cs g)
     = (g_next_handle g + Z.of_nat (creations cs))%Z.
Proof.
  induction cs as [|c cs IH]; intros g Hlo Hhi.
  - simpl. split; [reflexivity | lia].
  - rewrite run_cons. destruct c as [[e|]|h|h]; simpl in *.
    + assert (Hw : jlong_wrap (g_next_handle g + 1) = (g_next_handle g + 1)%Z)
        by (apply jlong_wrap_in_range; lia).
      destruct (IH {| g_engines := <[g_next_handle g := e]> (g_engines g);
                      g_next_handle := jlong_wrap (g_next_handle g + 1) |})
        as [Hi Hn]; simpl; rewrite ?Hw; try lia.
      simpl in Hi, Hn. rewrite Hw in Hi, Hn. rewrite Hi, Hn. split; [reflexivity | lia].
    + apply IH; assumption.
    + destruct (IH (nativeDestroyEngine h g)) as [Hi Hn];
        rewrite ?next_handle_destroy; try assumption.
      rewrite Hi, Hn, next_handle_destroy. split; reflexivity.
    + apply IH; assumption.
Qed.

Lemma In_consecutive n : forall first h,
  In h (consecutive first n) <-> (first <= h < first + Z.of_nat n)%Z.
Proof.
  induction n as [|n IH]; intros first h; simpl.
  - lia.
  - rewrite IH. lia.
Qed.

Lemma consecutive_increasing n : forall first,
  StronglySorted Z.lt (consecutive first n).
Proof.
  induction n as [|n IH]; intros first; simpl; constructor.
  - apply IH.
  - apply List.Forall_forall. intros h Hh. apply In_consecutive in Hh. lia.
Qed.

Lemma consecutive_NoDup n : forall first, List.NoDup (consecutive first n).
Proof.
  induction n as [|n IH]; intros first; simpl; constructor.
  - rewrite In_consecutive. lia.
  - apply IH.
Qed.

(** A handle that is absent and is not given out later stays absent. *)
Lemma never_issued_absent cs : forall g h,
  get_engine h g = None -> ~ In h (issued cs g) ->
  get_engine h (run cs g) = None.
Proof.
  induction cs as [|c cs IH]; intros g h Habs Hnot; [exact Habs|].
  rewrite run_cons. destruct c as [[e|]|h'|h']; simpl in *.
  - apply IH.
    + unfold get_engine in *. simpl. rewrite lookup_insert_ne; [exact Habs|].
      intros E. apply Hnot. left. exact E.
    + intros Hin. apply Hnot. right. exact Hin.
  - apply IH; assumption.
  - apply IH; [apply get_engine_destroy_other; exact Habs | exact Hnot].
  - apply IH; assumption.
Qed.
End HandleTableFacts.

(** A handle that was never given out, or whose entry was destroyed, is
    not in the table. *)
Lemma retired_handle_absent {Engine : Type} (cs : list (Jni.command Engine))
    (handle : Z) :
  (Z.of_nat (Jni.creations cs) < jlong_max)%Z ->
  ~ In handle (Jni.issued cs Jni.loaded)
  \/ Jni.destroyed handle cs Jni.loaded ->
  Jni.get_engine handle (Jni.run cs Jni.loaded) = None.
Proof.
  intros Hroom.
  assert (Hmin : (jlong_min <= 1)%Z) by (unfold jlong_min; lia).
  intros [Hnever | (before & after & Hcs & Hin)].
  - apply never_issued_absent; [reflexivity | exact Hnever].
  - rewrite Hcs in Hroom |- *.
    rewrite creations_app in Hroom. simpl in Hroom.
    rewrite run_app, run_cons.
    destruct (issued_consecutive before Jni.loaded) as [Hb Hn]; simpl; try lia.
    simpl in Hb, Hn. rewrite Hb in Hin. apply In_consecutive in Hin.
    apply never_issued_absent; [apply get_engine_destroyed|].
    destruct (issued_consecutive after
                (Jni.step (Jni.Destroy handle) (Jni.run before Jni.loaded)))
      as [Ha _]; simpl; rewrite ?next_handle_destroy, ?Hn; try lia.
    simpl in Ha. rewrite Ha, next_handle_destroy, Hn, In_consecutive. lia.
Qed.

(** C5.  Run from the freshly loaded library, a sequence of create, destroy
    and resolve commands that stays within the range of [jlong] is answered
    as follows.  The values [nativeCreateEngine] returns for its successful
    creations are 1, 2, 3, ... in this order (so they increase strictly and
    none comes twice, whatever was destroyed in between); the value a
    creation returns is one more than the number of successful creations
    before it, and right after the creation [get_engine] finds under that
    value the orchestrator just created; [get_engine] finds nothing for a
    handle that was never returned or whose entry was destroyed, at the end
    of the sequence and at every resolve command inside it. *)
Theorem handle_table_sound {Engine : Type} (cs : list (Jni.command Engine)) :
  (Z.of_nat (Jni.creations cs) < jlong_max)%Z ->
  Jni.issued cs Jni.loaded = Jni.consecutive 1 (Jni.creations cs)
  /\ StronglySorted Z.lt (Jni.issued cs Jni.loaded)
  /\ List.NoDup (Jni.issued cs Jni.loaded)
  /\ (forall before engine after,
        cs = before ++ Jni.Create (Some engine) :: after ->
        let created :=
          Jni.nativeCreateEngine (Some engine) (Jni.run before Jni.loaded) in
        fst created = Z.of_nat (S (Jni.creations before))
        /\ Jni.get_engine (fst created) (snd created) = Some engine)
  /\ (forall handle,
        ~ In handle (Jni.issued cs Jni.loaded)
        \/ Jni.destroyed handle cs Jni.loaded ->
        Jni.get_engine handle (Jni.run cs Jni.loaded) = None)
  /\ (forall before handle after,
        cs = before ++ Jni.Resolve handle :: after ->
        ~ In handle (Jni.issued before Jni.loaded)
        \/ Jni.destroyed handle before Jni.loaded ->
        Jni.get_engine handle (Jni.run before Jni.loaded) = None).
Proof.
  intros Hroom.
  assert (Hmin : (jlong_min <= 1)%Z) by (unfold jlong_min; lia).
  destruct (issued_consecutive cs Jni.loaded) as [Hiss _]; simpl; try lia.
  simpl in Hiss. rewrite Hiss. split; [reflexivity|].
  split; [apply consecutive_increasing|].
  split; [apply consecutive_NoDup|].
  split; [|split].
  - intros before engine after Hcs. cbv zeta.
    rewrite Hcs, creations_app in Hroom. simpl in Hroom.
    destruct (issued_consecutive before Jni.loaded) as [_ Hn]; simpl;
      try lia.
    simpl in Hn. split.
    + simpl. rewrite Hn. lia.
    + unfold Jni.get_engine. simpl. apply lookup_insert_eq.
  - intros handle Hretired. apply retired_handle_absent; [exact Hroom|].
    rewrite Hiss. exact Hretired.
  - intros before handle after Hcs. apply retired_handle_absent.
    rewrite Hcs, creations_app in Hroom. lia.
Qed.

(** A run with two successful creations around a failed one, a destroy and
    resolves. *)
Lemma handle_table_sound_witness :
  let cs := [Jni.Create (Some 10%nat); Jni.Create None; Jni.Resolve 1%Z;
             Jni.Create (Some 11%nat); Jni.Destroy 1%Z; Jni.Resolve 1%Z;
             Jni.Create (Some 12%nat)] in
  (Z.of_nat (Jni.creations cs) < jlong_max)%Z
  /\ Jni.issued cs Jni.loaded = [1; 2; 3]%Z
  /\ fst (Jni.nativeCreateEngine (Some 12%nat)
            (Jni.run [Jni.Create (Some 10%nat); Jni.Create None;
                      Jni.Resolve 1%Z; Jni.Create (Some 11%nat);
                      Jni.Destroy 1%Z; Jni.Resolve 1%Z] Jni.loaded)) = 3%Z
  /\ Jni.get_engine 1%Z (Jni.run cs Jni.loaded) = None
  /\ Jni.get_engine 0%Z (Jni.run cs Jni.loaded) = None
  /\ Jni.get_engine 2%Z (Jni.run cs Jni.loaded) = Some 11%nat.
Proof.
  intros cs.
  assert (Hroom : (Z.of_nat (Jni.creations cs) < jlong_max)%Z) by reflexivity.
  destruct (handle_table_sound cs Hroom)
    as (Hissued & _ & _ & Hcreated & Hnone & _).
  split; [exact Hroom|].
  split; [exact Hissued|].
  split.
  { exact (proj1 (Hcreated
                    [Jni.Create (Some 10%nat); Jni.Create None;
                     Jni.Resolve 1%Z; Jni.Create (Some 11%nat);
                     Jni.Destroy 1%Z; Jni.Resolve 1%Z] 12%nat [] eq_refl)). }
  split.
  - apply Hnone. right.
    exists [Jni.Create (Some 10%nat); Jni.Create None; Jni.Resolve 1%Z;
            Jni.Create (Some 11%nat)],
           [Jni.Resolve 1%Z; Jni.Create (Some 12%nat)].
    split; [reflexivity | left; reflexivity].
  - split; [|reflexivity].
    apply Hnone. left. simpl. intros [E|[E|[E|[]]]]; discriminate E.
Defined.

(** ** The negotiator *)

Section NegotiatorFacts.
Import WebRTCWrapper.
Implicit Types (w : Impl) (c : command).

Lemma step_ordered c w : ordered w = true -> ordered (step c w) = true.
Proof.
  destruct w as [i p l v m n o], c; destruct i, p, l; simpl;
    intros E; try reflexivity; discriminate E.
Qed.

Lemma run_ordered cs : forall w, ordered w = true -> ordered (run cs w) = true.
Proof.
  induction cs as [|c cs IH]; intros w E; [exact E|].
  apply IH, step_ordered, E.
Qed.

(** The four guarded operations fail at once, and change nothing, when
    what they need is missing. *)
Lemma guarded_operations_fail_fast w :
  (is_initialized_ w = false -> CreatePeerConnection w = (false, w))
  /\ (peer_connection_created_ w = false ->
      AddLocalStreams w = (false, [], w)
      /\ CreateOffer w = (Immediate (sdp_result "" false), w)
      /\ CreateAnswer w = (Immediate (sdp_result "" false), w)).
Proof.
  destruct w as [i p l v m n o]; simpl. split.
  - intros ->. reflexivity.
  - intros ->. repeat split; reflexivity.
Qed.
End NegotiatorFacts.

(** C7, at the input where the code leaves it: on a negotiator that is
    initialised but has no peer connection, [SetLocalDescription] and
    [SetRemoteDescription] do not fail; each hands the callback to a detached
    thread that reports success 10 ms later.  [CreateOffer], on the same
    negotiator, calls back at once with a failure. *)
Theorem descriptions_set_without_peer_connection :
  let w := snd (WebRTCWrapper.Initialize WebRTCWrapper.fresh) in
  WebRTCWrapper.peer_connection_created_ w = false
  /\ WebRTCWrapper.SetLocalDescription "offer" WebRTCWrapper.offer_sdp w
     = (WebRTCWrapper.Detached 10 (WebRTCWrapper.set_result true), w)
  /\ WebRTCWrapper.SetRemoteDescription "answer" WebRTCWrapper.answer_sdp w
     = (WebRTCWrapper.Detached 10 (WebRTCWrapper.set_result true), w)
  /\ WebRTCWrapper.CreateOffer w
     = (WebRTCWrapper.Immediate (WebRTCWrapper.sdp_result "" false), w).
Proof. cbv zeta. repeat split. Qed.

(** C8.  From a state in which local-streams-added implies
    peer-connection-created and peer-connection-created implies
    initialized - a new negotiator is in one - every sequence of
    [Initialize], [CreatePeerConnection], [AddLocalStreams],
    [RemoveLocalStreams], [ClosePeerConnection] and [Cleanup] satisfies the
    invariant after each of its calls.  So between calls the flags that
    stand are always a first part of initialized, peer-connection-created,
    local-streams-added, and teardown takes them away from the end:
    [RemoveLocalStreams] leaves local-streams-added clear,
    [ClosePeerConnection] leaves it and peer-connection-created clear, and
    [Cleanup], which the destructor runs too, leaves all three clear. *)
Theorem lifecycle_flags_stay_ordered
    (cs : list WebRTCWrapper.command) (w : WebRTCWrapper.Impl) :
  WebRTCWrapper.ordered w = true ->
  (forall before after,
     cs = before ++ after ->
     WebRTCWrapper.ordered (WebRTCWrapper.run before w) = true)
  /\ (let w' := WebRTCWrapper.run cs w in
      (WebRTCWrapper.local_streams_added_ w' = true ->
       WebRTCWrapper.peer_connection_created_ w' = true)
      /\ (WebRTCWrapper.peer_connection_created_ w' = true ->
          WebRTCWrapper.is_initialized_ w' = true))
  /\ WebRTCWrapper.local_streams_added_
       (WebRTCWrapper.RemoveLocalStreams (WebRTCWrapper.run cs w)) = false
  /\ (let w' := WebRTCWrapper.ClosePeerConnection (WebRTCWrapper.run cs w) in
      WebRTCWrapper.peer_connection_created_ w' = false
      /\ WebRTCWrapper.local_streams_added_ w' = false)
  /\ (let w' := WebRTCWrapper.Cleanup (WebRTCWrapper.run cs w) in
      WebRTCWrapper.is_initialized_ w' = false
      /\ WebRTCWrapper.peer_connection_created_ w' = false
      /\ WebRTCWrapper.local_streams_added_ w' = false).
Proof.
  intros E. split; [intros before after _; apply run_ordered, E|].
  pose proof (run_ordered cs w E) as Hord.
  destruct (WebRTCWrapper.run cs w) as [i p l v m n o].
  destruct i, p, l; try discriminate Hord; cbv zeta; simpl;
    repeat split; intros; try reflexivity; try discriminate.
Qed.

Lemma lifecycle_flags_stay_ordered_witness :
  let cs := [WebRTCWrapper.DoInitialize; WebRTCWrapper.DoCreatePeerConnection;
             WebRTCWrapper.DoAddLocalStreams;
             WebRTCWrapper.DoClosePeerConnection;
             WebRTCWrapper.DoAddLocalStreams; WebRTCWrapper.DoCleanup;
             WebRTCWrapper.DoCreatePeerConnection] in
  WebRTCWrapper.ordered WebRTCWrapper.fresh = true
  /\ WebRTCWrapper.ordered
       (WebRTCWrapper.run [WebRTCWrapper.DoInitialize;
                           WebRTCWrapper.DoCreatePeerConnection;
                           WebRTCWrapper.DoAddLocalStreams;
                           WebRTCWrapper.DoClosePeerConnection]
          WebRTCWrapper.fresh) = true
  /\ WebRTCWrapper.ordered (WebRTCWrapper.run cs WebRTCWrapper.fresh) = true.
Proof.
  intros cs.
  destruct (lifecycle_flags_stay_ordered cs WebRTCWrapper.fresh eq_refl)
    as [Hcalls _].
  split; [reflexivity|]. split.
  - exact (Hcalls [WebRTCWrapper.DoInitialize;
                   WebRTCWrapper.DoCreatePeerConnection;
                   WebRTCWrapper.DoAddLocalStreams;
                   WebRTCWrapper.DoClosePeerConnection]
                  [WebRTCWrapper.DoAddLocalStreams; WebRTCWrapper.DoCleanup;
                   WebRTCWrapper.DoCreatePeerConnection] eq_refl).
  - exact (Hcalls cs [] eq_refl).
Defined.

(** ** The orchestrator *)

Section EngineFacts.
Import RtcEngineImpl.
Context {W : Type} `{Negotiator W}.
Implicit Types (e : engine W) (fault : option throw_point).

Ltac run_methods :=
  cbv [JoinChannel LeaveChannel JoinChannel_try JoinChannel_catch
       start_worker IsInChannel GetCurrentChannel GetConnectionState
       lock_guard SetConnectionState InvokeCallback bind get put ret
       membership set_webrtc_wrapper_ set_connection_state_
       set_current_channel_ set_current_user_id_ set_current_token_
       set_worker_thread_ set_should_stop_ set_state_mutex_ set_callback_
       deliver webrtc_wrapper_ connection_state_ current_channel_
       current_user_id_ current_token_ worker_thread_ should_stop_
       state_mutex_ callback_ received empty throws_at copy_throws
       throw_point_eqb negb orb andb ConnectionState_eqb static_cast_int
       Z.eqb Pos.eqb] in *.

Lemma ConnectionState_eqb_eq (a b : ConnectionState) :
  ConnectionState_eqb a b = true <-> a = b.
Proof. destruct a, b; cbv; split; intros E; congruence. Qed.

(** On the platform of the SDK the nested lock in [IsInChannel] stops
    [JoinChannel] and [LeaveChannel] before they read anything. *)
Lemma JoinChannel_never_returns fault token channel_name user_id e :
  JoinChannel relock_blocks fault token channel_name user_id e
  = Blocks (set_state_mutex_ true e).
Proof. destruct e as [w s c u t wt ss [|] cb r]; reflexivity. Qed.

Lemma LeaveChannel_never_returns e :
  LeaveChannel relock_blocks e = Blocks (set_state_mutex_ true e).
Proof. destruct e as [w s c u t wt ss [|] cb r]; reflexivity. Qed.

(** What the body of [JoinChannel] does where the nested lock proceeds:
    the join the code aims at. *)
Lemma JoinChannel_joins token channel_name user_id e w sink :
  connection_state_ e = DISCONNECTED ->
  current_channel_ e = ""%string ->
  webrtc_wrapper_ e = Some w ->
  fst (CreatePeerConnection w) = true ->
  fst (AddLocalStreams (snd (CreatePeerConnection w))) = true ->
  worker_thread_ e = false ->
  callback_ e = Some sink ->
  empty token = false -> empty channel_name = false ->
  empty user_id = false ->
  exists e',
    JoinChannel relock_proceeds None token channel_name user_id e
    = Returns 0%Z e'
    /\ IsInChannel relock_proceeds e' = Returns true e'
    /\ GetCurrentChannel relock_proceeds e' = Returns channel_name e'
    /\ GetConnectionState e' = Returns CONNECTED e'
    /\ received e'
       = received e
         ++ [(sink, OnConnectionStateChanged (static_cast_int CONNECTING) 1);
             (sink, OnConnectionStateChanged (static_cast_int CONNECTED) 2);
             (sink, OnJoinChannelSuccess channel_name user_id 100)].
Proof.
  destruct e as [ww s c u t wt ss m cb r]; simpl.
  intros -> -> -> Hc Ha -> -> Ht Hn Hu.
  destruct token as [|t0 token]; [discriminate|].
  destruct channel_name as [|c0 channel_name]; [discriminate|].
  destruct user_id as [|u0 user_id]; [discriminate|].
  run_methods.
  destruct m; rewrite Hc; run_methods; rewrite Ha; run_methods;
    (eexists; split; [reflexivity|]; run_methods;
     repeat split; rewrite <- !app_assoc; reflexivity).
Qed.

(** Likewise for [LeaveChannel] outside a channel: nothing happens. *)
Lemma LeaveChannel_idle e :
  current_channel_ e = ""%string ->
  LeaveChannel relock_proceeds e = Returns 0%Z (set_state_mutex_ false e).
Proof.
  destruct e as [ww s c u t wt ss [|] cb r]; simpl; intros ->; reflexivity.
Qed.

(** The results of the [try] block of [JoinChannel]. *)
Lemma JoinChannel_try_codes fault w token channel_name user_id e code e' :
  JoinChannel_try fault w token channel_name user_id e = Returns code e' ->
  code = 0%Z \/ code = (-4)%Z \/ code = (-5)%Z \/ code = (-6)%Z.
Proof.
  destruct e as [ww s c u t wt ss m cb r]. run_methods.
  destruct fault as [[]|], (fst (CreatePeerConnection w)),
    (fst (AddLocalStreams (snd (CreatePeerConnection w)))), wt, cb, s;
    run_methods; intros E; inversion E; auto.
Qed.

(** And for the order of the checks in [JoinChannel]. *)
Lemma JoinChannel_check_order fault token channel_name user_id e :
  (empty (current_channel_ e) = false ->
   JoinChannel relock_proceeds fault token channel_name user_id e
   = Returns (-1)%Z (set_state_mutex_ false e))
  /\ (forall e',
        JoinChannel relock_proceeds fault token channel_name user_id e
        = Returns (-3)%Z e' ->
        empty (current_channel_ e) = true
        /\ webrtc_wrapper_ e <> None
        /\ empty token || empty channel_name || empty user_id = true).
Proof.
  split.
  - destruct e as [ww s c u t wt ss m cb r]. simpl. intros E.
    destruct c; [discriminate|]. destruct m; reflexivity.
  - intros e'. unfold JoinChannel, lock_guard, IsInChannel.
    destruct e as [ww s c u t wt ss m cb r].
    destruct c as [|a c];
      [| destruct m; cbv [bind get put ret lock_guard state_mutex_
                          set_state_mutex_ current_channel_ empty negb];
         discriminate].
    destruct ww as [w|];
      [| destruct m; cbv [bind get put ret lock_guard state_mutex_
                          set_state_mutex_ current_channel_ empty negb
                          webrtc_wrapper_];
         discriminate].
    destruct (empty token || empty channel_name || empty user_id) eqn:E;
      [intros _; repeat split; discriminate|].
    destruct m;
      cbv [bind get put ret lock_guard state_mutex_ set_state_mutex_
           current_channel_ empty negb webrtc_wrapper_];
      match goal with
      | |- context [JoinChannel_try ?f ?w ?t ?c ?u ?e0] =>
          destruct (JoinChannel_try f w t c u e0) as [code e1| |] eqn:T;
          [apply JoinChannel_try_codes in T | |]
      end;
      intros R; inversion R; subst; lia.
Qed.
End EngineFacts.

(** C4.  [SetConnectionState] always returns and stores the new state.  With
    a sink registered, the sink gets [onConnectionStateChanged] with the new
    state and the reason as passed when the state stored before was another
    one, and gets nothing when it was the same; without a sink nothing is
    delivered.  Nothing else changes. *)
Theorem SetConnectionState_notifies_on_change {W : Type}
    (new_state : RtcEngineImpl.ConnectionState) (reason : Z)
    (e : RtcEngineImpl.engine W) :
  exists e',
    RtcEngineImpl.SetConnectionState new_state reason e
    = RtcEngineImpl.Returns tt e'
    /\ RtcEngineImpl.connection_state_ e' = new_state
    /\ (forall sink, RtcEngineImpl.callback_ e = Some sink ->
        (RtcEngineImpl.connection_state_ e <> new_state ->
         RtcEngineImpl.received e'
         = RtcEngineImpl.received e
           ++ [(sink,
                RtcEngineImpl.OnConnectionStateChanged
                  (RtcEngineImpl.static_cast_int new_state) reason)])
        /\ (RtcEngineImpl.connection_state_ e = new_state ->
            RtcEngineImpl.received e' = RtcEngineImpl.received e))
    /\ (RtcEngineImpl.callback_ e = None ->
        RtcEngineImpl.received e' = RtcEngineImpl.received e)
    /\ RtcEngineImpl.membership e' = RtcEngineImpl.membership e
    /\ RtcEngineImpl.webrtc_wrapper_ e' = RtcEngineImpl.webrtc_wrapper_ e
    /\ RtcEngineImpl.callback_ e' = RtcEngineImpl.callback_ e.
Proof.
  destruct e as [ww s c u t wt ss m cb r].
  destruct (RtcEngineImpl.ConnectionState_eqb s new_state) eqn:E.
  - apply ConnectionState_eqb_eq in E. subst new_state.
    eexists. split.
    + unfold RtcEngineImpl.SetConnectionState, RtcEngineImpl.bind,
        RtcEngineImpl.get, RtcEngineImpl.put, RtcEngineImpl.ret. simpl.
      destruct s; reflexivity.
    + simpl. repeat split; try reflexivity.
      intros Hne. exfalso. apply Hne. reflexivity.
  - assert (Hne : s <> new_state).
    { intros Heq. apply ConnectionState_eqb_eq in Heq. congruence. }
    destruct cb as [sink|]; eexists; (split;
      [ unfold RtcEngineImpl.SetConnectionState, RtcEngineImpl.bind,
          RtcEngineImpl.get, RtcEngineImpl.put, RtcEngineImpl.ret,
          RtcEngineImpl.InvokeCallback; simpl; rewrite E; reflexivity |]);
      simpl; repeat split; try reflexivity; try discriminate;
      intros; congruence.
Qed.

(** C2.  In the [try] block of [JoinChannel], entered after the checks:
    every call that returns a non-zero code leaves the state [FAILED], and
    the code tells the failure: -4 when [CreatePeerConnection] returned
    false, -5 when [AddLocalStreams] returned false, in both cases with
    channel, user id and token holding the arguments; -6 when a statement
    threw - one of the three string copies, the start of the worker thread,
    or the closure of the success notification - with all three fields
    empty.  Each of these failures does make the call return its code. *)
Theorem JoinChannel_failures_set_failed {W : Type}
    `{RtcEngineImpl.Negotiator W} (fault : option RtcEngineImpl.throw_point)
    (w : W) (token channel_name user_id : string)
    (e : RtcEngineImpl.engine W) :
  let created := RtcEngineImpl.CreatePeerConnection w in
  let added := RtcEngineImpl.AddLocalStreams (snd created) in
  let call :=
    RtcEngineImpl.JoinChannel_try fault w token channel_name user_id e in
  (forall code e', call = RtcEngineImpl.Returns code e' -> code <> 0%Z ->
     RtcEngineImpl.connection_state_ e' = RtcEngineImpl.FAILED
     /\ ((code = (-4)%Z /\ fst created = false
          /\ RtcEngineImpl.membership e' = (channel_name, user_id, token))
         \/ (code = (-5)%Z /\ fst created = true /\ fst added = false
             /\ RtcEngineImpl.membership e' = (channel_name, user_id, token))
         \/ (code = (-6)%Z /\ fault <> None
             /\ RtcEngineImpl.membership e'
                = (""%string, ""%string, ""%string))))
  /\ (RtcEngineImpl.copy_throws fault = false -> fst created = false ->
      exists e', call = RtcEngineImpl.Returns (-4)%Z e')
  /\ (RtcEngineImpl.copy_throws fault = false -> fst created = true ->
      fst added = false ->
      exists e', call = RtcEngineImpl.Returns (-5)%Z e')
  /\ (RtcEngineImpl.copy_throws fault = true
      \/ (fst created = true /\ fst added = true
          /\ fault = Some RtcEngineImpl.start_thread)
      \/ (fst created = true /\ fst added = true
          /\ fault = Some RtcEngineImpl.capture_success
          /\ RtcEngineImpl.worker_thread_ e = false) ->
      exists e', call = RtcEngineImpl.Returns (-6)%Z e').
Proof.
  cbv zeta. destruct e as [ww s c u t wt ss m cb r].
  unfold RtcEngineImpl.JoinChannel_try.
  destruct (fst (RtcEngineImpl.CreatePeerConnection w)),
    (fst (RtcEngineImpl.AddLocalStreams
            (snd (RtcEngineImpl.CreatePeerConnection w))));
    destruct fault as [[]|], cb, s;
    cbv [RtcEngineImpl.JoinChannel_catch RtcEngineImpl.start_worker
         RtcEngineImpl.SetConnectionState RtcEngineImpl.InvokeCallback
         RtcEngineImpl.bind RtcEngineImpl.get RtcEngineImpl.put
         RtcEngineImpl.ret RtcEngineImpl.membership
         RtcEngineImpl.set_webrtc_wrapper_ RtcEngineImpl.set_connection_state_
         RtcEngineImpl.set_current_channel_ RtcEngineImpl.set_current_user_id_
         RtcEngineImpl.set_current_token_ RtcEngineImpl.set_worker_thread_
         RtcEngineImpl.set_should_stop_ RtcEngineImpl.deliver
         RtcEngineImpl.webrtc_wrapper_ RtcEngineImpl.connection_state_
         RtcEngineImpl.current_channel_ RtcEngineImpl.current_user_id_
         RtcEngineImpl.current_token_ RtcEngineImpl.worker_thread_
         RtcEngineImpl.should_stop_ RtcEngineImpl.callback_
         RtcEngineImpl.received RtcEngineImpl.throws_at
         RtcEngineImpl.copy_throws RtcEngineImpl.throw_point_eqb negb orb
         RtcEngineImpl.ConnectionState_eqb RtcEngineImpl.static_cast_int
         Z.eqb Pos.eqb];
    (split;
     [ intros code e' E Hcode; destruct wt; inversion E; subst;
       try (exfalso; apply Hcode; reflexivity);
       (split; [reflexivity|]);
       first [ left; (split; [reflexivity|]); (split; [reflexivity|]);
               reflexivity
             | right; left; (split; [reflexivity|]); (split; [reflexivity|]);
               (split; [reflexivity|]); reflexivity
             | right; right; (split; [reflexivity|]);
               (split; [discriminate|]); reflexivity ]
     | repeat split; intros;
       repeat match goal with
              | H : _ \/ _ |- _ => destruct H
              | H : _ /\ _ |- _ => destruct H
              end;
       try discriminate; subst; eexists; reflexivity ]).
Qed.

(** The failures on concrete orchestrators: an uninitialised negotiator, a
    negotiator that cannot attach streams, a worker thread that cannot be
    started, and a success notification that cannot be allocated. *)
Lemma JoinChannel_failures_set_failed_witness :
  (exists e',
     RtcEngineImpl.JoinChannel_try (H := RtcEngineImpl.WebRTC)
       None WebRTCWrapper.fresh "t" "c" "u"
       (RtcEngineImpl.constructed WebRTCWrapper.fresh (Some 1%nat))
     = RtcEngineImpl.Returns (-4)%Z e')
  /\ (exists e',
        RtcEngineImpl.JoinChannel_try (H := RtcEngineImpl.streams_fail)
          None tt "t" "c" "u" (RtcEngineImpl.constructed tt (Some 1%nat))
        = RtcEngineImpl.Returns (-5)%Z e')
  /\ (exists e',
        RtcEngineImpl.JoinChannel_try (H := RtcEngineImpl.WebRTC)
          (Some RtcEngineImpl.start_thread)
          (snd (WebRTCWrapper.Initialize WebRTCWrapper.fresh)) "t" "c" "u"
          RtcEngineImpl.created_engine
        = RtcEngineImpl.Returns (-6)%Z e')
  /\ (exists e',
        RtcEngineImpl.JoinChannel_try (H := RtcEngineImpl.WebRTC)
          (Some RtcEngineImpl.capture_success)
          (snd (WebRTCWrapper.Initialize WebRTCWrapper.fresh)) "t" "c" "u"
          RtcEngineImpl.created_engine
        = RtcEngineImpl.Returns (-6)%Z e').
Proof.
  split; [|split; [|split]].
  - apply (JoinChannel_failures_set_failed (H := RtcEngineImpl.WebRTC)
             None WebRTCWrapper.fresh "t" "c" "u"); reflexivity.
  - apply (JoinChannel_failures_set_failed (H := RtcEngineImpl.streams_fail)
             None tt "t" "c" "u"); reflexivity.
  - apply (JoinChannel_failures_set_failed (H := RtcEngineImpl.WebRTC)
             (Some RtcEngineImpl.start_thread)
             (snd (WebRTCWrapper.Initialize WebRTCWrapper.fresh))
             "t" "c" "u").
    right. left. repeat split.
  - apply (JoinChannel_failures_set_failed (H := RtcEngineImpl.WebRTC)
             (Some RtcEngineImpl.capture_success)
             (snd (WebRTCWrapper.Initialize WebRTCWrapper.fresh))
             "t" "c" "u").
    right. right. repeat split.
Defined.

(** C1, at the input where the code leaves it: on the orchestrator
    [nativeCreateEngine] builds ([DISCONNECTED], no channel, negotiator
    initialised, sink registered), [JoinChannel("t","c","u")] takes
    [state_mutex_] and then waits for it again inside [IsInChannel]: the call
    does not return, the state stays [DISCONNECTED], no channel is stored and
    the sink gets nothing. *)
Theorem join_on_created_engine_blocks :
  RtcEngineImpl.JoinChannel (H := RtcEngineImpl.WebRTC)
    RtcEngineImpl.relock_blocks None "t" "c" "u" RtcEngineImpl.created_engine
  = RtcEngineImpl.Blocks
      (RtcEngineImpl.set_state_mutex_ true RtcEngineImpl.created_engine)
  /\ RtcEngineImpl.connection_state_
       (RtcEngineImpl.set_state_mutex_ true RtcEngineImpl.created_engine)
     = RtcEngineImpl.DISCONNECTED
  /\ RtcEngineImpl.current_channel_
       (RtcEngineImpl.set_state_mutex_ true RtcEngineImpl.created_engine)
     = ""%string
  /\ RtcEngineImpl.received
       (RtcEngineImpl.set_state_mutex_ true RtcEngineImpl.created_engine)
     = [].
Proof. repeat split. Qed.

(** C9, at the input where the code leaves it: on the same orchestrator,
    which is in no channel, [LeaveChannel] waits for [state_mutex_] inside
    [IsInChannel] and does not return 0.  Up to there it has delivered
    nothing and changed neither the connection state nor the membership. *)
Theorem leave_on_created_engine_blocks :
  exists e',
    RtcEngineImpl.LeaveChannel (H := RtcEngineImpl.WebRTC)
      RtcEngineImpl.relock_blocks RtcEngineImpl.created_engine
    = RtcEngineImpl.Blocks e'
    /\ RtcEngineImpl.state_mutex_ e' = true
    /\ RtcEngineImpl.received e'
       = RtcEngineImpl.received RtcEngineImpl.created_engine
    /\ RtcEngineImpl.connection_state_ e'
       = RtcEngineImpl.connection_state_ RtcEngineImpl.created_engine
    /\ RtcEngineImpl.membership e'
       = RtcEngineImpl.membership RtcEngineImpl.created_engine.
Proof.
  eexists. split; [reflexivity|]. split; [reflexivity|].
  split; [reflexivity|]. split; reflexivity.
Qed.

(** C10, at the inputs where the code leaves it: neither on an orchestrator
    that is in a channel nor on a new one does [JoinChannel] with an empty
    token reach its checks; it returns neither -1 nor -3. *)
Theorem join_checks_not_reached :
  RtcEngineImpl.JoinChannel (H := RtcEngineImpl.WebRTC)
    RtcEngineImpl.relock_blocks None "" "c" "u" RtcEngineImpl.joined_engine
  = RtcEngineImpl.Blocks
      (RtcEngineImpl.set_state_mutex_ true RtcEngineImpl.joined_engine)
  /\ RtcEngineImpl.JoinChannel (H := RtcEngineImpl.WebRTC)
       RtcEngineImpl.relock_blocks None "" "c" "u"
       RtcEngineImpl.created_engine
     = RtcEngineImpl.Blocks
         (RtcEngineImpl.set_state_mutex_ true RtcEngineImpl.created_engine).
Proof. split; reflexivity. Qed.

(** C3, at the input where the code leaves it: on the orchestrator
    [nativeCreateEngine] builds, a [JoinChannel] in which the token, the
    channel name or the user id is empty does not return the validation code
    -3.  Like every [JoinChannel] it takes [state_mutex_] and then waits for
    it again inside [IsInChannel], before an argument is looked at: the
    call does not return at all.  The state stays [DISCONNECTED] and the
    membership is untouched. *)
Theorem empty_arguments_not_validated :
  (forall token channel_name user_id : string,
     RtcEngineImpl.empty token || RtcEngineImpl.empty channel_name
     || RtcEngineImpl.empty user_id = true ->
     RtcEngineImpl.JoinChannel (H := RtcEngineImpl.WebRTC)
       RtcEngineImpl.relock_blocks None token channel_name user_id
       RtcEngineImpl.created_engine
     = RtcEngineImpl.Blocks
         (RtcEngineImpl.set_state_mutex_ true RtcEngineImpl.created_engine))
  /\ (forall code e',
        RtcEngineImpl.JoinChannel (H := RtcEngineImpl.WebRTC)
          RtcEngineImpl.relock_blocks None "t" "" "u"
          RtcEngineImpl.created_engine
        <> RtcEngineImpl.Returns code e')
  /\ RtcEngineImpl.connection_state_
       (RtcEngineImpl.set_state_mutex_ true RtcEngineImpl.created_engine)
     = RtcEngineImpl.DISCONNECTED
  /\ RtcEngineImpl.membership
       (RtcEngineImpl.set_state_mutex_ true RtcEngineImpl.created_engine)
     = (""%string, ""%string, ""%string).
Proof.
  split; [|split; [|split; reflexivity]].
  - intros token channel_name user_id _.
    apply (JoinChannel_never_returns (H := RtcEngineImpl.WebRTC)).
  - intros code e'.
    rewrite (JoinChannel_never_returns (H := RtcEngineImpl.WebRTC)).
    discriminate.
Qed.

(** What the validation does where the nested lock proceeds, on an
    orchestrator with no channel joined and a negotiator present:
    [JoinChannel] with an empty token, channel name or user id returns -3;
    the connection state is the one before the call, the membership fields
    are not modified and nothing is delivered to the sink. *)
Lemma JoinChannel_rejects_empty_arguments {W : Type}
    `{RtcEngineImpl.Negotiator W} (fault : option RtcEngineImpl.throw_point)
    (token channel_name user_id : string) (e : RtcEngineImpl.engine W) :
  RtcEngineImpl.current_channel_ e = ""%string ->
  RtcEngineImpl.webrtc_wrapper_ e <> None ->
  RtcEngineImpl.empty token || RtcEngineImpl.empty channel_name
  || RtcEngineImpl.empty user_id = true ->
  exists e',
    RtcEngineImpl.JoinChannel RtcEngineImpl.relock_proceeds fault
      token channel_name user_id e
    = RtcEngineImpl.Returns (-3)%Z e'
    /\ RtcEngineImpl.connection_state_ e' = RtcEngineImpl.connection_state_ e
    /\ RtcEngineImpl.membership e' = RtcEngineImpl.membership e
    /\ RtcEngineImpl.received e' = RtcEngineImpl.received e
    /\ RtcEngineImpl.webrtc_wrapper_ e' = RtcEngineImpl.webrtc_wrapper_ e.
Proof.
  destruct e as [[w|] s c u t wt ss m cb r]; simpl; intros -> Hw Hempty;
    [|contradiction Hw; reflexivity].
  exists (RtcEngineImpl.set_state_mutex_ false
            (RtcEngineImpl.mkEngine (Some w) s "" u t wt ss m cb r)).
  split; [|repeat split].
  unfold RtcEngineImpl.JoinChannel, RtcEngineImpl.lock_guard,
    RtcEngineImpl.IsInChannel, RtcEngineImpl.lock_guard.
  destruct m;
    cbv [RtcEngineImpl.bind RtcEngineImpl.get RtcEngineImpl.put
         RtcEngineImpl.ret RtcEngineImpl.state_mutex_
         RtcEngineImpl.set_state_mutex_ RtcEngineImpl.current_channel_
         RtcEngineImpl.webrtc_wrapper_ negb];
    cbv [RtcEngineImpl.empty] in Hempty |- *; rewrite Hempty; reflexivity.
Qed.

(** ** The parser and the configuration *)

Section StringFacts.
Import StdString.

Lemma length_from pos : forall s,
  String.length (from pos s) = (String.length s - pos)%nat.
Proof.
  induction pos as [|pos IH]; intros [|c s]; simpl; try reflexivity.
  apply IH.
Qed.

Lemma length_substring n : forall m s,
  (String.length (String.substring n m s) <= String.length s - n)%nat.
Proof.
  induction n as [|n IHn]; intros m s.
  - revert s. induction m as [|m IHm]; intros [|c s]; simpl; try lia.
    specialize (IHm s). lia.
  - destruct s as [|c s]; simpl; [lia | apply IHn].
Qed.

Lemma length_substr pos count s :
  (String.length (substr pos count s) <= String.length s - pos)%nat.
Proof. apply length_substring. Qed.

Lemma find_in_bounds c s : forall pos i,
  find_in c s pos = Some i -> (pos <= i < pos + String.length s)%nat.
Proof.
  induction s as [|d s IH]; intros pos i; simpl; [discriminate|].
  destruct (Ascii.eqb d c).
  - intros [= <-]. lia.
  - intros E. apply IH in E. lia.
Qed.

Lemma find_bounds c pos s i :
  find c pos s = Some i -> (pos <= i < String.length s)%nat.
Proof.
  unfold find. intros E. apply find_in_bounds in E.
  rewrite length_from in E. lia.
Qed.

Lemma at_bounds s : forall i c, at_ s i = Some c -> (i < String.length s)%nat.
Proof.
  unfold at_. induction s as [|d s IH]; intros [|i] c; simpl;
    try discriminate; intros E; [lia|]. apply IH in E. lia.
Qed.

Lemma empty_string_length s :
  empty_string s = false -> (1 <= String.length s)%nat.
Proof. destruct s; simpl; [discriminate | lia]. Qed.
End StringFacts.

Section ParserFacts.
Import StdString Json.
Context `{Floating}.

Lemma length_Trim s : (String.length (Trim s) <= String.length s)%nat.
Proof.
  unfold Trim. destruct (find_first_not_of s); [|simpl; lia].
  destruct (find_last_not_of s); [|simpl; lia].
  pose proof (length_substr n (size_t_sub n0 n + 1) s). lia.
Qed.

Lemma length_inside json :
  (String.length (inside json) <= String.length json - 1)%nat.
Proof.
  unfold inside.
  pose proof (length_Trim
                (substr 1 (size_t_sub (String.length json) 2) json)).
  pose proof (length_substr 1 (size_t_sub (String.length json) 2) json).
  lia.
Qed.

Lemma skip_spaces_in_ge s : forall pos, (pos <= skip_spaces_in s pos)%nat.
Proof.
  induction s as [|c s IH]; intros pos; simpl; [lia|].
  destruct (isspace c); [|lia]. specialize (IH (S pos)). lia.
Qed.

Lemma skip_spaces_ge content pos : (pos <= skip_spaces content pos)%nat.
Proof. apply skip_spaces_in_ge. Qed.

Lemma matching_ge open close s : forall count pos,
  (pos <= matching open close count s pos)%nat.
Proof.
  induction s as [|c s IH]; intros count pos; simpl; [lia|].
  destruct (count >? 0)%Z; [|lia].
  match goal with |- (_ <= matching _ _ ?k _ _)%nat =>
    specialize (IH k (S pos)) end. lia.
Qed.

Lemma primitive_end_ge s : forall pos, (pos <= primitive_end s pos)%nat.
Proof.
  induction s as [|c s IH]; intros pos; simpl; [lia|].
  destruct (Ascii.eqb c "," || Ascii.eqb c "}" || Ascii.eqb c "]"); [lia|].
  specialize (IH (S pos)). lia.
Qed.

Lemma FindValueEnd_ge str start : (start <= FindValueEnd str start)%nat.
Proof.
  unfold FindValueEnd. destruct (at_ str start) as [c|] eqn:E; [|lia].
  apply at_bounds in E.
  destruct (Ascii.eqb c "034").
  - destruct (find "034" (S start) str) as [i|] eqn:F; [|lia].
    apply find_bounds in F. lia.
  - destruct (Ascii.eqb c "{").
    + pose proof (matching_ge "{" "}" (from (S start) str) 1 (S start)). lia.
    + destruct (Ascii.eqb c "[").
      * pose proof (matching_ge "[" "]" (from (S start) str) 1 (S start)).
        lia.
      * apply primitive_end_ge.
Qed.

(** [substr] is called with a position inside the text everywhere in the
    parser, so none of its calls throws [std::out_of_range]: in [Trim], in
    the two loops, and (on a text that is not empty) in [ParseObject],
    [ParseArray] and [ParseString]. *)
Lemma find_first_not_of_in_bounds s : forall pos i,
  find_first_not_of_in s pos = Some i ->
  (pos <= i < pos + String.length s)%nat.
Proof.
  induction s as [|c s IH]; intros pos i; simpl; [discriminate|].
  destruct (trimmed_char c).
  - intros E. apply IH in E. lia.
  - intros [= <-]. lia.
Qed.

Lemma skip_spaces_in_le s : forall pos,
  (skip_spaces_in s pos <= pos + String.length s)%nat.
Proof.
  induction s as [|c s IH]; intros pos; simpl; [lia|].
  destruct (isspace c); [|lia]. specialize (IH (S pos)). lia.
Qed.

Lemma substr_positions_in_range content :
  (forall start, find_first_not_of content = Some start ->
                 (start <= String.length content)%nat)
  /\ (forall pos key_start,
        find "034" pos content = Some key_start ->
        (S key_start <= String.length content)%nat)
  /\ (forall key_end colon,
        find ":" key_end content = Some colon ->
        (skip_spaces content (S colon) <= String.length content)%nat)
  /\ (forall pos, (pos < String.length content)%nat ->
        (skip_spaces content pos <= String.length content)%nat)
  /\ (empty_string content = false -> (1 <= String.length content)%nat).
Proof.
  split; [|split; [|split; [|split]]].
  - intros start E. apply find_first_not_of_in_bounds in E. lia.
  - intros pos key_start E. apply find_bounds in E. lia.
  - intros key_end colon E. apply find_bounds in E.
    unfold skip_spaces. pose proof (skip_spaces_in_le
                                      (from (S colon) content) (S colon)).
    rewrite length_from in *. lia.
  - intros pos Hpos. unfold skip_spaces.
    pose proof (skip_spaces_in_le (from pos content) pos).
    rewrite length_from in *. lia.
  - apply empty_string_length.
Qed.

(** What is cut out of a text has no more opening brackets than the
    text. *)
Lemma opening_brackets_substring s : forall pos count,
  (opening_brackets (String.substring pos count s) <= opening_brackets s)%nat.
Proof.
  induction s as [|c s IH]; intros [|pos] [|count]; simpl; try lia.
  - specialize (IH 0%nat count). lia.
  - specialize (IH pos 0%nat). lia.
  - specialize (IH pos (S count)). lia.
Qed.

Lemma opening_brackets_substr pos count s :
  (opening_brackets (substr pos count s) <= opening_brackets s)%nat.
Proof. unfold substr. apply opening_brackets_substring. Qed.

Lemma opening_brackets_Trim s :
  (opening_brackets (Trim s) <= opening_brackets s)%nat.
Proof.
  unfold Trim. destruct (find_first_not_of s); [|simpl; lia].
  destruct (find_last_not_of s); [|simpl; lia].
  apply opening_brackets_substr.
Qed.

Lemma opening_brackets_inside json :
  starts_with "{" json = true \/ starts_with "[" json = true ->
  (opening_brackets (inside json) < opening_brackets json)%nat.
Proof.
  destruct json as [|c rest]; simpl; [intros [E|E]; discriminate E|].
  intros Hopen.
  assert (Hc : is_opening c = true).
  { unfold is_opening. destruct Hopen as [-> | ->];
      [reflexivity | apply orb_true_r]. }
  rewrite Hc. unfold inside.
  pose proof (opening_brackets_Trim
                (substr 1 (size_t_sub (String.length (String c rest)) 2)
                   (String c rest))) as Ht.
  unfold substr in Ht at 2. cbn [String.substring] in Ht.
  pose proof (opening_brackets_substring rest 0
                (N.to_nat
                   (N.min (size_t_sub (String.length (String c rest)) 2)
                      (N.of_nat (String.length (String c rest) - 1))))).
  lia.
Qed.

(** The loops end within their budget when the nested calls return. *)
Lemma ParseObject_loop_returns (Parse : string -> option JsonValue)
    (content : string) :
  (forall pos count,
     exists v, Parse (Trim (substr pos count content)) = Some v) ->
  forall budget pos entries,
    (String.length content - pos < budget)%nat ->
    exists r, ParseObject_loop Parse budget content pos entries = Some r.
Proof.
  intros HParse. induction budget as [|budget IH]; intros pos entries Hb;
    [lia|].
  simpl. destruct (pos <? String.length content)%nat eqn:Hpos; simpl;
    [|eauto].
  apply Nat.ltb_lt in Hpos.
  destruct (find "034" pos content) as [key_start|] eqn:F1; [|eauto].
  destruct (find "034" (S key_start) content) as [key_end|] eqn:F2; [|eauto].
  destruct (find ":" key_end content) as [colon|] eqn:F3; [|eauto].
  apply find_bounds in F1, F2, F3.
  set (pos1 := skip_spaces content (S colon)).
  set (value_end := FindValueEnd content pos1).
  destruct (HParse pos1 (size_t_sub value_end pos1)) as [value ->].
  destruct (find "," value_end content) as [comma|] eqn:F4; [|eauto].
  apply find_bounds in F4.
  pose proof (skip_spaces_ge content (S colon)).
  pose proof (FindValueEnd_ge content pos1).
  apply IH. unfold value_end, pos1 in *. lia.
Qed.

Lemma ParseArray_loop_returns (Parse : string -> option JsonValue)
    (content : string) :
  (forall pos count,
     exists v, Parse (Trim (substr pos count content)) = Some v) ->
  forall budget pos items,
    (String.length content - pos < budget)%nat ->
    exists r, ParseArray_loop Parse budget content pos items = Some r.
Proof.
  intros HParse. induction budget as [|budget IH]; intros pos items Hb;
    [lia|].
  simpl. destruct (pos <? String.length content)%nat eqn:Hpos; simpl;
    [|eauto].
  apply Nat.ltb_lt in Hpos.
  set (pos1 := skip_spaces content pos).
  set (value_end := FindValueEnd content pos1).
  destruct (HParse pos1 (size_t_sub value_end pos1)) as [value ->].
  destruct (find "," value_end content) as [comma|] eqn:F4; [|eauto].
  apply find_bounds in F4.
  pose proof (skip_spaces_ge content pos).
  pose proof (FindValueEnd_ge content pos1).
  apply IH. unfold value_end, pos1 in *. lia.
Qed.

(** [Parse] returns whenever the stack has room for one call more than the
    text has opening brackets. *)
Lemma Parse_depth_returns : forall depth json,
  (opening_brackets json < depth)%nat ->
  exists v, Parse_depth depth json = Some v.
Proof.
  induction depth as [|depth IH]; intros json Hopen; [lia|].
  simpl. pose proof (opening_brackets_Trim json) as Ht.
  destruct (empty_string (Trim json)); [eauto|].
  assert (Hnested : starts_with "{" (Trim json) = true
                    \/ starts_with "[" (Trim json) = true ->
                    forall pos count,
                      exists v,
                        Parse_depth depth
                          (Trim (substr pos count (inside (Trim json))))
                        = Some v).
  { intros Hstart pos count. apply IH.
    pose proof (opening_brackets_inside (Trim json) Hstart).
    pose proof (opening_brackets_Trim
                  (substr pos count (inside (Trim json)))).
    pose proof (opening_brackets_substr pos count (inside (Trim json))).
    lia. }
  destruct (starts_with "{" (Trim json)) eqn:Hobj.
  { unfold ParseObject.
    destruct (empty_string (inside (Trim json))); [eauto|].
    destruct (ParseObject_loop_returns (Parse_depth depth)
                (inside (Trim json)) (Hnested (or_introl eq_refl))
                (S (String.length (inside (Trim json)))) 0%nat [])
      as [r ->]; [lia | eauto]. }
  destruct (starts_with "[" (Trim json)) eqn:Harr.
  { unfold ParseArray.
    destruct (empty_string (inside (Trim json))); [eauto|].
    destruct (ParseArray_loop_returns (Parse_depth depth)
                (inside (Trim json)) (Hnested (or_intror eq_refl))
                (S (String.length (inside (Trim json)))) 0%nat [])
      as [r ->]; [lia | eauto]. }
  destruct (starts_with "034" (Trim json)); [eauto|].
  destruct (String.eqb (Trim json) "true" || String.eqb (Trim json) "false");
    [eauto|].
  destruct (String.eqb (Trim json) "null"); eauto.
Qed.


Lemma ParseObject_type (P : string -> option JsonValue) json v :
  ParseObject P json = Some v -> type v = OBJECT.
Proof.
  unfold ParseObject. destruct (empty_string (inside json)).
  - intros [= <-]. reflexivity.
  - destruct (ParseObject_loop P _ _ _ _); [|discriminate].
    intros [= <-]. reflexivity.
Qed.

Lemma ParseArray_type (P : string -> option JsonValue) json v :
  ParseArray P json = Some v -> type v = ARRAY.
Proof.
  unfold ParseArray. destruct (empty_string (inside json)).
  - intros [= <-]. reflexivity.
  - destruct (ParseArray_loop P _ _ _ _); [|discriminate].
    intros [= <-]. reflexivity.
Qed.

Lemma ParseNumber_type trimmed :
  type (ParseNumber trimmed) = NUMBER
  \/ type (ParseNumber trimmed) = NULL_VALUE.
Proof.
  unfold ParseNumber.
  destruct (find "." 0 trimmed);
    [destruct (stod trimmed) | destruct (stoi trimmed)];
    simpl; auto.
Qed.

(** The kind of a value [Parse] returns is the one the first character of
    the trimmed text announces. *)
Lemma Parse_depth_kind depth json v :
  Parse_depth depth json = Some v ->
  (type v = OBJECT <-> starts_with "{" (Trim json) = true)
  /\ (type v = ARRAY <-> starts_with "[" (Trim json) = true)
  /\ (type v = STRING <-> starts_with "034" (Trim json) = true)
  /\ (type v = BOOLEAN
      <-> Trim json = "true"%string \/ Trim json = "false"%string).
Proof.
  destruct depth as [|depth]; [discriminate|].
  cbn [Parse_depth]. intros Hv.
  destruct (Trim json) as [|c rest] eqn:Ht.
  { cbn in Hv. injection Hv as <-. cbn.
    repeat split; intros; try discriminate; intuition discriminate. }
  cbn [empty_string starts_with] in *.
  destruct (Ascii.eqb c "{") eqn:Hobj.
  { apply ParseObject_type in Hv. apply Ascii.eqb_eq in Hobj. subst c.
    rewrite Hv. cbn.
    repeat split; intros; try discriminate; intuition discriminate. }
  destruct (Ascii.eqb c "[") eqn:Harr.
  { apply ParseArray_type in Hv. apply Ascii.eqb_eq in Harr. subst c.
    rewrite Hv. cbn.
    repeat split; intros; try discriminate; intuition discriminate. }
  destruct (Ascii.eqb c "034") eqn:Hstr.
  { injection Hv as <-. apply Ascii.eqb_eq in Hstr. subst c. cbn.
    repeat split; intros; try discriminate; intuition discriminate. }
  destruct (String.eqb (String c rest) "true") eqn:Htrue.
  { injection Hv as <-. apply String.eqb_eq in Htrue. cbn.
    repeat split; intros; try discriminate; auto. }
  destruct (String.eqb (String c rest) "false") eqn:Hfalse.
  { injection Hv as <-. apply String.eqb_eq in Hfalse. cbn.
    repeat split; intros; try discriminate; auto. }
  apply String.eqb_neq in Htrue, Hfalse. cbn [orb] in Hv.
  assert (Hkind : type v = NUMBER \/ type v = NULL_VALUE).
  { destruct (String.eqb (String c rest) "null").
    - injection Hv as <-. right. reflexivity.
    - injection Hv as <-. apply ParseNumber_type. }
  repeat split; intros; try discriminate;
    try (destruct Hkind; congruence); intuition congruence.
Qed.

(** More stack does not change a result. *)
Lemma ParseObject_loop_more (P P' : string -> option JsonValue) :
  (forall s v, P s = Some v -> P' s = Some v) ->
  forall budget content pos entries r,
    ParseObject_loop P budget content pos entries = Some r ->
    ParseObject_loop P' budget content pos entries = Some r.
Proof.
  intros HP. induction budget as [|budget IH]; intros content pos entries r;
    [discriminate|].
  simpl. destruct (negb (pos <? String.length content)%nat); [auto|].
  destruct (find "034" pos content) as [key_start|]; [|auto].
  destruct (find "034" (S key_start) content) as [key_end|]; [|auto].
  destruct (find ":" key_end content) as [colon|]; [|auto].
  match goal with
  | |- context [P ?x] => destruct (P x) as [value|] eqn:E; [|discriminate]
  end.
  rewrite (HP _ _ E).
  destruct (find "," _ content); [apply IH | auto].
Qed.

Lemma ParseArray_loop_more (P P' : string -> option JsonValue) :
  (forall s v, P s = Some v -> P' s = Some v) ->
  forall budget content pos items r,
    ParseArray_loop P budget content pos items = Some r ->
    ParseArray_loop P' budget content pos items = Some r.
Proof.
  intros HP. induction budget as [|budget IH]; intros content pos items r;
    [discriminate|].
  simpl. destruct (negb (pos <? String.length content)%nat); [auto|].
  match goal with
  | |- context [P ?x] => destruct (P x) as [value|] eqn:E; [|discriminate]
  end.
  rewrite (HP _ _ E).
  destruct (find "," _ content); [apply IH | auto].
Qed.

Lemma Parse_depth_unfold depth json :
  Parse_depth (S depth) json
  = if empty_string (Trim json) then Some null
    else if starts_with "{" (Trim json)
    then ParseObject (Parse_depth depth) (Trim json)
    else if starts_with "[" (Trim json)
    then ParseArray (Parse_depth depth) (Trim json)
    else if starts_with "034" (Trim json)
    then Some (mkJsonValue STRING false (double_of_int 0)
                 (ParseString (Trim json)) [] [])
    else if String.eqb (Trim json) "true" || String.eqb (Trim json) "false"
    then Some (mkJsonValue BOOLEAN (String.eqb (Trim json) "true")
                 (double_of_int 0) "" [] [])
    else if String.eqb (Trim json) "null" then Some null
    else Some (ParseNumber (Trim json)).
Proof. reflexivity. Qed.

Lemma Parse_depth_S : forall depth json v,
  Parse_depth depth json = Some v -> Parse_depth (S depth) json = Some v.
Proof.
  induction depth as [|depth IH]; intros json v; [discriminate|].
  intros Hv. rewrite Parse_depth_unfold in Hv |- *.
  destruct (empty_string (Trim json)); [exact Hv|].
  destruct (starts_with "{" (Trim json)).
  { unfold ParseObject in *.
    destruct (empty_string (inside (Trim json))); [exact Hv|].
    destruct (ParseObject_loop (Parse_depth depth) _ _ _ _) as [r|] eqn:E;
      [|discriminate Hv].
    rewrite (ParseObject_loop_more _ _ (IH) _ _ _ _ _ E). exact Hv. }
  destruct (starts_with "[" (Trim json)).
  { unfold ParseArray in *.
    destruct (empty_string (inside (Trim json))); [exact Hv|].
    destruct (ParseArray_loop (Parse_depth depth) _ _ _ _) as [r|] eqn:E;
      [|discriminate Hv].
    rewrite (ParseArray_loop_more _ _ (IH) _ _ _ _ _ E). exact Hv. }
  exact Hv.
Qed.

Lemma Parse_depth_more depth depth' json v :
  (depth <= depth')%nat ->
  Parse_depth depth json = Some v -> Parse_depth depth' json = Some v.
Proof.
  induction 1 as [|depth' Hle IH]; [auto|].
  intros Hv. apply Parse_depth_S, IH, Hv.
Qed.

(** [FromJson] returns a configuration whenever the parser has the stack it
    needs. *)
Lemma FromJson_returns stack json :
  (opening_brackets json < stack)%nat ->
  exists config, Config.FromJson stack json = Some config.
Proof.
  intros Hopen. unfold Config.FromJson, Parse.
  destruct (Parse_depth_returns stack json Hopen) as [v ->]. eauto.
Qed.


End ParserFacts.




(** * Further properties of the code *)

(** ** Sessions on one orchestrator *)

Ltac run_engine :=
  cbv [EngineSession.step EngineSession.run EngineSession.at_rest
       EngineSession.destructor
       RtcEngineImpl.JoinChannel RtcEngineImpl.LeaveChannel
       RtcEngineImpl.JoinChannel_try RtcEngineImpl.JoinChannel_catch
       RtcEngineImpl.start_worker RtcEngineImpl.IsInChannel
       RtcEngineImpl.GetCurrentChannel RtcEngineImpl.GetCurrentUserId
       RtcEngineImpl.GetConnectionState RtcEngineImpl.SetCallback
       RtcEngineImpl.lock_guard RtcEngineImpl.SetConnectionState
       RtcEngineImpl.InvokeCallback RtcEngineImpl.bind RtcEngineImpl.get
       RtcEngineImpl.put RtcEngineImpl.ret RtcEngineImpl.membership
       RtcEngineImpl.set_webrtc_wrapper_ RtcEngineImpl.set_connection_state_
       RtcEngineImpl.set_current_channel_ RtcEngineImpl.set_current_user_id_
       RtcEngineImpl.set_current_token_ RtcEngineImpl.set_worker_thread_
       RtcEngineImpl.set_should_stop_ RtcEngineImpl.set_state_mutex_
       RtcEngineImpl.set_callback_ RtcEngineImpl.deliver
       RtcEngineImpl.webrtc_wrapper_ RtcEngineImpl.connection_state_
       RtcEngineImpl.current_channel_ RtcEngineImpl.current_user_id_
       RtcEngineImpl.current_token_ RtcEngineImpl.worker_thread_
       RtcEngineImpl.should_stop_ RtcEngineImpl.state_mutex_
       RtcEngineImpl.callback_ RtcEngineImpl.received RtcEngineImpl.empty
       RtcEngineImpl.throws_at RtcEngineImpl.copy_throws
       RtcEngineImpl.throw_point_eqb negb orb andb
       RtcEngineImpl.ConnectionState_eqb RtcEngineImpl.static_cast_int
       Z.eqb Pos.eqb] in *.

Ltac in_codes := simpl; repeat (first [left; reflexivity | right]).

Section SessionFacts.
Import RtcEngineImpl.
Context {W : Type} `{Negotiator W}.
Implicit Types (e : engine W).

(** The shapes an orchestrator at rest can have. *)
Lemma at_rest_shapes e :
  EngineSession.at_rest e = true ->
  exists w ss cb r,
    (exists s, (s = DISCONNECTED \/ s = FAILED)
               /\ e = mkEngine (Some w) s "" "" "" false ss false cb r)
    \/ (exists c0 c u0 u t0 t wt s,
          ((wt = true /\ s = CONNECTED) \/ (wt = false /\ s = FAILED))
          /\ e = mkEngine (Some w) s (String c0 c) (String u0 u)
                   (String t0 t) wt ss false cb r).
Proof.
  destruct e as [[w|] s c u t wt ss [|] cb r]; run_engine;
    try discriminate.
  intros E. exists w, ss, cb, r.
  destruct c as [|c0 c].
  - left. destruct u, t, wt; try discriminate.
    exists s. split; [destruct s; try discriminate; auto | reflexivity].
  - right. destruct u as [|u0 u], t as [|t0 t]; try discriminate.
    exists c0, c, u0, u, t0, t, wt, s. split; [|reflexivity].
    destruct wt, s; try discriminate; auto.
Qed.

Lemma step_at_rest (c : EngineSession.command) e :
  EngineSession.at_rest e = true ->
  EngineSession.throws_after_start c = false ->
  exists code e',
    EngineSession.step relock_proceeds c e = Returns code e'
    /\ EngineSession.at_rest e' = true
    /\ In code [0; -1; -3; -4; -5; -6]%Z.
Proof.
  intros E Hc. apply at_rest_shapes in E.
  destruct E as (w & ss & cb & r & [(s & Hs & ->) | E]).
  - destruct c as [fault token channel_name user_id | | sink].
    + destruct fault as [[]|]; try discriminate Hc;
        (destruct token as [|t0 token], channel_name as [|c0 channel_name],
           user_id as [|u0 user_id];
         try (destruct Hs as [-> | ->]; run_engine; eexists; eexists;
              (split; [reflexivity|]); (split; [reflexivity | in_codes])));
        run_engine;
        destruct (fst (CreatePeerConnection w)),
          (fst (AddLocalStreams (snd (CreatePeerConnection w))));
        destruct cb; destruct Hs as [-> | ->];
        run_engine; eexists; eexists;
        (split; [reflexivity|]); (split; [reflexivity | in_codes]).
    + destruct Hs as [-> | ->]; run_engine; eexists; eexists;
        (split; [reflexivity|]); (split; [reflexivity | in_codes]).
    + destruct Hs as [-> | ->]; run_engine; eexists; eexists;
        (split; [reflexivity|]); (split; [reflexivity | in_codes]).
  - destruct E as (c0 & ch & u0 & u & t0 & t & wt & s & Hs & ->).
    destruct c as [fault token channel_name user_id | | sink].
    + destruct Hs as [[-> ->] | [-> ->]]; run_engine; eexists; eexists;
        (split; [reflexivity|]); (split; [reflexivity | in_codes]).
    + destruct Hs as [[-> ->] | [-> ->]]; destruct cb; run_engine;
        eexists; eexists;
        (split; [reflexivity|]); (split; [reflexivity | in_codes]).
    + destruct Hs as [[-> ->] | [-> ->]]; run_engine; eexists; eexists;
        (split; [reflexivity|]); (split; [reflexivity | in_codes]).
Qed.
(** While the worker of an earlier join is still joinable, no join
    succeeds: the assignment to [worker_thread_] would end the process. *)
Lemma join_with_running_worker fault token channel_name user_id e code e' :
  worker_thread_ e = true ->
  JoinChannel relock_proceeds fault token channel_name user_id e
  = Returns code e' ->
  code <> 0%Z.
Proof.
  destruct e as [ww s c u t wt ss m cb r]. simpl. intros ->.
  destruct m, c as [|c0 c]; run_engine;
    try (intros E; inversion E; discriminate).
  all: destruct ww as [w|]; run_engine;
    try (intros E; inversion E; discriminate).
  all: destruct token as [|t0 token], channel_name as [|c0 channel_name],
         user_id as [|u0 user_id]; run_engine;
    try (intros E; inversion E; discriminate).
  all: destruct fault as [[]|], s, cb; run_engine;
    try (intros E; inversion E; discriminate).
  all: destruct (fst (CreatePeerConnection w)); run_engine;
    try (intros E; inversion E; discriminate).
  all: destruct (fst (AddLocalStreams (snd (CreatePeerConnection w))));
    run_engine; intros E; inversion E; discriminate.
Qed.
End SessionFacts.

(** X1.  Where the nested lock proceeds, every sequence of [JoinChannel],
    [LeaveChannel] and [SetCallback] calls on an orchestrator at rest in
    which no join throws at the closure of its success notification - after
    the worker was started - runs to its end: no call blocks, none reaches
    [std::terminate], each returns one of 0, -1, -3, -4, -5, -6, and the
    orchestrator is at rest again - channel, user id and token all set or
    all empty, the worker running exactly in state [CONNECTED], the state
    [DISCONNECTED] or [FAILED] when no channel is stored.  Throws at the
    string copies and at the start of the worker are covered. *)
Theorem sessions_stay_at_rest {W : Type} `{RtcEngineImpl.Negotiator W}
    (cs : list EngineSession.command) (e : RtcEngineImpl.engine W) :
  EngineSession.at_rest e = true ->
  forallb (fun c => negb (EngineSession.throws_after_start c)) cs = true ->
  exists codes e',
    EngineSession.run RtcEngineImpl.relock_proceeds cs e
    = RtcEngineImpl.Returns codes e'
    /\ EngineSession.at_rest e' = true
    /\ length codes = length cs
    /\ Forall (fun code => In code [0; -1; -3; -4; -5; -6]%Z) codes.
Proof.
  revert e. induction cs as [|c cs IH]; intros e E Hcs.
  - exists [], e. repeat split; [exact E | constructor].
  - simpl in Hcs. apply andb_prop in Hcs. destruct Hcs as [Hc Hcs].
    apply negb_true_iff in Hc.
    destruct (step_at_rest c e E Hc) as (code & e1 & Hstep & E1 & Hcode).
    destruct (IH e1 E1 Hcs) as (codes & e2 & Hrun & E2 & Hlen & Hall).
    exists (code :: codes), e2.
    split.
    + simpl. unfold RtcEngineImpl.bind at 1. rewrite Hstep.
      unfold RtcEngineImpl.bind at 1. rewrite Hrun. reflexivity.
    + split; [exact E2|]. split; [simpl; congruence|].
      constructor; assumption.
Qed.

Lemma sessions_stay_at_rest_witness :
  exists codes e',
    EngineSession.run (H := RtcEngineImpl.WebRTC)
      RtcEngineImpl.relock_proceeds
      [EngineSession.Join None "t" "c" "u";
       EngineSession.Join None "t" "d" "u";
       EngineSession.Leave;
       EngineSession.Join (Some RtcEngineImpl.start_thread) "t" "c" "u";
       EngineSession.Leave]
      RtcEngineImpl.created_engine
    = RtcEngineImpl.Returns codes e'
    /\ EngineSession.at_rest e' = true
    /\ length codes = 5%nat
    /\ Forall (fun code => In code [0; -1; -3; -4; -5; -6]%Z) codes.
Proof.
  apply (sessions_stay_at_rest (H := RtcEngineImpl.WebRTC));
    reflexivity.
Defined.


(** X2.  Where the nested lock proceeds: on an orchestrator at rest outside
    a channel (state [DISCONNECTED] or [FAILED]) whose negotiator creates the
    peer connection and attaches the streams, [JoinChannel] with three
    non-empty arguments returns 0, stores channel, user id and token, starts
    the worker, keeps the negotiator as the two calls left it, ends in
    [CONNECTED], and delivers to the registered sink the change to
    [CONNECTING] (reason 1), the change to [CONNECTED] (reason 2) and
    [OnJoinChannelSuccess] with the channel, the user id and 100, in this
    order and nothing else. *)
Theorem join_enters_channel {W : Type} `{RtcEngineImpl.Negotiator W}
    (token channel_name user_id : string) (e : RtcEngineImpl.engine W)
    (w : W) (sink : RtcEngineImpl.Callback) :
  EngineSession.at_rest e = true ->
  RtcEngineImpl.empty (RtcEngineImpl.current_channel_ e) = true ->
  RtcEngineImpl.webrtc_wrapper_ e = Some w ->
  fst (RtcEngineImpl.CreatePeerConnection w) = true ->
  fst (RtcEngineImpl.AddLocalStreams
         (snd (RtcEngineImpl.CreatePeerConnection w))) = true ->
  RtcEngineImpl.callback_ e = Some sink ->
  RtcEngineImpl.empty token = false ->
  RtcEngineImpl.empty channel_name = false ->
  RtcEngineImpl.empty user_id = false ->
  exists e',
    RtcEngineImpl.JoinChannel RtcEngineImpl.relock_proceeds None
      token channel_name user_id e
    = RtcEngineImpl.Returns 0%Z e'
    /\ RtcEngineImpl.membership e' = (channel_name, user_id, token)
    /\ RtcEngineImpl.connection_state_ e' = RtcEngineImpl.CONNECTED
    /\ RtcEngineImpl.worker_thread_ e' = true
    /\ RtcEngineImpl.should_stop_ e' = false
    /\ RtcEngineImpl.webrtc_wrapper_ e'
       = Some (snd (RtcEngineImpl.AddLocalStreams
                      (snd (RtcEngineImpl.CreatePeerConnection w))))
    /\ RtcEngineImpl.received e'
       = RtcEngineImpl.received e
         ++ [(sink, RtcEngineImpl.OnConnectionStateChanged 2 1);
             (sink, RtcEngineImpl.OnConnectionStateChanged 3 2);
             (sink, RtcEngineImpl.OnJoinChannelSuccess
                      channel_name user_id 100)]
    /\ EngineSession.at_rest e' = true.
Proof.
  intros E Hch Hw Hc Ha Hcb Ht Hn Hu.
  apply at_rest_shapes in E.
  destruct E as (w0 & ss & cb & r & [(s & Hs & ->) | E]);
    [| destruct E as (c0 & ch & u0 & u & t0 & t & wt & s & Hs & ->);
       discriminate Hch].
  simpl in Hw, Hcb. injection Hw as ->. subst cb.
  destruct token as [|t0 token]; [discriminate|].
  destruct channel_name as [|c0 channel_name]; [discriminate|].
  destruct user_id as [|u0 user_id]; [discriminate|].
  destruct Hs as [-> | ->]; run_engine; rewrite Hc; run_engine; rewrite Ha;
    run_engine; eexists; (split; [reflexivity|]); run_engine;
    repeat (split; [reflexivity|]);
    (split; [rewrite <- !app_assoc; reflexivity | reflexivity]).
Qed.

Lemma join_enters_channel_witness :
  exists e',
    RtcEngineImpl.JoinChannel (H := RtcEngineImpl.WebRTC)
      RtcEngineImpl.relock_proceeds None "t" "c" "u"
      RtcEngineImpl.created_engine
    = RtcEngineImpl.Returns 0%Z e'
    /\ RtcEngineImpl.membership e' = ("c", "u", "t")%string
    /\ RtcEngineImpl.connection_state_ e' = RtcEngineImpl.CONNECTED
    /\ RtcEngineImpl.worker_thread_ e' = true
    /\ RtcEngineImpl.should_stop_ e' = false
    /\ RtcEngineImpl.webrtc_wrapper_ e'
       = Some (WebRTCWrapper.mkImpl true true true false false true false)
    /\ RtcEngineImpl.received e'
       = [(1%nat, RtcEngineImpl.OnConnectionStateChanged 2 1);
          (1%nat, RtcEngineImpl.OnConnectionStateChanged 3 2);
          (1%nat, RtcEngineImpl.OnJoinChannelSuccess "c" "u" 100)]
    /\ EngineSession.at_rest e' = true.
Proof.
  apply (join_enters_channel (H := RtcEngineImpl.WebRTC) "t" "c" "u"
           RtcEngineImpl.created_engine
           (snd (WebRTCWrapper.Initialize WebRTCWrapper.fresh)) 1%nat);
    reflexivity.
Defined.

(** X3.  Where the nested lock proceeds: on an orchestrator that holds a
    channel, [LeaveChannel] returns 0, raises the stop flag and joins the
    worker, closes the peer connection of the negotiator, empties channel,
    user id and token, ends in [DISCONNECTED], and delivers to the
    registered sink the change to [DISCONNECTED] with reason 6 (unless the
    state was [DISCONNECTED] already) followed by [OnLeaveChannel]. *)
Theorem leave_clears_session {W : Type} `{RtcEngineImpl.Negotiator W}
    (e : RtcEngineImpl.engine W) :
  RtcEngineImpl.empty (RtcEngineImpl.current_channel_ e) = false ->
  exists e',
    RtcEngineImpl.LeaveChannel RtcEngineImpl.relock_proceeds e
    = RtcEngineImpl.Returns 0%Z e'
    /\ RtcEngineImpl.membership e' = (""%string, ""%string, ""%string)
    /\ RtcEngineImpl.connection_state_ e' = RtcEngineImpl.DISCONNECTED
    /\ RtcEngineImpl.worker_thread_ e' = false
    /\ RtcEngineImpl.should_stop_ e' = true
    /\ RtcEngineImpl.state_mutex_ e' = false
    /\ RtcEngineImpl.webrtc_wrapper_ e'
       = option_map RtcEngineImpl.ClosePeerConnection
           (RtcEngineImpl.webrtc_wrapper_ e)
    /\ RtcEngineImpl.callback_ e' = RtcEngineImpl.callback_ e
    /\ RtcEngineImpl.received e'
       = RtcEngineImpl.received e
         ++ match RtcEngineImpl.callback_ e with
            | None => []
            | Some sink =>
                (if RtcEngineImpl.ConnectionState_eqb
                      (RtcEngineImpl.connection_state_ e)
                      RtcEngineImpl.DISCONNECTED
                 then []
                 else [(sink, RtcEngineImpl.OnConnectionStateChanged 1 6)])
                ++ [(sink, RtcEngineImpl.OnLeaveChannel)]
            end.
Proof.
  destruct e as [ww s c u t wt ss m cb r]. simpl.
  destruct c as [|c0 c]; [discriminate|]. intros _.
  destruct ww, m, cb, s; run_engine; eexists; (split; [reflexivity|]);
    run_engine; simpl; rewrite <- ?app_assoc, ?app_nil_r;
    repeat split; reflexivity.
Qed.

Lemma leave_clears_session_witness :
  exists e',
    RtcEngineImpl.LeaveChannel (H := RtcEngineImpl.WebRTC)
      RtcEngineImpl.relock_proceeds RtcEngineImpl.joined_engine
    = RtcEngineImpl.Returns 0%Z e'
    /\ RtcEngineImpl.membership e' = (""%string, ""%string, ""%string)
    /\ RtcEngineImpl.connection_state_ e' = RtcEngineImpl.DISCONNECTED
    /\ RtcEngineImpl.worker_thread_ e' = false
    /\ RtcEngineImpl.received e'
       = RtcEngineImpl.received RtcEngineImpl.joined_engine
         ++ [(1%nat, RtcEngineImpl.OnConnectionStateChanged 1 6);
             (1%nat, RtcEngineImpl.OnLeaveChannel)].
Proof.
  destruct (leave_clears_session (H := RtcEngineImpl.WebRTC)
              RtcEngineImpl.joined_engine eq_refl)
    as (e' & Hrun & Hm & Hs & Hw & _ & _ & _ & _ & Hr).
  exists e'. repeat (split; [assumption|]). exact Hr.
Defined.

(** X4.  Where the nested lock proceeds, on the negotiator of this
    repository: a join followed by a leave brings an orchestrator that was
    at rest in state [DISCONNECTED], with an initialised negotiator without
    peer connection, back to the state it had, except that the stop flag is
    raised and that a registered sink has received five calls (to
    [CONNECTING], to [CONNECTED], join success, to [DISCONNECTED],
    leave). *)
Theorem join_leave_round_trip
    (token channel_name user_id : string)
    (e : RtcEngineImpl.engine WebRTCWrapper.Impl) (w : WebRTCWrapper.Impl) :
  EngineSession.at_rest e = true ->
  RtcEngineImpl.connection_state_ e = RtcEngineImpl.DISCONNECTED ->
  RtcEngineImpl.webrtc_wrapper_ e = Some w ->
  WebRTCWrapper.is_initialized_ w = true ->
  WebRTCWrapper.peer_connection_created_ w = false ->
  WebRTCWrapper.local_streams_added_ w = false ->
  RtcEngineImpl.empty token = false ->
  RtcEngineImpl.empty channel_name = false ->
  RtcEngineImpl.empty user_id = false ->
  EngineSession.run (H := RtcEngineImpl.WebRTC) RtcEngineImpl.relock_proceeds
    [EngineSession.Join None token channel_name user_id; EngineSession.Leave]
    e
  = RtcEngineImpl.Returns [0; 0]%Z
      (RtcEngineImpl.mkEngine
         (RtcEngineImpl.webrtc_wrapper_ e)
         RtcEngineImpl.DISCONNECTED "" "" "" false true false
         (RtcEngineImpl.callback_ e)
         (RtcEngineImpl.received e
          ++ match RtcEngineImpl.callback_ e with
             | None => []
             | Some sink =>
                 [(sink, RtcEngineImpl.OnConnectionStateChanged 2 1);
                  (sink, RtcEngineImpl.OnConnectionStateChanged 3 2);
                  (sink, RtcEngineImpl.OnJoinChannelSuccess
                           channel_name user_id 100);
                  (sink, RtcEngineImpl.OnConnectionStateChanged 1 6);
                  (sink, RtcEngineImpl.OnLeaveChannel)]
             end)).
Proof.
  intros E Hs Hw Hi Hp Hl Ht Hn Hu.
  apply at_rest_shapes in E.
  destruct E as (w0 & ss & cb & r & [(s & _ & ->) | E]);
    [| destruct E as (c0 & ch & u0 & u & t0 & t & wt & s & [[_ ->]|[_ ->]]
                      & ->); discriminate Hs].
  simpl in Hs, Hw. subst s. injection Hw as ->.
  destruct w as [i p l v mu en o]. simpl in Hi, Hp, Hl. subst i p l.
  destruct token as [|t0 token]; [discriminate|].
  destruct channel_name as [|c0 channel_name]; [discriminate|].
  destruct user_id as [|u0 user_id]; [discriminate|].
  destruct cb; run_engine; simpl; rewrite <- ?app_assoc, ?app_nil_r;
    reflexivity.
Qed.

Lemma join_leave_round_trip_witness :
  EngineSession.run (H := RtcEngineImpl.WebRTC) RtcEngineImpl.relock_proceeds
    [EngineSession.Join None "t" "c" "u"; EngineSession.Leave]
    RtcEngineImpl.created_engine
  = RtcEngineImpl.Returns [0; 0]%Z
      (RtcEngineImpl.mkEngine
         (RtcEngineImpl.webrtc_wrapper_ RtcEngineImpl.created_engine)
         RtcEngineImpl.DISCONNECTED "" "" "" false true false
         (Some 1%nat)
         [(1%nat, RtcEngineImpl.OnConnectionStateChanged 2 1);
          (1%nat, RtcEngineImpl.OnConnectionStateChanged 3 2);
          (1%nat, RtcEngineImpl.OnJoinChannelSuccess "c" "u" 100);
          (1%nat, RtcEngineImpl.OnConnectionStateChanged 1 6);
          (1%nat, RtcEngineImpl.OnLeaveChannel)]).
Proof.
  exact (join_leave_round_trip "t" "c" "u" RtcEngineImpl.created_engine
           (snd (WebRTCWrapper.Initialize WebRTCWrapper.fresh))
           eq_refl eq_refl eq_refl eq_refl eq_refl eq_refl
           eq_refl eq_refl eq_refl).
Defined.


(** X5.  Where the nested lock proceeds: when the negotiator refuses the
    peer connection or the streams, [JoinChannel] returns -4 or -5 and the
    orchestrator counts as joined from then on: [IsInChannel] is true, every
    further [JoinChannel] returns -1 whatever its arguments, and only
    [LeaveChannel] (which returns 0 and ends in [DISCONNECTED] with the
    membership empty) makes a new join possible. *)
Theorem failed_join_holds_channel {W : Type} `{RtcEngineImpl.Negotiator W}
    (token channel_name user_id : string) (e : RtcEngineImpl.engine W)
    (w : W) :
  EngineSession.at_rest e = true ->
  RtcEngineImpl.empty (RtcEngineImpl.current_channel_ e) = true ->
  RtcEngineImpl.webrtc_wrapper_ e = Some w ->
  fst (RtcEngineImpl.CreatePeerConnection w) = false
  \/ fst (RtcEngineImpl.AddLocalStreams
            (snd (RtcEngineImpl.CreatePeerConnection w))) = false ->
  RtcEngineImpl.empty token = false ->
  RtcEngineImpl.empty channel_name = false ->
  RtcEngineImpl.empty user_id = false ->
  exists code e1 e2,
    RtcEngineImpl.JoinChannel RtcEngineImpl.relock_proceeds None
      token channel_name user_id e
    = RtcEngineImpl.Returns code e1
    /\ (code = (-4)%Z \/ code = (-5)%Z)
    /\ RtcEngineImpl.connection_state_ e1 = RtcEngineImpl.FAILED
    /\ RtcEngineImpl.IsInChannel RtcEngineImpl.relock_proceeds e1
       = RtcEngineImpl.Returns true e1
    /\ (forall fault token' channel_name' user_id',
          RtcEngineImpl.JoinChannel RtcEngineImpl.relock_proceeds fault
            token' channel_name' user_id' e1
          = RtcEngineImpl.Returns (-1)%Z e1)
    /\ RtcEngineImpl.LeaveChannel RtcEngineImpl.relock_proceeds e1
       = RtcEngineImpl.Returns 0%Z e2
    /\ RtcEngineImpl.connection_state_ e2 = RtcEngineImpl.DISCONNECTED
    /\ RtcEngineImpl.membership e2 = (""%string, ""%string, ""%string)
    /\ EngineSession.at_rest e2 = true.
Proof.
  intros E Hch Hw Hfail Ht Hn Hu.
  apply at_rest_shapes in E.
  destruct E as (w0 & ss & cb & r & [(s & Hs & ->) | E]);
    [| destruct E as (c0 & ch & u0 & u & t0 & t & wt & s & Hs & ->);
       discriminate Hch].
  simpl in Hw. injection Hw as ->.
  destruct token as [|t0 token]; [discriminate|].
  destruct channel_name as [|c0 channel_name]; [discriminate|].
  destruct user_id as [|u0 user_id]; [discriminate|].
  destruct (fst (RtcEngineImpl.CreatePeerConnection w)) eqn:Hc.
  - destruct Hfail as [Hfail | Hfail]; [discriminate|].
    destruct Hs as [-> | ->], cb; run_engine; rewrite Hc; run_engine;
      rewrite Hfail; run_engine;
      eexists; eexists; eexists; (split; [reflexivity|]); run_engine;
      (split; [right; reflexivity|]); repeat split; reflexivity.
  - destruct Hs as [-> | ->], cb; run_engine; rewrite Hc; run_engine;
      eexists; eexists; eexists; (split; [reflexivity|]); run_engine;
      (split; [left; reflexivity|]); repeat split; reflexivity.
Qed.

Lemma failed_join_holds_channel_witness :
  exists code e1 e2,
    RtcEngineImpl.JoinChannel (H := RtcEngineImpl.streams_fail)
      RtcEngineImpl.relock_proceeds None "t" "c" "u"
      (RtcEngineImpl.constructed tt (Some 1%nat))
    = RtcEngineImpl.Returns code e1
    /\ (code = (-4)%Z \/ code = (-5)%Z)
    /\ RtcEngineImpl.connection_state_ e1 = RtcEngineImpl.FAILED
    /\ RtcEngineImpl.IsInChannel RtcEngineImpl.relock_proceeds e1
       = RtcEngineImpl.Returns true e1
    /\ (forall fault token' channel_name' user_id',
          RtcEngineImpl.JoinChannel (H := RtcEngineImpl.streams_fail)
            RtcEngineImpl.relock_proceeds fault
            token' channel_name' user_id' e1
          = RtcEngineImpl.Returns (-1)%Z e1)
    /\ RtcEngineImpl.LeaveChannel (H := RtcEngineImpl.streams_fail)
         RtcEngineImpl.relock_proceeds e1
       = RtcEngineImpl.Returns 0%Z e2
    /\ RtcEngineImpl.connection_state_ e2 = RtcEngineImpl.DISCONNECTED
    /\ RtcEngineImpl.membership e2 = (""%string, ""%string, ""%string)
    /\ EngineSession.at_rest e2 = true.
Proof.
  apply (failed_join_holds_channel (H := RtcEngineImpl.streams_fail)
           "t" "c" "u" (RtcEngineImpl.constructed tt (Some 1%nat)) tt);
    try reflexivity.
  right. reflexivity.
Defined.

(** X6.  Where the nested lock proceeds: when a statement of the [try]
    block throws, [JoinChannel] returns -6 with the state [FAILED] and no
    channel stored, and [LeaveChannel] on that orchestrator is a no-op that
    returns 0, so the state remains [FAILED] and the sink hears nothing
    more.  After a throw at a string copy or at the start of the worker no
    worker runs and the orchestrator is at rest.  After a throw at the
    closure of the success notification the worker started before it is
    still joinable: the no-op [LeaveChannel] does not stop it, no later
    [JoinChannel] returns 0 whatever its arguments, and a later join that
    gets as far as starting its worker reaches [std::terminate]. *)
Theorem thrown_join_stays_failed {W : Type} `{RtcEngineImpl.Negotiator W}
    (fault : RtcEngineImpl.throw_point)
    (token channel_name user_id : string) (e : RtcEngineImpl.engine W)
    (w : W) :
  EngineSession.at_rest e = true ->
  RtcEngineImpl.empty (RtcEngineImpl.current_channel_ e) = true ->
  RtcEngineImpl.webrtc_wrapper_ e = Some w ->
  fst (RtcEngineImpl.CreatePeerConnection w) = true ->
  fst (RtcEngineImpl.AddLocalStreams
         (snd (RtcEngineImpl.CreatePeerConnection w))) = true ->
  RtcEngineImpl.empty token = false ->
  RtcEngineImpl.empty channel_name = false ->
  RtcEngineImpl.empty user_id = false ->
  exists e1,
    RtcEngineImpl.JoinChannel RtcEngineImpl.relock_proceeds (Some fault)
      token channel_name user_id e
    = RtcEngineImpl.Returns (-6)%Z e1
    /\ RtcEngineImpl.connection_state_ e1 = RtcEngineImpl.FAILED
    /\ RtcEngineImpl.membership e1 = (""%string, ""%string, ""%string)
    /\ RtcEngineImpl.LeaveChannel RtcEngineImpl.relock_proceeds e1
       = RtcEngineImpl.Returns 0%Z e1
    /\ RtcEngineImpl.worker_thread_ e1
       = RtcEngineImpl.throw_point_eqb fault RtcEngineImpl.capture_success
    /\ EngineSession.at_rest e1
       = negb (RtcEngineImpl.throw_point_eqb fault
                 RtcEngineImpl.capture_success)
    /\ (fault = RtcEngineImpl.capture_success ->
        (forall fault' token' channel_name' user_id' code e2,
           RtcEngineImpl.JoinChannel RtcEngineImpl.relock_proceeds fault'
             token' channel_name' user_id' e1
           = RtcEngineImpl.Returns code e2 ->
           code <> 0%Z)
        /\ (forall w1,
              RtcEngineImpl.webrtc_wrapper_ e1 = Some w1 ->
              fst (RtcEngineImpl.CreatePeerConnection w1) = true ->
              fst (RtcEngineImpl.AddLocalStreams
                     (snd (RtcEngineImpl.CreatePeerConnection w1))) = true ->
              exists e2,
                RtcEngineImpl.JoinChannel RtcEngineImpl.relock_proceeds None
                  token channel_name user_id e1
                = RtcEngineImpl.Terminates e2)).
Proof.
  intros E Hch Hw Hc Ha Ht Hn Hu.
  apply at_rest_shapes in E.
  destruct E as (w0 & ss & cb & r & [(s & Hs & ->) | E]);
    [| destruct E as (c0 & ch & u0 & u & t0 & t & wt & s & Hs & ->);
       discriminate Hch].
  simpl in Hw. injection Hw as ->.
  destruct token as [|t0 token]; [discriminate|].
  destruct channel_name as [|c0 channel_name]; [discriminate|].
  destruct user_id as [|u0 user_id]; [discriminate|].
  destruct fault, Hs as [-> | ->], cb;
    (eexists; split;
     [ run_engine; rewrite ?Hc; run_engine; rewrite ?Ha; run_engine;
       reflexivity |]);
    (split; [reflexivity|]); (split; [reflexivity|]);
    (split; [run_engine; reflexivity|]);
    (split; [reflexivity|]); (split; [run_engine; reflexivity|]);
    (intros Hfault;
     first
       [ discriminate Hfault
       | split;
         [ intros fault' token' channel_name' user_id' code e2;
           apply join_with_running_worker; reflexivity
         | intros w1 Hw1 Hc1 Ha1; injection Hw1 as <-; run_engine;
           rewrite Hc1; run_engine; rewrite Ha1; run_engine;
           eexists; reflexivity ] ]).
Qed.

Lemma thrown_join_stays_failed_witness :
  exists e1,
    RtcEngineImpl.JoinChannel (H := RtcEngineImpl.WebRTC)
      RtcEngineImpl.relock_proceeds (Some RtcEngineImpl.capture_success)
      "t" "c" "u" RtcEngineImpl.created_engine
    = RtcEngineImpl.Returns (-6)%Z e1
    /\ RtcEngineImpl.connection_state_ e1 = RtcEngineImpl.FAILED
    /\ RtcEngineImpl.worker_thread_ e1 = true
    /\ EngineSession.at_rest e1 = false
    /\ exists e2,
         RtcEngineImpl.JoinChannel (H := RtcEngineImpl.WebRTC)
           RtcEngineImpl.relock_proceeds None "t" "c" "u" e1
         = RtcEngineImpl.Terminates e2.
Proof.
  destruct (thrown_join_stays_failed (H := RtcEngineImpl.WebRTC)
              RtcEngineImpl.capture_success "t" "c" "u"
              RtcEngineImpl.created_engine
              (snd (WebRTCWrapper.Initialize WebRTCWrapper.fresh))
              eq_refl eq_refl eq_refl eq_refl eq_refl eq_refl eq_refl
              eq_refl)
    as (e1 & Hjoin & Hstate & _ & _ & Hworker & Hrest & Hlater).
  exists e1. split; [exact Hjoin|]. split; [exact Hstate|].
  split; [exact Hworker|]. split; [exact Hrest|].
  destruct (Hlater eq_refl) as [_ Hterm].
  assert (Hreturned :
            RtcEngineImpl.Returns (W := WebRTCWrapper.Impl) (-6)%Z e1
            = RtcEngineImpl.Returns (-6)%Z
                (RtcEngineImpl.mkEngine
                   (Some (WebRTCWrapper.mkImpl true true true false false
                            true false))
                   RtcEngineImpl.FAILED "" "" "" true false false
                   (Some 1%nat)
                   [(1%nat, RtcEngineImpl.OnConnectionStateChanged 2 1);
                    (1%nat, RtcEngineImpl.OnConnectionStateChanged 3 2);
                    (1%nat, RtcEngineImpl.OnConnectionStateChanged 5 5)]))
    by (rewrite <- Hjoin; reflexivity).
  injection Hreturned as ->.
  apply (Hterm (WebRTCWrapper.mkImpl true true true false false true false));
    reflexivity.
Defined.

(** X7.  Where the nested lock proceeds, the two checks that open
    [JoinChannel] answer before the arguments are looked at: with a channel
    stored the call returns -1, with none stored and no negotiator it
    returns -2; in both cases state, membership and sink are as before. *)
Theorem join_precondition_codes {W : Type} `{RtcEngineImpl.Negotiator W}
    (fault : option RtcEngineImpl.throw_point)
    (token channel_name user_id : string) (e : RtcEngineImpl.engine W) :
  RtcEngineImpl.state_mutex_ e = false ->
  (RtcEngineImpl.empty (RtcEngineImpl.current_channel_ e) = false ->
   RtcEngineImpl.JoinChannel RtcEngineImpl.relock_proceeds fault
     token channel_name user_id e
   = RtcEngineImpl.Returns (-1)%Z e)
  /\ (RtcEngineImpl.empty (RtcEngineImpl.current_channel_ e) = true ->
      RtcEngineImpl.webrtc_wrapper_ e = None ->
      RtcEngineImpl.JoinChannel RtcEngineImpl.relock_proceeds fault
        token channel_name user_id e
      = RtcEngineImpl.Returns (-2)%Z e).
Proof.
  destruct e as [ww s c u t wt ss m cb r]. simpl. intros ->. split.
  - destruct c; [discriminate|]. intros _. reflexivity.
  - destruct c; [|discriminate]. intros _ ->. reflexivity.
Qed.

Lemma join_precondition_codes_witness :
  RtcEngineImpl.JoinChannel (H := RtcEngineImpl.WebRTC)
    RtcEngineImpl.relock_proceeds None "" "d" "v" RtcEngineImpl.joined_engine
  = RtcEngineImpl.Returns (-1)%Z RtcEngineImpl.joined_engine
  /\ RtcEngineImpl.JoinChannel (H := RtcEngineImpl.WebRTC)
       RtcEngineImpl.relock_proceeds None "t" "c" "u"
       (RtcEngineImpl.set_webrtc_wrapper_ None RtcEngineImpl.created_engine)
     = RtcEngineImpl.Returns (-2)%Z
         (RtcEngineImpl.set_webrtc_wrapper_ None
            RtcEngineImpl.created_engine).
Proof.
  split.
  - apply (join_precondition_codes (H := RtcEngineImpl.WebRTC) None
             "" "d" "v" RtcEngineImpl.joined_engine eq_refl). reflexivity.
  - apply (join_precondition_codes (H := RtcEngineImpl.WebRTC) None
             "t" "c" "u"
             (RtcEngineImpl.set_webrtc_wrapper_ None
                RtcEngineImpl.created_engine) eq_refl); reflexivity.
Defined.

(** X8.  Where locking an owned [std::mutex] blocks, no call of
    [JoinChannel] or [LeaveChannel] returns, whatever the orchestrator and
    the arguments: each stops at the lock inside [IsInChannel], having
    changed nothing but the mutex.  The queries that take the lock once,
    [IsInChannel] and [GetCurrentChannel], return when the mutex is free. *)
Theorem join_and_leave_never_return {W : Type} `{RtcEngineImpl.Negotiator W}
    (fault : option RtcEngineImpl.throw_point)
    (token channel_name user_id : string) (e : RtcEngineImpl.engine W) :
  RtcEngineImpl.JoinChannel RtcEngineImpl.relock_blocks fault
    token channel_name user_id e
  = RtcEngineImpl.Blocks (RtcEngineImpl.set_state_mutex_ true e)
  /\ RtcEngineImpl.LeaveChannel RtcEngineImpl.relock_blocks e
     = RtcEngineImpl.Blocks (RtcEngineImpl.set_state_mutex_ true e)
  /\ (RtcEngineImpl.state_mutex_ e = false ->
      RtcEngineImpl.IsInChannel RtcEngineImpl.relock_blocks e
      = RtcEngineImpl.Returns
          (negb (RtcEngineImpl.empty (RtcEngineImpl.current_channel_ e))) e
      /\ RtcEngineImpl.GetCurrentChannel RtcEngineImpl.relock_blocks e
         = RtcEngineImpl.Returns (RtcEngineImpl.current_channel_ e) e).
Proof.
  split; [apply JoinChannel_never_returns|].
  split; [apply LeaveChannel_never_returns|].
  destruct e as [ww s c u t wt ss m cb r]. simpl. intros ->.
  split; reflexivity.
Qed.


(** X9.  The destructor, on an orchestrator at rest whose negotiator has
    its lifecycle flags in order.  Where the nested lock
    proceeds it returns with the worker joined, the channel left (the sink
    is told of the change to [DISCONNECTED] and of the leave exactly when a
    channel was stored) and all three lifecycle flags of the negotiator
    cleared.  Where the nested lock blocks it returns only if no channel is
    stored; with a channel stored it hangs in [LeaveChannel]. *)
Theorem destructor_leaves_and_cleans
    (e : RtcEngineImpl.engine WebRTCWrapper.Impl) (w : WebRTCWrapper.Impl) :
  EngineSession.at_rest e = true ->
  RtcEngineImpl.webrtc_wrapper_ e = Some w ->
  WebRTCWrapper.ordered w = true ->
  (exists e' w',
     EngineSession.destructor RtcEngineImpl.relock_proceeds e
     = RtcEngineImpl.Returns tt e'
     /\ RtcEngineImpl.membership e' = (""%string, ""%string, ""%string)
     /\ RtcEngineImpl.worker_thread_ e' = false
     /\ RtcEngineImpl.should_stop_ e' = true
     /\ RtcEngineImpl.webrtc_wrapper_ e' = Some w'
     /\ WebRTCWrapper.is_initialized_ w' = false
     /\ WebRTCWrapper.peer_connection_created_ w' = false
     /\ WebRTCWrapper.local_streams_added_ w' = false
     /\ RtcEngineImpl.received e'
        = RtcEngineImpl.received e
          ++ match RtcEngineImpl.callback_ e with
             | Some sink =>
                 if RtcEngineImpl.empty (RtcEngineImpl.current_channel_ e)
                 then []
                 else [(sink, RtcEngineImpl.OnConnectionStateChanged 1 6);
                       (sink, RtcEngineImpl.OnLeaveChannel)]
             | None => []
             end)
  /\ (if RtcEngineImpl.empty (RtcEngineImpl.current_channel_ e)
      then exists e',
             EngineSession.destructor RtcEngineImpl.relock_blocks e
             = RtcEngineImpl.Returns tt e'
      else exists e',
             EngineSession.destructor RtcEngineImpl.relock_blocks e
             = RtcEngineImpl.Blocks e').
Proof.
  intros E Hw Hord. apply at_rest_shapes in E.
  destruct E as (w0 & ss & cb & r & [(s & Hs & ->) | E]).
  - simpl in Hw. injection Hw as ->.
    destruct w as [i p l v mu en o].
    split.
    + destruct Hs as [-> | ->], cb, i, p, l; try discriminate Hord;
        run_engine; eexists; eexists;
        (split; [reflexivity|]); simpl; rewrite ?app_nil_r;
        repeat split; reflexivity.
    + simpl. destruct Hs as [-> | ->], p; run_engine; eexists; reflexivity.
  - destruct E as (c0 & ch & u0 & u & t0 & t & wt & s & Hs & ->).
    simpl in Hw. injection Hw as ->.
    destruct w as [i p l v mu en o].
    split.
    + destruct Hs as [[-> ->] | [-> ->]], cb, i, p, l;
        try discriminate Hord; run_engine;
        eexists; eexists; (split; [reflexivity|]); simpl;
        rewrite <- ?app_assoc, ?app_nil_r; repeat split; reflexivity.
    + simpl. destruct Hs as [[-> ->] | [-> ->]]; run_engine;
        eexists; reflexivity.
Qed.

Lemma destructor_leaves_and_cleans_witness :
  (exists e' w',
     EngineSession.destructor RtcEngineImpl.relock_proceeds
       RtcEngineImpl.joined_engine
     = RtcEngineImpl.Returns tt e'
     /\ RtcEngineImpl.membership e' = (""%string, ""%string, ""%string)
     /\ RtcEngineImpl.worker_thread_ e' = false
     /\ RtcEngineImpl.webrtc_wrapper_ e' = Some w'
     /\ WebRTCWrapper.is_initialized_ w' = false
     /\ RtcEngineImpl.received e'
        = RtcEngineImpl.received RtcEngineImpl.joined_engine
          ++ [(1%nat, RtcEngineImpl.OnConnectionStateChanged 1 6);
              (1%nat, RtcEngineImpl.OnLeaveChannel)])
  /\ (exists e',
        EngineSession.destructor RtcEngineImpl.relock_blocks
          RtcEngineImpl.joined_engine
        = RtcEngineImpl.Blocks e').
Proof.
  destruct (destructor_leaves_and_cleans RtcEngineImpl.joined_engine
              (WebRTCWrapper.mkImpl true true true false false true false)
              eq_refl eq_refl eq_refl)
    as [(e' & w' & Hrun & Hm & Hw & _ & Hww & Hi & _ & _ & Hr) Hb].
  split; [|exact Hb].
  exists e', w'. repeat (split; [assumption|]). exact Hr.
Defined.

Section ConstructorFacts.
Import EngineSession.

Lemma fold_push_server (urls : list string) : forall servers,
  fold_left push_server urls servers
  = servers ++ map (fun url => mkIceServer [url] "" "") urls.
Proof.
  induction urls as [|url urls IH]; intros servers; simpl.
  - symmetry. apply app_nil_r.
  - rewrite IH. unfold push_server. rewrite <- app_assoc. reflexivity.
Qed.
End ConstructorFacts.

(** X10.  The negotiator configuration the constructor derives holds one
    ICE server per configured URL, the STUN URLs first and the TURN URLs
    after them, each in the order of the configuration; every server carries
    exactly its one URL and neither user name nor password, and the codec
    and feature settings are copied. *)
Theorem ice_servers_follow_configuration (config : Config.Config) :
  EngineSession.ice_servers (EngineSession.webrtc_config config)
  = map (fun url => EngineSession.mkIceServer [url] "" "")
        (Config.stun_servers config ++ Config.turn_servers config)
  /\ length (EngineSession.ice_servers (EngineSession.webrtc_config config))
     = (length (Config.stun_servers config)
        + length (Config.turn_servers config))%nat
  /\ concat (map EngineSession.urls
               (EngineSession.ice_servers
                  (EngineSession.webrtc_config config)))
     = Config.stun_servers config ++ Config.turn_servers config
  /\ EngineSession.audio_codec (EngineSession.webrtc_config config)
     = Config.audio_codec config
  /\ EngineSession.video_codec (EngineSession.webrtc_config config)
     = Config.video_codec config.
Proof.
  assert (Hservers :
            EngineSession.ice_servers (EngineSession.webrtc_config config)
            = map (fun url => EngineSession.mkIceServer [url] "" "")
                (Config.stun_servers config ++ Config.turn_servers config)).
  { unfold EngineSession.webrtc_config. simpl.
    rewrite !fold_push_server. simpl. rewrite map_app. reflexivity. }
  split; [exact Hservers|]. rewrite Hservers. clear Hservers.
  split; [rewrite length_map, length_app; reflexivity|].
  split; [|split; reflexivity].
  induction (Config.stun_servers config ++ Config.turn_servers config)
    as [|url l IH]; simpl; [reflexivity | rewrite IH; reflexivity].
Qed.


(** ** The negotiator, the media manager and the signaling client *)

Section MoreNegotiatorFacts.
Import WebRTCWrapper.

Lemma step_twice (c : command) (w : Impl) : step c (step c w) = step c w.
Proof.
  destruct w as [i p l v m n o], c; destruct i, p, l; reflexivity.
Qed.

Lemma step_options (c : command) (w : Impl) :
  WebRTCMedia.options (step c w) = WebRTCMedia.options w
  /\ observer_ (step c w) = observer_ w.
Proof.
  destruct w as [i p l v m n o], c; destruct i, p, l; split; reflexivity.
Qed.

Lemma apply_lifecycle (s : WebRTCMedia.setting) (w : Impl) :
  WebRTCMedia.lifecycle (WebRTCMedia.apply s w) = WebRTCMedia.lifecycle w.
Proof. destruct s; reflexivity. Qed.

Lemma step_depends_on_lifecycle (c : command) (w w' : Impl) :
  WebRTCMedia.lifecycle w = WebRTCMedia.lifecycle w' ->
  WebRTCMedia.lifecycle (step c w) = WebRTCMedia.lifecycle (step c w').
Proof.
  destruct w as [i p l v m n o], w' as [i' p' l' v' m' n' o'].
  unfold WebRTCMedia.lifecycle. simpl. intros [= -> -> ->].
  destruct c, i', p', l'; reflexivity.
Qed.

Lemma apply_depends_on_options (s : WebRTCMedia.setting) (w w' : Impl) :
  WebRTCMedia.options w = WebRTCMedia.options w' ->
  observer_ w = observer_ w' ->
  WebRTCMedia.options (WebRTCMedia.apply s w)
  = WebRTCMedia.options (WebRTCMedia.apply s w')
  /\ observer_ (WebRTCMedia.apply s w) = observer_ (WebRTCMedia.apply s w').
Proof.
  destruct w as [i p l v m n o], w' as [i' p' l' v' m' n' o'].
  unfold WebRTCMedia.options. simpl. intros [= -> -> ->] ->.
  destruct s; split; reflexivity.
Qed.
End MoreNegotiatorFacts.

(** X11.  Every lifecycle method of the negotiator is idempotent: calling
    [Initialize], [CreatePeerConnection], [AddLocalStreams],
    [RemoveLocalStreams], [ClosePeerConnection] or [Cleanup] a second time
    in a row leaves the object as the first call left it, and the methods
    that return a result return the same one again. *)
Theorem lifecycle_methods_idempotent
    (c : WebRTCWrapper.command) (w : WebRTCWrapper.Impl) :
  WebRTCWrapper.step c (WebRTCWrapper.step c w) = WebRTCWrapper.step c w
  /\ fst (WebRTCWrapper.CreatePeerConnection
            (snd (WebRTCWrapper.CreatePeerConnection w)))
     = fst (WebRTCWrapper.CreatePeerConnection w)
  /\ fst (fst (WebRTCWrapper.AddLocalStreams
                 (snd (WebRTCWrapper.AddLocalStreams w))))
     = fst (fst (WebRTCWrapper.AddLocalStreams w)).
Proof.
  split; [apply step_twice|].
  destruct w as [i p l v m n o]; destruct i, p, l; split; reflexivity.
Qed.

(** X12.  Teardown and recovery of the negotiator, from any state.  After
    [ClosePeerConnection], and after [Cleanup], [IsConnected] is false,
    [AddLocalStreams] returns false and [CreateOffer] and [CreateAnswer]
    call back at once with a failure; after [Cleanup] [CreatePeerConnection]
    returns false as well.  [Initialize], [CreatePeerConnection] and
    [AddLocalStreams] in this order then each return true and leave
    [IsConnected] true. *)
Theorem teardown_and_recovery (w : WebRTCWrapper.Impl) :
  (forall torn,
     torn = WebRTCWrapper.ClosePeerConnection w
     \/ torn = WebRTCWrapper.Cleanup w ->
     WebRTCWrapper.IsConnected torn = false
     /\ fst (fst (WebRTCWrapper.AddLocalStreams torn)) = false
     /\ fst (WebRTCWrapper.CreateOffer torn)
        = WebRTCWrapper.Immediate (WebRTCWrapper.sdp_result "" false)
     /\ fst (WebRTCWrapper.CreateAnswer torn)
        = WebRTCWrapper.Immediate (WebRTCWrapper.sdp_result "" false))
  /\ fst (WebRTCWrapper.CreatePeerConnection (WebRTCWrapper.Cleanup w))
     = false
  /\ (let w1 := snd (WebRTCWrapper.Initialize w) in
      let w2 := snd (WebRTCWrapper.CreatePeerConnection w1) in
      let w3 := snd (WebRTCWrapper.AddLocalStreams w2) in
      fst (WebRTCWrapper.Initialize w) = true
      /\ fst (WebRTCWrapper.CreatePeerConnection w1) = true
      /\ fst (fst (WebRTCWrapper.AddLocalStreams w2)) = true
      /\ WebRTCWrapper.IsConnected w3 = true).
Proof.
  destruct w as [i p l v m n o].
  split; [|split].
  - intros torn [-> | ->]; destruct i, p, l; repeat split; reflexivity.
  - destruct i, p, l; reflexivity.
  - destruct i, p, l; repeat split; reflexivity.
Qed.

(** X13.  Lifecycle and media options of the negotiator do not touch each
    other.  In any sequence that mixes lifecycle methods with [SetObserver],
    [SetupLocalVideo], [MuteLocalAudio] and [EnableLocalVideo], the
    lifecycle flags end as the lifecycle methods alone would leave them, and
    the options and the observer end as the settings alone would leave
    them: a mute set before [Initialize] is still set after [Cleanup], and
    no option needs an initialised negotiator. *)
Theorem lifecycle_and_options_independent
    (cs : list WebRTCMedia.call) (w : WebRTCWrapper.Impl) :
  WebRTCMedia.lifecycle (WebRTCMedia.perform_all cs w)
  = WebRTCMedia.lifecycle
      (WebRTCWrapper.run (WebRTCMedia.commands_of cs) w)
  /\ WebRTCMedia.options (WebRTCMedia.perform_all cs w)
     = WebRTCMedia.options
         (fold_left (fun w s => WebRTCMedia.apply s w)
            (WebRTCMedia.settings_of cs) w)
  /\ WebRTCWrapper.observer_ (WebRTCMedia.perform_all cs w)
     = WebRTCWrapper.observer_
         (fold_left (fun w s => WebRTCMedia.apply s w)
            (WebRTCMedia.settings_of cs) w).
Proof.
  assert (Hgen : forall cs w wl wo,
            WebRTCMedia.lifecycle w = WebRTCMedia.lifecycle wl ->
            WebRTCMedia.options w = WebRTCMedia.options wo ->
            WebRTCWrapper.observer_ w = WebRTCWrapper.observer_ wo ->
            WebRTCMedia.lifecycle (WebRTCMedia.perform_all cs w)
            = WebRTCMedia.lifecycle
                (WebRTCWrapper.run (WebRTCMedia.commands_of cs) wl)
            /\ WebRTCMedia.options (WebRTCMedia.perform_all cs w)
               = WebRTCMedia.options
                   (fold_left (fun w s => WebRTCMedia.apply s w)
                      (WebRTCMedia.settings_of cs) wo)
            /\ WebRTCWrapper.observer_ (WebRTCMedia.perform_all cs w)
               = WebRTCWrapper.observer_
                   (fold_left (fun w s => WebRTCMedia.apply s w)
                      (WebRTCMedia.settings_of cs) wo)).
  { clear cs w. induction cs as [|[c|s] cs IH]; intros w wl wo Hl Ho Hb.
    - simpl. auto.
    - simpl. apply IH.
      + apply step_depends_on_lifecycle, Hl.
      + destruct (step_options c w) as [-> _]. exact Ho.
      + destruct (step_options c w) as [_ ->]. exact Hb.
    - simpl. apply IH.
      + rewrite apply_lifecycle. exact Hl.
      + apply apply_depends_on_options; assumption.
      + apply apply_depends_on_options; assumption. }
  apply Hgen; reflexivity.
Qed.

Section MediaManagerFacts.
Import MediaManager.

Lemma step_capture_initialized (c : command) (m : state) :
  capture_initialized m = true ->
  capture_initialized (step c m) = true
  /\ (audio_capture_initialized_ m = true ->
      audio_capture_initialized_ (step c m) = true)
  /\ (video_capture_initialized_ m = true ->
      video_capture_initialized_ (step c m) = true).
Proof.
  destruct m as [ai vi aa va am ve], c;
    try destruct muted; try destruct enabled;
    destruct ai, vi, aa, va; simpl; intros E; try discriminate E;
    repeat split; auto.
Qed.
End MediaManagerFacts.

(** X14.  The media manager never captures from a device it has not
    initialised: from a state in which active audio capture implies
    initialised audio capture, and the same for video, every sequence of its
    methods ends in such a state, and a device once initialised stays
    initialised.  [EnableVideo(enabled)] then leaves video capture active
    exactly when [enabled] is true and video capture is initialised. *)
Theorem media_capture_needs_initialization
    (cs : list MediaManager.command) (m : MediaManager.state) :
  MediaManager.capture_initialized m = true ->
  MediaManager.capture_initialized (MediaManager.run cs m) = true
  /\ (MediaManager.audio_capture_initialized_ m = true ->
      MediaManager.audio_capture_initialized_ (MediaManager.run cs m) = true)
  /\ (MediaManager.video_capture_initialized_ m = true ->
      MediaManager.video_capture_initialized_ (MediaManager.run cs m) = true)
  /\ (forall enabled,
        MediaManager.video_capture_active_
          (MediaManager.EnableVideo enabled (MediaManager.run cs m))
        = enabled
          && MediaManager.video_capture_initialized_ (MediaManager.run cs m)).
Proof.
  revert m. induction cs as [|c cs IH]; intros m E.
  - simpl. split; [exact E|]. split; [auto|]. split; [auto|].
    intros enabled. destruct m as [ai vi aa va am ve].
    destruct enabled, ai, vi, aa, va; try discriminate E; reflexivity.
  - destruct (step_capture_initialized c m E) as (E1 & Ha & Hv).
    destruct (IH (MediaManager.step c m) E1) as (E2 & Ha2 & Hv2 & He).
    simpl. split; [exact E2|]. split; [auto|]. split; [auto|]. exact He.
Qed.

Lemma media_capture_needs_initialization_witness :
  let cs := [MediaManager.DoStartVideoCapture;
             MediaManager.DoEnableVideo true;
             MediaManager.DoInitializeVideoCapture;
             MediaManager.DoEnableVideo false] in
  MediaManager.capture_initialized MediaManager.fresh = true
  /\ MediaManager.capture_initialized
       (MediaManager.run cs MediaManager.fresh) = true
  /\ MediaManager.video_capture_active_
       (MediaManager.EnableVideo true
          (MediaManager.run cs MediaManager.fresh))
     = true
       && MediaManager.video_capture_initialized_
            (MediaManager.run cs MediaManager.fresh).
Proof.
  intros cs.
  destruct (media_capture_needs_initialization cs MediaManager.fresh eq_refl)
    as (E & _ & _ & He).
  split; [reflexivity|]. split; [exact E | exact (He true)].
Defined.

Section SignalingFacts.
Import SignalingClient.

Lemma run_connected_iff (cs : list command) : forall s,
  run cs s = true
  <-> (s = true /\ forallb (fun c => negb (is_disconnect c)) cs = true)
      \/ exists before after,
           cs = before ++ DoConnect :: after
           /\ forallb (fun c => negb (is_disconnect c)) after = true.
Proof.
  induction cs as [|c cs IH]; intros s.
  - simpl. split.
    + intros ->. left. auto.
    + intros [[-> _] | (before & after & Hcs & _)]; [reflexivity|].
      destruct before; discriminate Hcs.
  - change (run (c :: cs) s) with (run cs (step c s)). rewrite IH. split.
    + intros [[Hs Hno] | (before & after & -> & Hno)].
      * destruct c; simpl in Hs.
        -- right. exists [], cs. auto.
        -- discriminate Hs.
        -- left. simpl. subst s. auto.
      * right. exists (c :: before), after. auto.
    + intros [[-> Hno] | (before & after & Hcs & Hno)].
      * simpl in Hno. apply andb_prop in Hno. destruct Hno as [Hc Hno].
        left. split; [|exact Hno].
        destruct c; [reflexivity | discriminate Hc | reflexivity].
      * destruct before as [|b before]; simpl in Hcs.
        -- injection Hcs as -> <-. left. auto.
        -- injection Hcs as -> ->. right. exists before, after. auto.
Qed.
End SignalingFacts.

(** X15.  On a new signaling client, after any sequence of [Connect],
    [Disconnect] and [SendMessage] calls, [SendMessage] returns true exactly
    when the sequence contains a [Connect] with no [Disconnect] after it;
    sending changes nothing, and [IsConnected] gives the same answer. *)
Theorem send_succeeds_while_connected
    (cs : list SignalingClient.command) (message : string) :
  (fst (SignalingClient.SendMessage message
          (SignalingClient.run cs SignalingClient.fresh)) = true
   <-> exists before after,
         cs = before ++ SignalingClient.DoConnect :: after
         /\ forallb (fun c => negb (SignalingClient.is_disconnect c)) after
            = true)
  /\ snd (SignalingClient.SendMessage message
            (SignalingClient.run cs SignalingClient.fresh))
     = SignalingClient.run cs SignalingClient.fresh
  /\ SignalingClient.IsConnected
       (SignalingClient.run cs SignalingClient.fresh)
     = fst (SignalingClient.SendMessage message
              (SignalingClient.run cs SignalingClient.fresh)).
Proof.
  split; [|split; reflexivity].
  simpl. rewrite run_connected_iff. split.
  - intros [[Hs _] | Hsplit]; [discriminate Hs | exact Hsplit].
  - intros Hsplit. right. exact Hsplit.
Qed.


(** ** The handle table and the entry points *)

Section LiveHandleFacts.
Context {Engine : Type}.
Implicit Types (g : Jni.globals Engine) (cs : list (Jni.command Engine)).
Import Jni.

Lemma get_engine_destroy_ne h h' g :
  h <> h' -> get_engine h (nativeDestroyEngine h' g) = get_engine h g.
Proof.
  unfold get_engine, nativeDestroyEngine. intros Hne.
  destruct (g_engines g !! h'); simpl; [|reflexivity].
  apply lookup_delete_ne. congruence.
Qed.

(** An entry stays as it is while its handle is not destroyed. *)
Lemma entry_survives cs : forall g h (e : Engine),
  get_engine h g = Some e ->
  (h < g_next_handle g)%Z ->
  (jlong_min <= g_next_handle g)%Z ->
  (g_next_handle g + Z.of_nat (creations cs) <= jlong_max)%Z ->
  ~ In (Destroy h) cs ->
  get_engine h (run cs g) = Some e.
Proof.
  induction cs as [|c cs IH]; intros g h e He Hlt Hlo Hhi Hnot; [exact He|].
  rewrite run_cons.
  assert (Hrest : ~ In (Destroy h) cs) by (intros Hin; apply Hnot; right;
                                            exact Hin).
  destruct c as [[e'|]|h'|h']; simpl in *.
  - assert (Hw : jlong_wrap (g_next_handle g + 1) = (g_next_handle g + 1)%Z)
      by (apply jlong_wrap_in_range; lia).
    apply IH; simpl; rewrite ?Hw; try lia; try assumption.
    unfold get_engine in *. simpl. rewrite lookup_insert_ne; [exact He | lia].
  - apply IH; assumption.
  - apply IH; rewrite ?next_handle_destroy; try assumption.
    rewrite get_engine_destroy_ne; [exact He|].
    intros ->. apply Hnot. left. reflexivity.
  - apply IH; assumption.
Qed.
End LiveHandleFacts.

(** X16.  A live handle resolves to its own orchestrator.  In a sequence of
    table commands run from the freshly loaded library within the range of
    [jlong], the creation that comes after [before] returns the handle
    [1 + creations before], and as long as no later command destroys that
    handle [get_engine] returns the orchestrator this creation stored -
    later creations and the destruction of other handles do not disturb
    it. *)
Theorem live_handle_resolves {Engine : Type}
    (before after : list (Jni.command Engine)) (e : Engine) :
  let cs := before ++ Jni.Create (Some e) :: after in
  let handle := Z.of_nat (S (Jni.creations before)) in
  (Z.of_nat (Jni.creations cs) < jlong_max)%Z ->
  ~ In (Jni.Destroy handle) after ->
  fst (Jni.nativeCreateEngine (Some e) (Jni.run before Jni.loaded)) = handle
  /\ Jni.get_engine handle (Jni.run cs Jni.loaded) = Some e.
Proof.
  intros cs handle Hroom Hnot. subst cs.
  rewrite creations_app in Hroom. simpl in Hroom.
  assert (Hmin : (jlong_min <= 1)%Z) by (unfold jlong_min; lia).
  destruct (issued_consecutive before Jni.loaded) as [_ Hn]; simpl; try lia.
  simpl in Hn.
  assert (Hh : Jni.g_next_handle (Jni.run before Jni.loaded) = handle)
    by (rewrite Hn; unfold handle; lia).
  split; [exact Hh|].
  rewrite run_app, run_cons.
  assert (Hw : jlong_wrap (handle + 1) = (handle + 1)%Z)
    by (apply jlong_wrap_in_range; unfold jlong_min, handle in *; lia).
  apply entry_survives; simpl; rewrite ?Hh, ?Hw;
    try (unfold jlong_min, handle in *; lia); try assumption.
  unfold Jni.get_engine. simpl. rewrite ?Hh. apply lookup_insert_eq.
Qed.

Lemma live_handle_resolves_witness :
  let before := [Jni.Create (Some 10%nat); Jni.Create None] in
  let after := [Jni.Create (Some 12%nat); Jni.Destroy 1%Z;
                Jni.Create (Some 13%nat)] in
  fst (Jni.nativeCreateEngine (Some 11%nat) (Jni.run before Jni.loaded))
  = 2%Z
  /\ Jni.get_engine 2%Z
       (Jni.run (before ++ Jni.Create (Some 11%nat) :: after) Jni.loaded)
     = Some 11%nat.
Proof.
  intros before after.
  apply (live_handle_resolves before after 11%nat); [reflexivity|].
  simpl. intros [E|[E|[E|[]]]]; discriminate E.
Defined.

Section EntryFacts.
Import JniEntry.

Lemma update_same handle e (g : table) :
  Jni.get_engine handle g = Some e -> update handle e g = g.
Proof.
  destruct g as [m n]. unfold Jni.get_engine, update. simpl. intros E.
  f_equal. apply insert_id. exact E.
Qed.

End EntryFacts.

(** X17.  An entry point called with a handle that is not in the table
    touches nothing: [nativeJoinChannel] and [nativeLeaveChannel] return -1
    and [nativeMuteLocalAudio] and [nativeEnableLocalVideo] return, the
    table being as before - on either platform and whatever the other
    arguments.  This is so in particular right after [nativeDestroyEngine]
    of that handle. *)
Theorem invalid_handle_is_refused
    (platform : RtcEngineImpl.relock)
    (fault : option RtcEngineImpl.throw_point) (handle : Z)
    (token channel_name user_id : JniEntry.jstring) (flag : bool)
    (g : JniEntry.table) :
  Jni.get_engine handle g = None ->
  JniEntry.nativeJoinChannel platform fault handle token channel_name
    user_id g
  = JniEntry.Returned (-1)%Z g
  /\ JniEntry.nativeLeaveChannel platform handle g
     = JniEntry.Returned (-1)%Z g
  /\ JniEntry.nativeMuteLocalAudio handle flag g = JniEntry.Returned tt g
  /\ JniEntry.nativeEnableLocalVideo handle flag g = JniEntry.Returned tt g.
Proof.
  intros E.
  unfold JniEntry.nativeJoinChannel, JniEntry.nativeLeaveChannel,
    JniEntry.nativeMuteLocalAudio, JniEntry.nativeEnableLocalVideo,
    JniEntry.on_engine.
  rewrite E. repeat split; reflexivity.
Qed.

Lemma invalid_handle_is_refused_witness :
  let g := Jni.nativeDestroyEngine 1%Z
             (snd (Jni.nativeCreateEngine
                     (Some RtcEngineImpl.created_engine) Jni.loaded)) in
  JniEntry.nativeJoinChannel RtcEngineImpl.relock_blocks None 1%Z
    (Some "t"%string) (Some "c"%string) (Some "u"%string) g
  = JniEntry.Returned (-1)%Z g
  /\ JniEntry.nativeLeaveChannel RtcEngineImpl.relock_blocks 1%Z g
     = JniEntry.Returned (-1)%Z g
  /\ JniEntry.nativeMuteLocalAudio 1%Z true g = JniEntry.Returned tt g
  /\ JniEntry.nativeEnableLocalVideo 1%Z true g = JniEntry.Returned tt g.
Proof.
  intros g.
  apply (invalid_handle_is_refused RtcEngineImpl.relock_blocks None 1%Z
           (Some "t"%string) (Some "c"%string) (Some "u"%string) true g).
  apply get_engine_destroyed.
Defined.

(** X19.  Null string arguments reach [JoinChannel] as empty strings.
    Where the nested lock proceeds, [nativeJoinChannel] on a valid handle
    whose orchestrator is at rest outside a channel returns -3 when the
    token, the channel name or the user id is a null reference, and the
    table is as before; where the nested lock blocks, the same call does not
    return. *)
Theorem null_argument_is_rejected
    (fault : option RtcEngineImpl.throw_point) (handle : Z)
    (token channel_name user_id : JniEntry.jstring)
    (e : RtcEngineImpl.engine WebRTCWrapper.Impl) (g : JniEntry.table) :
  Jni.get_engine handle g = Some e ->
  EngineSession.at_rest e = true ->
  RtcEngineImpl.empty (RtcEngineImpl.current_channel_ e) = true ->
  token = None \/ channel_name = None \/ user_id = None ->
  JniEntry.nativeJoinChannel RtcEngineImpl.relock_proceeds fault handle
    token channel_name user_id g
  = JniEntry.Returned (-3)%Z g
  /\ exists g',
       JniEntry.nativeJoinChannel RtcEngineImpl.relock_blocks fault handle
         token channel_name user_id g
       = JniEntry.Blocked g'.
Proof.
  intros Hg E Hch Hnull.
  unfold JniEntry.nativeJoinChannel, JniEntry.on_engine. rewrite Hg.
  split.
  - assert (Hempty :
              RtcEngineImpl.empty (JniEntry.jstring_to_string token)
              || RtcEngineImpl.empty (JniEntry.jstring_to_string channel_name)
              || RtcEngineImpl.empty (JniEntry.jstring_to_string user_id)
              = true).
    { destruct Hnull as [-> | [-> | ->]]; simpl;
        rewrite ?orb_true_r; reflexivity. }
    apply at_rest_shapes in E.
    destruct E as (w & ss & cb & r & [(s & Hs & ->) | E]);
      [| destruct E as (c0 & ch & u0 & u & t0 & t & wt & s & Hs & ->);
         discriminate Hch].
    generalize dependent (JniEntry.jstring_to_string token).
    generalize dependent (JniEntry.jstring_to_string channel_name).
    generalize dependent (JniEntry.jstring_to_string user_id).
    intros us cs ts Hempty.
    unfold RtcEngineImpl.JoinChannel, RtcEngineImpl.lock_guard,
      RtcEngineImpl.IsInChannel, RtcEngineImpl.lock_guard.
    cbv [RtcEngineImpl.bind RtcEngineImpl.get RtcEngineImpl.put
         RtcEngineImpl.ret RtcEngineImpl.state_mutex_
         RtcEngineImpl.set_state_mutex_ RtcEngineImpl.current_channel_
         RtcEngineImpl.webrtc_wrapper_ negb].
    cbv [RtcEngineImpl.empty] in Hempty |- *. rewrite Hempty.
    f_equal. apply update_same. exact Hg.
  - rewrite (JoinChannel_never_returns (H := RtcEngineImpl.WebRTC)).
    eexists. reflexivity.
Qed.

Lemma null_argument_is_rejected_witness :
  let g := snd (Jni.nativeCreateEngine
                  (Some RtcEngineImpl.created_engine) Jni.loaded) in
  JniEntry.nativeJoinChannel RtcEngineImpl.relock_proceeds None 1%Z
    None (Some "c"%string) (Some "u"%string) g
  = JniEntry.Returned (-3)%Z g
  /\ exists g',
       JniEntry.nativeJoinChannel RtcEngineImpl.relock_blocks None 1%Z
         None (Some "c"%string) (Some "u"%string) g
       = JniEntry.Blocked g'.
Proof.
  intros g.
  apply (null_argument_is_rejected None 1%Z None (Some "c"%string)
           (Some "u"%string) RtcEngineImpl.created_engine g);
    [reflexivity | reflexivity | reflexivity | left; reflexivity].
Defined.

Section UnloadFacts.
Context {Engine : Type}.
Import JniEntry.
Implicit Types (l : library Engine) (cs : list (host_call Engine)).

Lemma host_run_app cs1 cs2 l :
  host_run (cs1 ++ cs2) l
  = match host_run cs1 l with
    | Some l' => host_run cs2 l'
    | None => None
    end.
Proof.
  revert l. induction cs1 as [|c cs1 IH]; intros l; [reflexivity|].
  simpl. destruct (host_step c l); [apply IH | reflexivity].
Qed.

(** With the VM pointer cleared and the table empty, a run that goes on
    keeps both. *)
Lemma host_run_unloaded cs : forall l l',
  g_jvm l = false -> empty_table l ->
  host_run cs l = Some l' ->
  g_jvm l' = false /\ empty_table l'.
Proof.
  induction cs as [|c cs IH]; intros l l' Hjvm Hempty.
  - intros [= <-]. auto.
  - simpl. destruct c as [[[engine|]|handle|handle]|]; simpl.
    + rewrite Hjvm. discriminate.
    + apply IH; assumption.
    + apply IH; [exact Hjvm|].
      intros h. simpl. apply get_engine_destroy_other, Hempty.
    + apply IH; assumption.
    + apply IH; [reflexivity | intros h; reflexivity].
Qed.

(** While the library is loaded and not unloaded, it runs as the table
    does. *)
Lemma host_run_loaded (cs : list (Jni.command Engine)) : forall l,
  g_jvm l = true ->
  host_run (map Table cs) l
  = Some (mkLibrary (Jni.run cs (globals_ l)) true).
Proof.
  induction cs as [|c cs IH]; intros [g jvm] Hjvm; simpl in Hjvm; subst jvm;
    [reflexivity|].
  rewrite run_cons. destruct c as [[engine|]|handle|handle]; simpl;
    rewrite IH; reflexivity.
Qed.
End UnloadFacts.

(** X20.  [JNI_OnUnload] ends the life of every handle.  Take any run of
    table commands and unloads from the loaded library, and let an unload
    follow.  If the process survives what comes after that unload, no
    handle resolves at the end, whatever destroy, resolve and failed create
    commands came; and a creation right after the unload that gets as far
    as the constructor of [JniCallback] kills the process, since [g_jvm] is
    null by then.  Without an unload the library answers as the handle
    table does. *)
Theorem unload_retires_handles {Engine : Type}
    (before after : list (JniEntry.host_call Engine)) :
  (forall l,
     JniEntry.host_run (before ++ JniEntry.Unload :: after)
       JniEntry.JNI_OnLoad = Some l ->
     JniEntry.g_jvm l = false /\ JniEntry.empty_table l)
  /\ (forall engine later,
        after = JniEntry.Table (Jni.Create (Some engine)) :: later ->
        JniEntry.host_run (before ++ JniEntry.Unload :: after)
          JniEntry.JNI_OnLoad = None)
  /\ (forall cs : list (Jni.command Engine),
        JniEntry.host_run (map JniEntry.Table cs) JniEntry.JNI_OnLoad
        = Some (JniEntry.mkLibrary (Jni.run cs Jni.loaded) true)).
Proof.
  split; [|split].
  - intros l. rewrite host_run_app.
    destruct (JniEntry.host_run before JniEntry.JNI_OnLoad) as [l0|];
      [|discriminate].
    simpl. apply host_run_unloaded; [reflexivity | intros h; reflexivity].
  - intros engine later ->. rewrite host_run_app.
    destruct (JniEntry.host_run before JniEntry.JNI_OnLoad) as [l0|];
      reflexivity.
  - intros cs. apply (host_run_loaded cs JniEntry.JNI_OnLoad). reflexivity.
Qed.


(** ** Texts the parser reads back *)

Section TextFacts.
Import StdString.
Local Open Scope string_scope.

Lemma length_app s t :
  String.length (s ++ t) = (String.length s + String.length t)%nat.
Proof.
  induction s as [|c s IH]; simpl; [reflexivity | rewrite IH; reflexivity].
Qed.

Lemma substring_whole s : String.substring 0 (String.length s) s = s.
Proof.
  induction s as [|c s IH]; simpl; [reflexivity | rewrite IH; reflexivity].
Qed.

Lemma substring_prefix s t :
  String.substring 0 (String.length s) (s ++ t) = s.
Proof.
  induction s as [|c s IH]; simpl.
  - destruct t; reflexivity.
  - rewrite IH. reflexivity.
Qed.

Lemma from_past_end s : forall n,
  (String.length s <= n)%nat -> from n s = "".
Proof.
  induction s as [|c s IH]; intros [|n] Hn; simpl in *; try reflexivity;
    try lia.
  apply IH. lia.
Qed.

Lemma back_app s c : back (s ++ String c "") = Some c.
Proof.
  induction s as [|d s IH]; [reflexivity|].
  change (String d s ++ String c "") with (String d (s ++ String c "")).
  destruct s as [|d' s']; [reflexivity|].
  exact IH.
Qed.

Lemma find_in_shift c s : forall p q,
  find_in c s p = None -> find_in c s q = None.
Proof.
  induction s as [|d s IH]; intros p q Hp; simpl in *; [reflexivity|].
  destruct (Ascii.eqb d c); [discriminate Hp | eauto].
Qed.

Lemma find_in_app c s t : forall p,
  find_in c s p = None ->
  find_in c (s ++ t) p = find_in c t (p + String.length s).
Proof.
  induction s as [|d s IH]; intros p Hp; simpl in *.
  - rewrite Nat.add_0_r. reflexivity.
  - destruct (Ascii.eqb d c); [discriminate Hp|].
    rewrite IH by exact Hp. f_equal. lia.
Qed.

Lemma size_t_sub_small a b :
  (b <= a)%nat -> (Z.of_nat a < 2 ^ 64)%Z ->
  size_t_sub a b = N.of_nat (a - b).
Proof.
  unfold size_t_sub. intros Hb Ha. rewrite Z.mod_small by lia. lia.
Qed.

Lemma substr_exact pos count s :
  (N.to_nat count <= String.length s - pos)%nat ->
  substr pos count s = String.substring pos (N.to_nat count) s.
Proof.
  unfold substr. intros Hc. rewrite N.min_l by lia. reflexivity.
Qed.

Lemma find_last_not_of_in_back s : forall pos d,
  back s = Some d -> trimmed_char d = false ->
  find_last_not_of_in s pos = Some (pos + String.length s - 1)%nat.
Proof.
  induction s as [|c s IH]; intros pos d Hb Hd; [discriminate Hb|].
  destruct s as [|c' s'].
  - simpl in *. injection Hb as ->. rewrite Hd. f_equal. lia.
  - change (back (String c (String c' s'))) with (back (String c' s')) in Hb.
    change (find_last_not_of_in (String c (String c' s')) pos)
      with (match find_last_not_of_in (String c' s') (S pos) with
            | Some i => Some i
            | None => if trimmed_char c then None else Some pos
            end).
    rewrite (IH (S pos) d Hb Hd). f_equal. simpl. lia.
Qed.

(** A text whose first and last characters are not white space is left as
    it is by [Trim]. *)
Lemma Trim_fixed c rest d :
  trimmed_char c = false ->
  back (String c rest) = Some d -> trimmed_char d = false ->
  ConfigText.fits_size_t (String c rest) ->
  Json.Trim (String c rest) = String c rest.
Proof.
  unfold ConfigText.fits_size_t. intros Hc Hb Hd Hlen.
  unfold Json.Trim, find_first_not_of, find_last_not_of.
  rewrite (find_last_not_of_in_back _ 0 d Hb Hd).
  cbn [find_first_not_of_in]. rewrite Hc.
  assert (Hpos : (0 < String.length (String c rest))%nat) by (simpl; lia).
  rewrite size_t_sub_small by lia.
  rewrite substr_exact by lia.
  replace (N.to_nat
             (N.of_nat (0 + String.length (String c rest) - 1 - 0) + 1))
    with (String.length (String c rest)) by lia.
  apply substring_whole.
Qed.

Lemma length_quoted s :
  String.length (ConfigText.quoted s) = S (S (String.length s)).
Proof.
  change (ConfigText.quoted s) with (String "034" (s ++ String "034" "")).
  cbn [String.length]. rewrite length_app. simpl. lia.
Qed.

Lemma back_quoted s : back (ConfigText.quoted s) = Some "034"%char.
Proof.
  change (ConfigText.quoted s)
    with (String "034" s ++ String "034" "").
  apply back_app.
Qed.

Lemma Trim_quoted s :
  ConfigText.fits_size_t (ConfigText.quoted s) ->
  Json.Trim (ConfigText.quoted s) = ConfigText.quoted s.
Proof.
  intros Hlen.
  change (ConfigText.quoted s) with (String "034" (s ++ String "034" ""))
    in *.
  apply (Trim_fixed _ _ "034"%char); try reflexivity; [|exact Hlen].
  apply (back_quoted s).
Qed.

Lemma ParseString_quoted s :
  ConfigText.fits_size_t (ConfigText.quoted s) ->
  Json.ParseString (ConfigText.quoted s) = s.
Proof.
  unfold ConfigText.fits_size_t. intros Hlen.
  pose proof (length_quoted s) as Hl.
  unfold Json.ParseString. rewrite back_quoted, Hl.
  change (starts_with "034" (ConfigText.quoted s)) with true.
  change (Ascii.eqb "034" "034") with true.
  cbn [Nat.ltb Nat.leb negb orb].
  rewrite size_t_sub_small by lia.
  rewrite substr_exact by lia.
  replace (N.to_nat (N.of_nat (S (S (String.length s)) - 2)))
    with (String.length s) by lia.
  change (ConfigText.quoted s) with (String "034" (s ++ String "034" "")).
  cbn [String.substring]. apply substring_prefix.
Qed.
End TextFacts.

Section RoundTripFacts.
Import StdString Json.
Context `{Floating}.
Local Open Scope string_scope.

(** The value a quoted text stands for. *)
Lemma Parse_depth_quoted depth s :
  ConfigText.fits_size_t (ConfigText.quoted s) ->
  Parse_depth (S depth) (ConfigText.quoted s)
  = Some (mkJsonValue STRING false (double_of_int 0) s [] []).
Proof.
  intros Hlen. cbn [Parse_depth].
  rewrite (Trim_quoted s Hlen), (ParseString_quoted s Hlen). reflexivity.
Qed.

Lemma length_app_id_entry s :
  String.length (ConfigText.app_id_entry s) = (11 + String.length s)%nat.
Proof.
  change (ConfigText.app_id_entry s)
    with (String "034" "appId" ++ String "034" ": " ++ ConfigText.quoted s).
  rewrite !length_app, length_quoted. simpl. lia.
Qed.

Lemma length_app_id_object s :
  String.length (ConfigText.app_id_object s) = (13 + String.length s)%nat.
Proof.
  change (ConfigText.app_id_object s)
    with (String "{" (ConfigText.app_id_entry s ++ "}")).
  cbn [String.length]. rewrite length_app, length_app_id_entry. simpl. lia.
Qed.

Lemma loop_app_id (Parse : string -> option JsonValue) budget s v :
  find "034" 0 s = None ->
  ConfigText.fits_size_t (ConfigText.app_id_object s) ->
  Parse (ConfigText.quoted s) = Some v ->
  ParseObject_loop Parse (S budget) (ConfigText.app_id_entry s) 0 []
  = Some [("appId", v)].
Proof.
  unfold ConfigText.fits_size_t. intros Hs Hlen Hv.
  pose proof (length_app_id_entry s) as Hl.
  pose proof (length_app_id_object s) as Hjson.
  rewrite Hjson in Hlen.
  assert (Hend : FindValueEnd (ConfigText.app_id_entry s) 9
                 = (11 + String.length s)%nat).
  { unfold FindValueEnd.
    change (at_ (ConfigText.app_id_entry s) 9) with (Some "034"%char).
    change (Ascii.eqb "034" "034") with true. cbv iota.
    unfold find.
    change (from 10 (ConfigText.app_id_entry s))
      with (s ++ String "034" "").
    rewrite find_in_app by (apply (find_in_shift _ _ 0%nat); exact Hs).
    simpl. f_equal. }
  assert (Hvalue :
            Trim (substr 9 (size_t_sub (11 + String.length s) 9)
                    (ConfigText.app_id_entry s))
            = ConfigText.quoted s).
  { rewrite size_t_sub_small by lia.
    rewrite substr_exact by lia.
    replace (N.to_nat (N.of_nat (11 + String.length s - 9)))
      with (String.length (ConfigText.quoted s))
      by (rewrite length_quoted; lia).
    change (String.substring 9 (String.length (ConfigText.quoted s))
              (ConfigText.app_id_entry s))
      with (String.substring 0 (String.length (ConfigText.quoted s))
              (ConfigText.quoted s)).
    rewrite substring_whole. apply Trim_quoted.
    unfold ConfigText.fits_size_t. rewrite length_quoted. lia. }
  assert (Hkey : substr 1 (size_t_sub 6 0 - 1) (ConfigText.app_id_entry s)
                 = "appId").
  { change (size_t_sub 6 0 - 1)%N with 5%N.
    rewrite substr_exact by (rewrite Hl; simpl; lia). reflexivity. }
  assert (Hpos : (0 <? String.length (ConfigText.app_id_entry s))%nat = true)
    by (apply Nat.ltb_lt; lia).
  cbn [ParseObject_loop]. rewrite Hpos. cbn [negb].
  change (find "034" 0 (ConfigText.app_id_entry s)) with (Some 0%nat).
  cbv iota beta.
  change (find "034" 1 (ConfigText.app_id_entry s)) with (Some 6%nat).
  cbv iota beta zeta.
  change (find ":" 6 (ConfigText.app_id_entry s)) with (Some 7%nat).
  cbv iota beta zeta.
  change (skip_spaces (ConfigText.app_id_entry s) 8) with 9%nat.
  rewrite Hend, Hvalue, Hv, Hkey.
  unfold find. rewrite from_past_end by lia. reflexivity.
Qed.

Lemma inside_app_id_object s :
  ConfigText.fits_size_t (ConfigText.app_id_object s) ->
  inside (ConfigText.app_id_object s) = ConfigText.app_id_entry s.
Proof.
  unfold ConfigText.fits_size_t. intros Hlen.
  pose proof (length_app_id_entry s) as Hl.
  pose proof (length_app_id_object s) as Hjson.
  unfold inside. rewrite Hjson in *.
  rewrite size_t_sub_small by lia.
  rewrite substr_exact by lia.
  replace (N.to_nat (N.of_nat (13 + String.length s - 2)))
    with (String.length (ConfigText.app_id_entry s)) by lia.
  change (ConfigText.app_id_object s)
    with (String "{" (ConfigText.app_id_entry s ++ "}")).
  cbn [String.substring]. rewrite substring_prefix.
  change (ConfigText.app_id_entry s)
    with (String "034" ("appId" ++ String "034" ": "
                        ++ ConfigText.quoted s)).
  apply (Trim_fixed _ _ "034"%char); try reflexivity.
  - change (String "034" ("appId" ++ String "034" ": "
                          ++ ConfigText.quoted s))
      with ((String "034" "appId" ++ String "034" ": " ++ String "034" s)
            ++ String "034" "").
    apply back_app.
  - unfold ConfigText.fits_size_t.
    change (String "034" ("appId" ++ String "034" ": "
                          ++ ConfigText.quoted s))
      with (ConfigText.app_id_entry s).
    lia.
Qed.

Lemma Parse_app_id_object stack s :
  find "034" 0 s = None ->
  ConfigText.fits_size_t (ConfigText.app_id_object s) ->
  Parse (S (S stack)) (ConfigText.app_id_object s)
  = Some (mkJsonValue OBJECT false (double_of_int 0) "" []
            [("appId",
              mkJsonValue STRING false (double_of_int 0) s [] [])]).
Proof.
  intros Hs Hlen. unfold Parse. rewrite Parse_depth_unfold.
  assert (Htrim : Trim (ConfigText.app_id_object s)
                  = ConfigText.app_id_object s).
  { change (ConfigText.app_id_object s)
      with (String "{" (ConfigText.app_id_entry s ++ "}")) in *.
    apply (Trim_fixed _ _ "}"%char); try reflexivity; [|exact Hlen].
    change (String "{" (ConfigText.app_id_entry s ++ "}"))
      with (String "{" (ConfigText.app_id_entry s) ++ String "}" "").
    apply back_app. }
  rewrite Htrim.
  change (empty_string (ConfigText.app_id_object s)) with false.
  change (starts_with "{" (ConfigText.app_id_object s)) with true.
  cbv iota. unfold ParseObject.
  rewrite (inside_app_id_object s Hlen).
  change (empty_string (ConfigText.app_id_entry s)) with false. cbv iota.
  rewrite (loop_app_id (Parse_depth (S stack)) _ s
             (mkJsonValue STRING false (double_of_int 0) s [] []) Hs Hlen).
  - reflexivity.
  - apply Parse_depth_quoted.
    unfold ConfigText.fits_size_t in *. rewrite length_quoted.
    rewrite length_app_id_object in Hlen. lia.
Qed.

(** *** Arrays nested deeper than the stack holds *)

Lemma length_opens n : String.length (ConfigText.opens n) = n.
Proof. induction n as [|n IH]; simpl; [reflexivity | rewrite IH; reflexivity]. Qed.

Lemma length_closes n : String.length (ConfigText.closes n) = n.
Proof. induction n as [|n IH]; simpl; [reflexivity | rewrite IH; reflexivity]. Qed.

Lemma length_nested_arrays n :
  String.length (ConfigText.nested_arrays n) = (2 * n + 2)%nat.
Proof.
  unfold ConfigText.nested_arrays.
  rewrite length_app, length_opens, length_closes. lia.
Qed.

Lemma closes_snoc n :
  ConfigText.closes (S n) = ConfigText.closes n ++ "]".
Proof.
  induction n as [|n IH]; [reflexivity|].
  change (String "]" (ConfigText.closes (S n))
          = String "]" (ConfigText.closes n ++ "]")).
  f_equal. exact IH.
Qed.

Lemma append_assoc (a b c : string) : (a ++ b) ++ c = a ++ (b ++ c).
Proof.
  induction a as [|x a IH]; [reflexivity|].
  change (String x ((a ++ b) ++ c) = String x (a ++ (b ++ c))).
  f_equal. exact IH.
Qed.

Lemma nested_arrays_S n :
  ConfigText.nested_arrays (S n)
  = String "[" (ConfigText.nested_arrays n ++ "]").
Proof.
  unfold ConfigText.nested_arrays.
  rewrite (closes_snoc (S n)), <- append_assoc. reflexivity.
Qed.

Lemma back_nested_arrays n :
  back (ConfigText.nested_arrays n) = Some "]"%char.
Proof.
  unfold ConfigText.nested_arrays. rewrite closes_snoc, <- append_assoc.
  apply back_app.
Qed.

Lemma Trim_nested_arrays n :
  ConfigText.fits_size_t (ConfigText.nested_arrays n) ->
  Trim (ConfigText.nested_arrays n) = ConfigText.nested_arrays n.
Proof.
  intros Hlen. pose proof (back_nested_arrays n) as Hb.
  change (ConfigText.nested_arrays n)
    with (String "[" (ConfigText.opens n ++ ConfigText.closes (S n))) in *.
  apply (Trim_fixed _ _ "]"%char); try reflexivity; assumption.
Qed.

Lemma matching_opens a : forall rest count pos,
  (0 < count)%Z ->
  matching "[" "]" count (ConfigText.opens a ++ rest) pos
  = matching "[" "]" (count + Z.of_nat a) rest (pos + a).
Proof.
  induction a as [|a IH]; intros rest count pos Hc.
  - simpl. rewrite Z.add_0_r, Nat.add_0_r. reflexivity.
  - change (ConfigText.opens (S a) ++ rest)
      with (String "[" (ConfigText.opens a ++ rest)).
    cbn [matching].
    destruct (Z.gtb_spec count 0) as [_|Hle]; [|lia].
    change (Ascii.eqb "[" "[") with true. cbv iota.
    rewrite IH by lia. f_equal; lia.
Qed.

Lemma matching_closes b : forall count pos,
  (Z.of_nat b <= count)%Z ->
  matching "[" "]" count (ConfigText.closes b) pos = (pos + b)%nat.
Proof.
  induction b as [|b IH]; intros count pos Hc.
  - simpl. lia.
  - cbn [ConfigText.closes matching].
    destruct (Z.gtb_spec count 0) as [_|Hle]; [|lia].
    change (Ascii.eqb "]" "[") with false.
    change (Ascii.eqb "]" "]") with true. cbv iota.
    rewrite IH by lia. lia.
Qed.

Lemma FindValueEnd_nested_arrays n :
  FindValueEnd (ConfigText.nested_arrays n) 0
  = String.length (ConfigText.nested_arrays n).
Proof.
  unfold FindValueEnd.
  change (at_ (ConfigText.nested_arrays n) 0) with (Some "["%char).
  cbv iota beta.
  change (Ascii.eqb "[" "034") with false.
  change (Ascii.eqb "[" "{") with false.
  change (Ascii.eqb "[" "[") with true. cbv iota.
  change (from 1 (ConfigText.nested_arrays n))
    with (ConfigText.opens n ++ ConfigText.closes (S n)).
  rewrite matching_opens by lia. rewrite matching_closes by lia.
  rewrite length_nested_arrays. lia.
Qed.

Lemma inside_nested_arrays n :
  ConfigText.fits_size_t (ConfigText.nested_arrays (S n)) ->
  inside (ConfigText.nested_arrays (S n)) = ConfigText.nested_arrays n.
Proof.
  unfold ConfigText.fits_size_t. intros Hlen.
  pose proof (length_nested_arrays n) as Hn.
  pose proof (length_nested_arrays (S n)) as HSn.
  unfold inside.
  rewrite size_t_sub_small by lia.
  rewrite substr_exact by lia.
  replace (N.to_nat
             (N.of_nat (String.length (ConfigText.nested_arrays (S n)) - 2)))
    with (String.length (ConfigText.nested_arrays n)) by lia.
  rewrite nested_arrays_S. cbn [String.substring].
  rewrite substring_prefix. apply Trim_nested_arrays.
  unfold ConfigText.fits_size_t. lia.
Qed.

(** The one iteration [ParseArray] makes on [[...]]: the nested call gets
    the inner array, and its answer decides. *)
Lemma loop_nested_arrays (P : string -> option JsonValue) budget n :
  ConfigText.fits_size_t (ConfigText.nested_arrays n) ->
  ParseArray_loop P (S budget) (ConfigText.nested_arrays n) 0 []
  = match P (ConfigText.nested_arrays n) with
    | Some value => Some [value]
    | None => None
    end.
Proof.
  intros Hlen. pose proof (length_nested_arrays n) as Hn.
  assert (Hpos : (0 <? String.length (ConfigText.nested_arrays n))%nat
                 = true) by (apply Nat.ltb_lt; lia).
  cbn [ParseArray_loop]. rewrite Hpos. cbn [negb].
  change (skip_spaces (ConfigText.nested_arrays n) 0) with 0%nat.
  cbv zeta. rewrite FindValueEnd_nested_arrays.
  unfold ConfigText.fits_size_t in Hlen.
  rewrite size_t_sub_small by lia.
  rewrite substr_exact by lia.
  replace (N.to_nat
             (N.of_nat (String.length (ConfigText.nested_arrays n) - 0)))
    with (String.length (ConfigText.nested_arrays n)) by lia.
  rewrite substring_whole, (Trim_nested_arrays n Hlen).
  destruct (P (ConfigText.nested_arrays n)); [|reflexivity].
  unfold find. rewrite from_past_end by lia. reflexivity.
Qed.

Lemma Parse_depth_nested_arrays_step depth n :
  ConfigText.fits_size_t (ConfigText.nested_arrays (S n)) ->
  Parse_depth (S depth) (ConfigText.nested_arrays (S n))
  = match Parse_depth depth (ConfigText.nested_arrays n) with
    | Some value =>
        Some (mkJsonValue ARRAY false (double_of_int 0) "" [value] [])
    | None => None
    end.
Proof.
  intros Hlen.
  assert (Hinner : ConfigText.fits_size_t (ConfigText.nested_arrays n)).
  { unfold ConfigText.fits_size_t in *.
    rewrite length_nested_arrays in *. lia. }
  rewrite Parse_depth_unfold, (Trim_nested_arrays (S n) Hlen).
  change (empty_string (ConfigText.nested_arrays (S n))) with false.
  change (starts_with "{" (ConfigText.nested_arrays (S n))) with false.
  change (starts_with "[" (ConfigText.nested_arrays (S n))) with true.
  cbv iota. unfold ParseArray.
  rewrite (inside_nested_arrays n Hlen).
  change (empty_string (ConfigText.nested_arrays n)) with false. cbv iota.
  rewrite (loop_nested_arrays _ _ n Hinner).
  destruct (Parse_depth depth (ConfigText.nested_arrays n)); reflexivity.
Qed.

Lemma Parse_depth_nested_arrays n :
  ConfigText.fits_size_t (ConfigText.nested_arrays n) ->
  Parse_depth n (ConfigText.nested_arrays n) = None
  /\ exists v,
       Parse_depth (S n) (ConfigText.nested_arrays n) = Some v
       /\ type v = ARRAY.
Proof.
  induction n as [|n IH]; intros Hlen.
  - split; [reflexivity|]. eexists. split; reflexivity.
  - assert (Hinner : ConfigText.fits_size_t (ConfigText.nested_arrays n)).
    { unfold ConfigText.fits_size_t in *.
      rewrite length_nested_arrays in *. lia. }
    destruct (IH Hinner) as (Hnone & v & Hv & _).
    rewrite !Parse_depth_nested_arrays_step by exact Hlen.
    rewrite Hnone, Hv. split; [reflexivity|].
    eexists. split; reflexivity.
Qed.
End RoundTripFacts.

(** X21.  A text between double quotes parses to the string between them,
    character for character, on every stack that holds one call of the
    parser: no escape sequence is decoded, and a quote or a backslash inside
    is kept as it stands. *)
Theorem quoted_text_parses_verbatim `{Json.Floating}
    (stack : nat) (s : string) :
  ConfigText.fits_size_t (ConfigText.quoted s) ->
  Json.Parse (S stack) (ConfigText.quoted s)
  = Some (Json.mkJsonValue Json.STRING false (Json.double_of_int 0) s [] []).
Proof. intros Hlen. apply Parse_depth_quoted. exact Hlen. Qed.

Lemma quoted_text_parses_verbatim_witness :
  Json.Parse (H := Json.whole_numbers) 1
    (ConfigText.quoted (String "a" (String "034" (String "\" "n"))))
  = Some (Json.mkJsonValue (H := Json.whole_numbers) Json.STRING false 0%Z
            (String "a" (String "034" (String "\" "n"))) [] []).
Proof.
  apply (quoted_text_parses_verbatim (H := Json.whole_numbers) 0).
  unfold ConfigText.fits_size_t. simpl. lia.
Defined.

(** X22.  The application id is read back.  For every [s] without a double
    quote, [FromJson] of the text [{"appId": "<s>"}] returns, on every stack
    that holds two nested calls of the parser, the all-defaults
    configuration with [app_id = s]; commas, braces and colons inside [s]
    do no harm. *)
Theorem app_id_round_trip `{Json.Floating} (stack : nat) (s : string) :
  StdString.find "034" 0 s = None ->
  ConfigText.fits_size_t (ConfigText.app_id_object s) ->
  Config.FromJson (S (S stack)) (ConfigText.app_id_object s)
  = Some (ConfigText.defaults_with_app_id s).
Proof.
  intros Hs Hlen. unfold Config.FromJson.
  rewrite (Parse_app_id_object stack s Hs Hlen). reflexivity.
Qed.

Lemma app_id_round_trip_witness :
  Config.FromJson (H := Json.whole_numbers) 2
    (ConfigText.app_id_object "a,b}:c")
  = Some (ConfigText.defaults_with_app_id "a,b}:c").
Proof.
  apply (app_id_round_trip (H := Json.whole_numbers) 0);
    [reflexivity | unfold ConfigText.fits_size_t; simpl; lia].
Defined.

(** X23.  What [FromJson] returns can be connected with.  [FromJson]
    returns a configuration whenever the stack holds one call of the parser
    more than the text has opening brackets; and every configuration it
    returns, for whatever text, has a signaling URL that is not empty, a
    list of STUN servers that is not empty, and no TURN server. *)
Theorem FromJson_result_is_usable `{Json.Floating}
    (stack : nat) (json : string) :
  ((Json.opening_brackets json < stack)%nat ->
   exists config, Config.FromJson stack json = Some config)
  /\ (forall config,
        Config.FromJson stack json = Some config ->
        Config.signaling_url config <> ""%string
        /\ Config.stun_servers config <> []
        /\ Config.turn_servers config = []).
Proof.
  split; [apply FromJson_returns|].
  intros config. unfold Config.FromJson.
  destruct (Json.Parse stack json) as [root|]; [|discriminate].
  intros [= <-]. unfold Config.from_root. simpl.
  split; [|split; [|reflexivity]].
  - destruct (Json.GetString "signalingServerUrl" "" root) eqn:E; simpl.
    + destruct (String.eqb _ _); discriminate.
    + discriminate.
  - destruct (Json.GetStringArray "stunServers" root); discriminate.
Qed.

(** X24.  The kind of a parsed value is decided by the first character.
    [Parse] returns a value whenever the stack holds one call more than the
    text has opening brackets.  A value it returns is an object exactly
    when the trimmed text starts with [{], an array exactly for [[], a
    string exactly for a double quote, a boolean exactly for the words
    [true] and [false], and a number or the null value otherwise: no text
    is refused as malformed.  The value does not depend on the stack: every
    larger stack gives the same one. *)
Theorem Parse_root_kind `{Json.Floating} (stack : nat) (json : string) :
  ((Json.opening_brackets json < stack)%nat ->
   exists v, Json.Parse stack json = Some v)
  /\ (forall v,
        Json.Parse stack json = Some v ->
        (Json.type v = Json.OBJECT
         <-> StdString.starts_with "{" (Json.Trim json) = true)
        /\ (Json.type v = Json.ARRAY
            <-> StdString.starts_with "[" (Json.Trim json) = true)
        /\ (Json.type v = Json.STRING
            <-> StdString.starts_with "034" (Json.Trim json) = true)
        /\ (Json.type v = Json.BOOLEAN
            <-> Json.Trim json = "true"%string
                \/ Json.Trim json = "false"%string)
        /\ forall more, (stack <= more)%nat ->
                        Json.Parse more json = Some v).
Proof.
  split; [apply Parse_depth_returns|].
  intros v Hv. unfold Json.Parse in *.
  destruct (Parse_depth_kind _ _ _ Hv) as (Ho & Ha & Hs & Hb).
  repeat (split; [assumption|]).
  intros more Hmore. exact (Parse_depth_more _ _ _ _ Hmore Hv).
Qed.

(** X28.  Nesting deeper than the stack holds kills the parser.  The
    recursion of [Parse] through [ParseArray] has no bound: for every
    stack, the text of as many arrays inside one another as the stack holds
    calls, plus one, makes [Parse] - and with it [FromJson] - run over the
    end of the stack, where the same text on a stack one call larger
    parses to an array. *)
Theorem deep_nesting_exhausts_the_stack `{Json.Floating} (stack : nat) :
  ConfigText.fits_size_t (ConfigText.nested_arrays stack) ->
  Json.Parse stack (ConfigText.nested_arrays stack) = None
  /\ Config.FromJson stack (ConfigText.nested_arrays stack) = None
  /\ exists v,
       Json.Parse (S stack) (ConfigText.nested_arrays stack) = Some v
       /\ Json.type v = Json.ARRAY.
Proof.
  intros Hlen.
  destruct (Parse_depth_nested_arrays stack Hlen) as (Hnone & v & Hv & Ht).
  split; [exact Hnone|]. split.
  - unfold Config.FromJson. unfold Json.Parse in *. rewrite Hnone.
    reflexivity.
  - exists v. split; assumption.
Qed.

Lemma deep_nesting_exhausts_the_stack_witness :
  Json.Parse (H := Json.whole_numbers) 3 "[[[[]]]]" = None
  /\ Config.FromJson (H := Json.whole_numbers) 3 "[[[[]]]]" = None
  /\ exists v,
       Json.Parse (H := Json.whole_numbers) 4 "[[[[]]]]" = Some v
       /\ Json.type v = Json.ARRAY.
Proof.
  apply (deep_nesting_exhausts_the_stack (H := Json.whole_numbers) 3).
  unfold ConfigText.fits_size_t. simpl. lia.
Defined.


(** ** The callback bridge and the log *)

Section CallbackFacts.
Import JniCallback.

Lemma CallJavaMethod_keeps cb h (f : thread -> thread) t :
  exception_pending t = false ->
  (forall t0, attached (f t0) = attached t0
              /\ local_refs (f t0) = local_refs t0) ->
  attached (CallJavaMethod cb h f t) = attached t
  /\ exception_pending (CallJavaMethod cb h f t) = false
  /\ local_refs (CallJavaMethod cb h f t) = local_refs t.
Proof.
  intros Hp Hf. unfold CallJavaMethod.
  destruct (negb (jvm_ cb) || negb (java_engine_obj_ cb));
    [repeat split; exact Hp|].
  destruct t as [a p n cs]. simpl in Hp. subst p.
  destruct a, (attach_ok h); unfold set_attached; simpl;
    try (repeat split; reflexivity).
  - destruct (Hf (mkThread true false n cs)) as [Ha Hn].
    destruct (f (mkThread true false n cs)) as [a' [|] n' cs'];
      simpl in *; subst; repeat split; reflexivity.
  - destruct (Hf (mkThread true false n cs)) as [Ha Hn].
    destruct (f (mkThread true false n cs)) as [a' [|] n' cs'];
      simpl in *; subst; repeat split; reflexivity.
  - destruct (Hf (mkThread true false n cs)) as [Ha Hn].
    destruct (f (mkThread true false n cs)) as [a' [|] n' cs'];
      simpl in *; subst; repeat split; reflexivity.
Qed.

Lemma forward_keeps_thread cb h ev t :
  exception_pending t = false ->
  attached (forward cb h ev t) = attached t
  /\ exception_pending (forward cb h ev t) = false
  /\ local_refs (forward cb h ev t) = local_refs t.
Proof.
  intros Hp.
  destruct ev; cbn [forward]; try (repeat split; exact Hp);
    apply CallJavaMethod_keeps; try exact Hp; intros t0;
    match goal with
    | |- context [if ?b then _ else _] => destruct b
    end; split; reflexivity.
Qed.

Lemma forward_all_app cb ds1 : forall ds2 t,
  forward_all cb (ds1 ++ ds2) t = forward_all cb ds2 (forward_all cb ds1 t).
Proof.
  induction ds1 as [|[h ev] ds1 IH]; intros ds2 t; [reflexivity|].
  simpl. apply IH.
Qed.
End CallbackFacts.

(** X25.  The callback bridge leaves the calling thread as it found it.
    Whatever events are passed on, whether the Java methods throw, whether
    attaching succeeds and whichever method ids the constructor found: on a
    thread without a pending exception, after the callbacks the thread is
    attached exactly if it was before (a thread attached for the call is
    detached again, one that was attached already is never detached), no
    Java exception is pending, and every local reference created has been
    deleted. *)
Theorem callbacks_leave_thread_as_found
    (cb : JniCallback.callback)
    (deliveries : list (JniCallback.host * RtcEngineImpl.Event))
    (t : JniCallback.thread) :
  JniCallback.exception_pending t = false ->
  JniCallback.attached (JniCallback.forward_all cb deliveries t)
  = JniCallback.attached t
  /\ JniCallback.exception_pending (JniCallback.forward_all cb deliveries t)
     = false
  /\ JniCallback.local_refs (JniCallback.forward_all cb deliveries t)
     = JniCallback.local_refs t.
Proof.
  revert t. induction deliveries as [|[h ev] ds IH]; intros t Hp.
  - repeat split; [exact Hp].
  - destruct (forward_keeps_thread cb h ev t Hp) as (Ha & Hp' & Hn).
    destruct (IH (JniCallback.forward cb h ev t) Hp') as (Ha' & Hp'' & Hn').
    simpl. rewrite Ha', Hp'', Hn', Ha, Hn. repeat split.
Qed.

Lemma callbacks_leave_thread_as_found_witness :
  let t := JniCallback.mkThread false false 0 [] in
  let ds := [(JniCallback.mkHost true true,
              RtcEngineImpl.OnUserJoined "u");
             (JniCallback.mkHost false false,
              RtcEngineImpl.OnError 5 "e");
             (JniCallback.mkHost true false,
              RtcEngineImpl.OnConnectionStateChanged 3 2)] in
  JniCallback.attached (JniCallback.forward_all JniCallback.resolved ds t)
  = false
  /\ JniCallback.exception_pending
       (JniCallback.forward_all JniCallback.resolved ds t) = false
  /\ JniCallback.local_refs
       (JniCallback.forward_all JniCallback.resolved ds t) = 0%nat.
Proof.
  intros t ds.
  apply (callbacks_leave_thread_as_found JniCallback.resolved ds t).
  reflexivity.
Defined.

(** X26.  Java is told of state changes only.  Where the nested lock
    proceeds, a host joins a channel on the orchestrator
    [nativeCreateEngine] made and leaves it again: both calls return 0, and
    of the five events the orchestrator delivers to its [JniCallback] the
    bridge - with every method id resolved, on a thread that is attached or
    can be - makes exactly three calls on the Java object, the connection
    state changes (2, 1), (3, 2) and (1, 6).  [OnJoinChannelSuccess] and
    [OnLeaveChannel] do not reach Java. *)
Theorem java_is_told_of_state_changes_only
    (token channel_name user_id : string)
    (h : JniCallback.host) (t : JniCallback.thread) :
  RtcEngineImpl.empty token = false ->
  RtcEngineImpl.empty channel_name = false ->
  RtcEngineImpl.empty user_id = false ->
  JniCallback.attached t || JniCallback.attach_ok h = true ->
  exists joined left,
    RtcEngineImpl.JoinChannel (H := RtcEngineImpl.WebRTC)
      RtcEngineImpl.relock_proceeds None token channel_name user_id
      RtcEngineImpl.created_engine
    = RtcEngineImpl.Returns 0%Z joined
    /\ RtcEngineImpl.LeaveChannel (H := RtcEngineImpl.WebRTC)
         RtcEngineImpl.relock_proceeds joined
       = RtcEngineImpl.Returns 0%Z left
    /\ map snd (RtcEngineImpl.received left)
       = [RtcEngineImpl.OnConnectionStateChanged 2 1;
          RtcEngineImpl.OnConnectionStateChanged 3 2;
          RtcEngineImpl.OnJoinChannelSuccess channel_name user_id 100;
          RtcEngineImpl.OnConnectionStateChanged 1 6;
          RtcEngineImpl.OnLeaveChannel]
    /\ JniCallback.calls
         (JniCallback.forward_all JniCallback.resolved
            (map (fun d => (h, snd d)) (RtcEngineImpl.received left)) t)
       = JniCallback.calls t
         ++ [JniCallback.onNativeConnectionStateChanged 2 1;
             JniCallback.onNativeConnectionStateChanged 3 2;
             JniCallback.onNativeConnectionStateChanged 1 6].
Proof.
  intros Ht Hn Hu Hatt.
  destruct token as [|t0 token]; [discriminate|].
  destruct channel_name as [|c0 channel_name]; [discriminate|].
  destruct user_id as [|u0 user_id]; [discriminate|].
  unfold RtcEngineImpl.created_engine, RtcEngineImpl.constructed.
  eexists. eexists.
  split; [run_engine; simpl; reflexivity|].
  split; [run_engine; simpl; reflexivity|].
  split; [reflexivity|].
  destruct t as [a p n cs], h as [ok th]. simpl in Hatt.
  destruct a, ok; try discriminate Hatt; destruct p, th; simpl;
    rewrite <- ?app_assoc; reflexivity.
Qed.

Lemma java_is_told_of_state_changes_only_witness :
  exists joined left,
    RtcEngineImpl.JoinChannel (H := RtcEngineImpl.WebRTC)
      RtcEngineImpl.relock_proceeds None "t" "c" "u"
      RtcEngineImpl.created_engine
    = RtcEngineImpl.Returns 0%Z joined
    /\ RtcEngineImpl.LeaveChannel (H := RtcEngineImpl.WebRTC)
         RtcEngineImpl.relock_proceeds joined
       = RtcEngineImpl.Returns 0%Z left
    /\ map snd (RtcEngineImpl.received left)
       = [RtcEngineImpl.OnConnectionStateChanged 2 1;
          RtcEngineImpl.OnConnectionStateChanged 3 2;
          RtcEngineImpl.OnJoinChannelSuccess "c" "u" 100;
          RtcEngineImpl.OnConnectionStateChanged 1 6;
          RtcEngineImpl.OnLeaveChannel]
    /\ JniCallback.calls
         (JniCallback.forward_all JniCallback.resolved
            (map (fun d => (JniCallback.mkHost true false, snd d))
               (RtcEngineImpl.received left))
            (JniCallback.mkThread false false 0 []))
       = [JniCallback.onNativeConnectionStateChanged 2 1;
          JniCallback.onNativeConnectionStateChanged 3 2;
          JniCallback.onNativeConnectionStateChanged 1 6].
Proof.
  apply (java_is_told_of_state_changes_only "t" "c" "u"
           (JniCallback.mkHost true false)
           (JniCallback.mkThread false false 0 []));
    reflexivity.
Defined.

Section LoggingFacts.
Import Logging.
Local Open Scope string_scope.

Lemma after_last_slash_suffix file : forall name,
  after_last_slash file = Some name ->
  (exists dir, file = dir ++ String "/" name)
  /\ after_last_slash name = None.
Proof.
  induction file as [|c rest IH]; intros name Hn; [discriminate Hn|].
  simpl in Hn. destruct (after_last_slash rest) as [name'|] eqn:E.
  - injection Hn as <-. destruct (IH name' eq_refl) as [[dir ->] Hnone].
    split; [exists (String c dir); reflexivity | exact Hnone].
  - destruct (Ascii.eqb c "/") eqn:Hc; [|discriminate Hn].
    injection Hn as <-. apply Ascii.eqb_eq in Hc. subst c.
    split; [exists ""; reflexivity | exact E].
Qed.

Lemma no_slash_after_last file :
  after_last_slash file = None -> StdString.find "/" 0 file = None.
Proof.
  unfold StdString.find. change (StdString.from 0 file) with file.
  generalize 0%nat.
  induction file as [|c rest IH]; intros n Hn; [reflexivity|].
  simpl in *.
  destruct (after_last_slash rest); [discriminate Hn|].
  destruct (Ascii.eqb c "/"); [discriminate Hn|].
  apply IH. reflexivity.
Qed.

Lemma length_substring_le n : forall s,
  (String.length (String.substring 0 n s) <= n)%nat
  /\ (exists rest, s = String.substring 0 n s ++ rest)
  /\ ((String.length s <= n)%nat -> String.substring 0 n s = s).
Proof.
  induction n as [|n IH]; intros s.
  - destruct s; simpl; repeat split; try lia; eauto;
      intros Hl; try reflexivity; simpl in Hl; lia.
  - destruct s as [|c s]; simpl.
    + repeat split; try lia; exists ""; reflexivity.
    + destruct (IH s) as (Hlen & [rest Hrest] & Hsame).
      repeat split; try lia.
      * exists rest.
        change (String c s = String c (String.substring 0 n s ++ rest)).
        f_equal. exact Hrest.
      * intros Hl. rewrite Hsame by lia. reflexivity.
Qed.
End LoggingFacts.

(** X27.  What [LogMessage] prints.  A message below the threshold prints
    nothing, every other message prints one line; the file name of the line
    is the part of the path after its last slash, so it contains no slash
    and the path ends with it; the text is the formatted message cut to at
    most 1023 characters, and a message that short is printed whole; a level
    outside the five enumerators is printed with the priority of [INFO]. *)
Theorem LogMessage_prints_bounded_line
    (g_log_level level : Z) (file : string) (line_number : Z)
    (formatted : string) :
  match Logging.LogMessage g_log_level level file line_number formatted with
  | None => (level < g_log_level)%Z
  | Some l =>
      (g_log_level <= level)%Z
      /\ StdString.find "/" 0 (Logging.source_file l) = None
      /\ (exists dir, file = (dir ++ Logging.source_file l)%string)
      /\ (String.length (Logging.buffer l) <= 1023)%nat
      /\ (exists rest, formatted = (Logging.buffer l ++ rest)%string)
      /\ ((String.length formatted <= 1023)%nat
          -> Logging.buffer l = formatted)
      /\ ((level < 0 \/ 4 < level)%Z
          -> Logging.priority l = Logging.ANDROID_LOG_INFO)
  end.
Proof.
  unfold Logging.LogMessage.
  destruct (Z.ltb_spec level g_log_level) as [Hlt|Hge]; [exact Hlt|].
  cbn [Logging.source_file Logging.buffer Logging.priority].
  split; [exact Hge|].
  destruct (length_substring_le 1023 formatted) as (Hlen & Hpre & Hsame).
  unfold Logging.vsnprintf.
  change (1024 - 1)%nat with 1023%nat.
  assert (Hname : StdString.find "/" 0 (Logging.filename file) = None
                  /\ exists dir, file = (dir ++ Logging.filename file)%string).
  { unfold Logging.filename.
    destruct (Logging.after_last_slash file) as [name|] eqn:E.
    - destruct (after_last_slash_suffix file name E) as [[dir ->] Hnone].
      split; [apply no_slash_after_last; exact Hnone|].
      exists (dir ++ "/")%string.
      clear. induction dir as [|c dir IH]; [reflexivity|].
      change (String c (dir ++ String "/" name)
              = String c ((dir ++ "/") ++ name))%string.
      f_equal. exact IH.
    - split; [apply no_slash_after_last; exact E|].
      exists ""%string. reflexivity. }
  destruct Hname as [Hslash Hdir].
  split; [exact Hslash|]. split; [exact Hdir|]. split; [exact Hlen|].
  split; [exact Hpre|]. split; [exact Hsame|].
  intros Hout. unfold Logging.priority_of, Logging.VERBOSE, Logging.DEBUG,
    Logging.INFO, Logging.WARN, Logging.ERROR.
  destruct (Z.eqb_spec level 0); [lia|].
  destruct (Z.eqb_spec level 1); [lia|].
  destruct (Z.eqb_spec level 2); [lia|].
  destruct (Z.eqb_spec level 3); [lia|].
  destruct (Z.eqb_spec level 4); [lia|].
  reflexivity.
Qed.
